(** * Essential Shortcuts for Obsidian: a shallow embedding of the command handlers

    The plugin is a set of editor commands written in TypeScript against the
    host editor interface (getCursor, getLine, listSelections, setSelections,
    replaceRange, getValue, ...).  This development embeds

    - the string primitives of the language runtime the handlers call
      (indexOf, lastIndexOf, slice, split, join, toUpperCase, toLowerCase,
      RegExp with the global flag),
    - the host editor as an explicit state (lines of text and a selection set),
    - the handlers themselves, state passing made explicit,

    and proves properties of the handlers.  Numbers of the source are [Z]
    (the handlers subtract, and the runtime answers -1 for "not found");
    a match index of the regular-expression engine is a [nat]; strings are
    sequences of UTF-16 code units. *)

From Stdlib Require Import List ZArith NArith Lia Bool String Ascii.
From Stdlib Require Import Sorted Permutation.
Import ListNotations.
Open Scope Z_scope.

(* ================================================================== *)
(** ** Strings of the language runtime *)
(* ================================================================== *)

Module JS.

(** A string is a sequence of UTF-16 code units. *)
Definition unit16 := N.
Definition jsstring := list unit16.

Definition NL : unit16 := 10%N.   (* "\n" *)
Definition SP : unit16 := 32%N.   (* " "  *)

(** String literals of the source, written with Rocq string notation. *)
Definition lit (s : string) : jsstring := map N_of_ascii (list_ascii_of_string s).

(** [s.length] *)
Definition length (s : jsstring) : Z := Z.of_nat (List.length s).

(** [pat] occurs in [s] at position 0. *)
Fixpoint starts_with (pat s : jsstring) : bool :=
  match pat, s with
  | [], _ => true
  | _ :: _, [] => false
  | p :: pat', c :: s' => (p =? c)%N && starts_with pat' s'
  end.

(** Position of the first occurrence of [pat] in [s]. *)
Fixpoint first_occurrence (pat s : jsstring) {struct s} : option nat :=
  match s with
  | [] => if starts_with pat [] then Some O else None
  | _ :: s' =>
      if starts_with pat s then Some O
      else option_map S (first_occurrence pat s')
  end.

(** Position of the last occurrence of [pat] in [s] that starts at or
    before [limit]. *)
Fixpoint last_occurrence_upto (pat s : jsstring) (limit : nat) : option nat :=
  match limit, s with
  | S l, _ :: s' =>
      match last_occurrence_upto pat s' l with
      | Some i => Some (S i)
      | None => if starts_with pat s then Some O else None
      end
  | _, _ => if starts_with pat s then Some O else None
  end.

Definition clamp (lo hi x : Z) : Z := Z.min (Z.max x lo) hi.

(** [s.indexOf(pat, from)]: the start position is clamped to [0, s.length];
    -1 when there is no occurrence. *)
Definition indexOf (s pat : jsstring) (from : Z) : Z :=
  let k := Z.to_nat (clamp 0 (length s) from) in
  match first_occurrence pat (skipn k s) with
  | Some i => Z.of_nat (k + i)
  | None => -1
  end.

(** [s.lastIndexOf(pat, from)]; an omitted [from] means "from the end". *)
Definition lastIndexOf (s pat : jsstring) (from : option Z) : Z :=
  let start := match from with
               | Some f => clamp 0 (length s) f
               | None => length s
               end in
  match last_occurrence_upto pat s (Z.to_nat start) with
  | Some i => Z.of_nat i
  | None => -1
  end.

(** A relative index of [slice]: negative counts from the end. *)
Definition rel_index (len i : Z) : Z :=
  if i <? 0 then Z.max (len + i) 0 else Z.min i len.

(** [s.slice(start, end)] *)
Definition slice (s : jsstring) (start stop : Z) : jsstring :=
  let from := rel_index (length s) start in
  let to := rel_index (length s) stop in
  firstn (Z.to_nat (to - from)) (skipn (Z.to_nat from) s).

(** [s.split(sep)] for a separator of one code unit (the plugin splits on
    "\n" and on " "). *)
Fixpoint split (sep : unit16) (s : jsstring) : list jsstring :=
  match s with
  | [] => [[]]
  | c :: s' =>
      if (c =? sep)%N then [] :: split sep s'
      else match split sep s' with
           | piece :: rest => (c :: piece) :: rest
           | [] => [[c]]
           end
  end.

(** [s.split("")]: one string per code unit. *)
Definition split_units (s : jsstring) : list jsstring := map (fun c => [c]) s.

(** [pieces.join(sep)] *)
Fixpoint join (sep : jsstring) (pieces : list jsstring) : jsstring :=
  match pieces with
  | [] => []
  | [p] => p
  | p :: rest => p ++ sep ++ join sep rest
  end.

(** Position of the last unit equal to [c]. *)
Fixpoint last_pos (c : unit16) (s : jsstring) : option nat :=
  match s with
  | [] => None
  | x :: s' =>
      match last_pos c s' with
      | Some i => Some (S i)
      | None => if (x =? c)%N then Some O else None
      end
  end.

(** Truthiness of a string: the empty string is falsy. *)
Definition truthy (s : jsstring) : bool :=
  match s with [] => false | _ :: _ => true end.

End JS.

(* ================================================================== *)
(** ** Case conversion of the language runtime *)
(* ================================================================== *)

Module CaseMapping.
Import JS.

Local Open Scope N_scope.

Definition in_range (lo hi c : N) : bool := (lo <=? c) && (c <=? hi).

(** [c.toUpperCase()] for a string of one code unit.  The rows are those of
    the Unicode case tables for Basic Latin (U+0000..U+007F) and Latin-1
    Supplement (U+0080..U+00FF), together with the rows of the two code
    points outside these blocks that the tables map Latin-1 letters to; a
    code unit on no row is returned unchanged. *)
Definition toUpperCase1 (c : unit16) : jsstring :=
  if in_range 0x61 0x7A c then [c - 0x20]            (* a..z *)
  else if c =? 0xB5 then [0x39C]                     (* MICRO SIGN -> GREEK CAPITAL MU *)
  else if c =? 0xDF then [0x53; 0x53]                (* SHARP S -> "SS" *)
  else if in_range 0xE0 0xF6 c then [c - 0x20]       (* a-grave .. o-diaeresis *)
  else if in_range 0xF8 0xFE c then [c - 0x20]       (* o-stroke .. thorn *)
  else if c =? 0xFF then [0x178]                     (* y-diaeresis *)
  else if c =? 0x3BC then [0x39C]                    (* GREEK SMALL MU *)
  else [c].

(** [c.toLowerCase()] for a string of one code unit, same rows. *)
Definition toLowerCase1 (c : unit16) : jsstring :=
  if in_range 0x41 0x5A c then [c + 0x20]            (* A..Z *)
  else if in_range 0xC0 0xD6 c then [c + 0x20]       (* A-grave .. O-diaeresis *)
  else if in_range 0xD8 0xDE c then [c + 0x20]       (* O-stroke .. THORN *)
  else if c =? 0x178 then [0xFF]                     (* Y-diaeresis *)
  else if c =? 0x39C then [0x3BC]                    (* GREEK CAPITAL MU *)
  else [c].

(** [a === b] on strings. *)
Fixpoint str_eqb (a b : jsstring) : bool :=
  match a, b with
  | [], [] => true
  | x :: a', y :: b' => (x =? y) && str_eqb a' b'
  | _, _ => false
  end.

End CaseMapping.

(* ================================================================== *)
(** ** Regular expressions of the language runtime *)
(* ================================================================== *)

Module RegExp.
Import JS.

(** What the handlers use of a regular-expression engine: the constructor
    [new RegExp(source, "g")] (which may throw a SyntaxError: [None]) and
    the search for the leftmost match that starts at or after an index,
    answered as the pair (match index, index after the match). *)
Record Engine := {
  regex : Type;
  compile : jsstring -> option regex;
  find_match : regex -> jsstring -> nat -> option (nat * nat)
}.

(** [regex.exec(text)] with the global flag, [lastIndex] made explicit: the
    result is the match index (or null) and the new [lastIndex].  A null
    result resets [lastIndex] to 0; a match sets it to the index after the
    match, which is the match index itself when the match is empty. *)
Definition exec (E : Engine) (re : regex E) (text : jsstring) (lastIndex : nat)
  : option nat * nat :=
  if (List.length text <? lastIndex)%nat then (None, O)
  else match find_match E re text lastIndex with
       | None => (None, O)
       | Some (index, stop) => (Some index, stop)
       end.

(** *** A fragment of the pattern language

    Ordinary characters, [.], and the greedy quantifiers [*], [+], [?]
    applied to a single character or to [.].  A source that uses any other
    syntax character is outside the fragment. *)

Inductive atom := Unit (c : unit16) | AnyUnit.
Inductive quantifier := Once | Star | Plus | Opt.
Definition pattern := list (atom * quantifier).

(** The syntax characters of the pattern language: ^ $ \ . * + ? ( ) [ ] { } | *)
Definition syntax_units : list unit16 :=
  [94; 36; 92; 46; 42; 43; 63; 40; 41; 91; 93; 123; 125; 124]%N.

Definition is_syntax_unit (c : unit16) : bool :=
  existsb (N.eqb c) syntax_units.

Definition atom_of (c : unit16) : option atom :=
  if (c =? 46)%N then Some AnyUnit
  else if is_syntax_unit c then None
  else Some (Unit c).

Definition quantifier_of (c : unit16) : option quantifier :=
  if (c =? 42)%N then Some Star
  else if (c =? 43)%N then Some Plus
  else if (c =? 63)%N then Some Opt
  else None.

Fixpoint parse (source : jsstring) : option pattern :=
  match source with
  | [] => Some []
  | c :: rest =>
      match atom_of c with
      | None => None
      | Some a =>
          match rest with
          | [] => Some [(a, Once)]
          | q :: rest' =>
              match quantifier_of q with
              | Some qt => option_map (cons (a, qt)) (parse rest')
              | None => option_map (cons (a, Once)) (parse rest)
              end
          end
      end
  end.

(** Line terminators, which [.] does not match: LF, CR, LS, PS. *)
Definition is_line_terminator (c : unit16) : bool :=
  ((c =? 10) || (c =? 13) || (c =? 0x2028) || (c =? 0x2029))%N.

Definition atom_matches (a : atom) (c : unit16) : bool :=
  match a with
  | Unit x => (x =? c)%N
  | AnyUnit => negb (is_line_terminator c)
  end.

(** Backtracking match of [p] at the start of [s]: the number of code units
    of the match the engine finds first (quantifiers are greedy: more
    repetitions are tried before fewer). *)
Fixpoint match_here (p : pattern) (s : jsstring) {struct p} : option nat :=
  match p with
  | [] => Some O
  | (a, q) :: p' =>
      let once (s : jsstring) : option nat :=
        match s with
        | c :: s' => if atom_matches a c then option_map S (match_here p' s') else None
        | [] => None
        end in
      let many :=
        fix many (s : jsstring) : option nat :=
          match s with
          | c :: s' =>
              if atom_matches a c then
                match many s' with
                | Some n => Some (S n)
                | None => match_here p' s
                end
              else match_here p' s
          | [] => match_here p' s
          end in
      match q with
      | Once => once s
      | Star => many s
      | Plus =>
          match s with
          | c :: s' => if atom_matches a c then option_map S (many s') else None
          | [] => None
          end
      | Opt =>
          match once s with
          | Some n => Some n
          | None => match_here p' s
          end
      end
  end.

(** Leftmost match in [s], where [s] is the subject from position [pos] on. *)
Fixpoint search (p : pattern) (s : jsstring) (pos : nat) {struct s}
  : option (nat * nat) :=
  match match_here p s with
  | Some n => Some (pos, (pos + n)%nat)
  | None =>
      match s with
      | [] => None
      | _ :: s' => search p s' (S pos)
      end
  end.


(** The engine of the fragment.  For a source outside the fragment
    [compile] answers [None], as the constructor does for a source it
    rejects; what is stated with this engine is stated for sources of the
    fragment. *)
Definition Fragment : Engine := {|
  regex := pattern;
  compile := parse;
  find_match := fun p text lastIndex => search p (skipn lastIndex text) lastIndex
|}.

End RegExp.

(* ================================================================== *)
(** ** The host editor *)
(* ================================================================== *)

Module Host.
Import JS.

(** A coordinate [{line, ch}] and a selection [{anchor, head}]. *)
Record Pos := { line : Z; ch : Z }.
Record Selection := { anchor : Pos; head : Pos }.

(** The editor: the document as its lines, and the selection set in the order
    it was given.  The last selection is the primary one (the "primary/last"
    selection of the specification's selection model), whose head
    [getCursor] answers and whose text [getSelection] answers. *)
Record Editor := { lines : list jsstring; selections : list Selection }.

Definition origin : Pos := {| line := 0; ch := 0 |}.
Definition caret (p : Pos) : Selection := {| anchor := p; head := p |}.

Definition pos_eqb (p q : Pos) : bool := (line p =? line q) && (ch p =? ch q).
Definition pos_leb (p q : Pos) : bool :=
  (line p <? line q) || ((line p =? line q) && (ch p <=? ch q)).

Definition sel_from (s : Selection) : Pos :=
  if pos_leb (anchor s) (head s) then anchor s else head s.
Definition sel_to (s : Selection) : Pos :=
  if pos_leb (anchor s) (head s) then head s else anchor s.

Definition lineCount (e : Editor) : Z := Z.of_nat (List.length (lines e)).

(** [getLine(n)]; a line that does not exist has no text. *)
Definition getLine (e : Editor) (n : Z) : jsstring :=
  if (0 <=? n) && (n <? lineCount e) then nth (Z.to_nat n) (lines e) [] else [].

(** [getValue()]: the lines joined with "\n". *)
Definition getValue (e : Editor) : jsstring := join [NL] (lines e).

(** The host keeps every coordinate it stores inside the document: a line
    before the first becomes the document start, a line after the last
    becomes the document end, a column is cut to the length of its line. *)
Definition clipPos (e : Editor) (p : Pos) : Pos :=
  if line p <? 0 then origin
  else if lineCount e <=? line p then
    {| line := lineCount e - 1; ch := length (getLine e (lineCount e - 1)) |}
  else {| line := line p; ch := clamp 0 (length (getLine e (line p))) (ch p) |}.

Definition clipSelection (e : Editor) (s : Selection) : Selection :=
  {| anchor := clipPos e (anchor s); head := clipPos e (head s) |}.

Definition listSelections (e : Editor) : list Selection := selections e.

Definition primary (e : Editor) : Selection := last (selections e) (caret origin).

Definition getCursor (e : Editor) : Pos := head (primary e).

Definition somethingSelected (e : Editor) : bool :=
  existsb (fun s => negb (pos_eqb (anchor s) (head s))) (selections e).

(** [setSelections(ranges)]; an empty array is ignored.  The ranges are
    kept in the order and number given.  An editor may keep its selection
    set ordered by position and merge ranges that touch: what is stated of
    a call with several ranges is stated of the array handed over. *)
Definition setSelections (ranges : list Selection) (e : Editor) : Editor :=
  match ranges with
  | [] => e
  | _ :: _ => {| lines := lines e; selections := map (clipSelection e) ranges |}
  end.

Definition setSelection (a h : Pos) (e : Editor) : Editor :=
  setSelections [ {| anchor := a; head := h |} ] e.

Definition setCursor (p : Pos) (e : Editor) : Editor := setSelection p p e.

(** The lines [first .. last] of the document. *)
Definition lines_between (e : Editor) (first last : Z) : list jsstring :=
  map (fun k => getLine e (first + Z.of_nat k)) (seq 0 (Z.to_nat (last - first + 1))).

(** [getRange(from, to)] *)
Definition getRange (e : Editor) (from to : Pos) : jsstring :=
  let f := clipPos e from in
  let t := clipPos e to in
  if line f =? line t then slice (getLine e (line f)) (ch f) (Z.max (ch f) (ch t))
  else if line t <? line f then []
  else join [NL]
         (skipn (Z.to_nat (ch f)) (getLine e (line f))
            :: lines_between e (line f + 1) (line t - 1)
            ++ [firstn (Z.to_nat (ch t)) (getLine e (line t))]).

(** [getSelection()]: the text of the primary selection. *)
Definition getSelection (e : Editor) : jsstring :=
  getRange e (sel_from (primary e)) (sel_to (primary e)).

(** [replaceRange(text, from, to)]: the text between the two coordinates is
    replaced by [text]; an omitted [to] is [from] (an insertion).  The text
    may contain line breaks, which start new lines.  The selection set is
    left as it was here.  The handlers that duplicate or insert lines
    install a new selection set after their edits; the callbacks that sort
    lines do not, and an editor moves a selection that lies in the replaced
    text: of these callbacks only the lines of the document are stated. *)
Definition replaceRange (text : jsstring) (from : Pos) (to : option Pos) (e : Editor)
  : Editor :=
  let f := clipPos e from in
  let t := match to with Some p => clipPos e p | None => f end in
  let before := firstn (Z.to_nat (ch f)) (getLine e (line f)) in
  let after := skipn (Z.to_nat (ch t)) (getLine e (line t)) in
  {| lines := firstn (Z.to_nat (line f)) (lines e)
                ++ split NL (before ++ text ++ after)
                ++ skipn (Z.to_nat (line t) + 1) (lines e);
     selections := selections e |}.

(** A document is a non-empty sequence of lines, none of which contains a
    line break. *)
Definition wf_doc (e : Editor) : Prop :=
  lines e <> [] /\ Forall (fun l => ~ In NL l) (lines e).

(** A coordinate the host answers: inside the document. *)
Definition valid_pos (e : Editor) (p : Pos) : Prop :=
  0 <= line p < lineCount e /\ 0 <= ch p <= length (getLine e (line p)).

Definition valid_selection (e : Editor) (s : Selection) : Prop :=
  valid_pos e (anchor s) /\ valid_pos e (head s).

End Host.

(* ================================================================== *)
(** ** The plugin (the version that registers its commands from a table) *)
(* ================================================================== *)

Module Plugin.
Import JS Host.

(** The fields of the plugin object. *)
Record Fields := {
  selectLineCount : Z;
  lastSelectedLine : Z;
  lastSelectedWord : option jsstring
}.

Definition initial : Fields :=
  {| selectLineCount := 0; lastSelectedLine := -1; lastSelectedWord := None |}.

(** The plugin together with what [getActiveEditor()] answers. *)
Record App := { fields : Fields; activeEditor : option Editor }.

(** The "mousedown" listener registered in [onload]. *)
Definition mousedown (a : App) : App :=
  {| fields := {| selectLineCount := 0;
                  lastSelectedLine := -1;
                  lastSelectedWord := lastSelectedWord (fields a) |};
     activeEditor := activeEditor a |}.

(** *** handleDuplicateLineDown *)

(** The body of [selections.forEach] for one selection: the edit it makes
    and the entry it pushes on [newSelections]. *)
Definition duplicateDownEntry (editor : Editor) (selection : Selection)
  : Editor * Selection :=
  let startLine := Z.min (line (anchor selection)) (line (head selection)) in
  let endLine := Z.max (line (anchor selection)) (line (head selection)) in
  let linesToDuplicate := lines_between editor startLine endLine in
  let editor1 :=
    replaceRange ([NL] ++ join [NL] linesToDuplicate)
      {| line := endLine; ch := length (getLine editor endLine) |} None editor in
  let linesCount := endLine - startLine + 1 in
  (editor1,
   {| anchor := {| line := endLine + 1;
                   ch := if line (anchor selection) =? startLine
                         then ch (anchor selection) else 0 |};
      head := {| line := endLine + linesCount;
                 ch := if line (head selection) =? endLine
                       then ch (head selection)
                       else length (getLine editor1 endLine) |} |}).

(** The whole [forEach]: edits are made one after the other, every entry is
    computed from the selection as it was before the first edit. *)
Fixpoint duplicateDownAll (editor : Editor) (todo newSelections : list Selection)
  : Editor * list Selection :=
  match todo with
  | [] => (editor, newSelections)
  | selection :: rest =>
      let (editor1, entry) := duplicateDownEntry editor selection in
      duplicateDownAll editor1 rest (newSelections ++ [entry])
  end.

Definition handleDuplicateLineDown (checking : bool) (a : App) : bool * App :=
  if checking then (true, a)
  else match activeEditor a with
       | None => (true, a)
       | Some editor =>
           let (editor1, newSelections) :=
             duplicateDownAll editor (listSelections editor) [] in
           (true, {| fields := fields a;
                     activeEditor := Some (setSelections newSelections editor1) |})
       end.

(** *** handleSelectLine *)

Definition handleSelectLine (checking : bool) (a : App) : bool * App :=
  if checking then (true, a)
  else match activeEditor a with
       | None => (true, a)
       | Some editor =>
           let cursor := getCursor editor in
           let currentLine := line cursor in
           let f :=
             if negb (somethingSelected editor)
             then {| selectLineCount := 0;
                     lastSelectedLine := currentLine;
                     lastSelectedWord := lastSelectedWord (fields a) |}
             else fields a in
           let editor1 :=
             if selectLineCount f =? 0
             then setSelection {| line := lastSelectedLine f; ch := 0 |}
                               {| line := lastSelectedLine f + 1; ch := 0 |} editor
             else setSelection {| line := lastSelectedLine f; ch := 0 |}
                               {| line := lastSelectedLine f + selectLineCount f + 1;
                                  ch := 0 |} editor in
           (true, {| fields := {| selectLineCount := selectLineCount f + 1;
                                  lastSelectedLine := lastSelectedLine f;
                                  lastSelectedWord := lastSelectedWord f |};
                     activeEditor := Some editor1 |})
       end.

(** The command invoked [k] times in a row, nothing else happening in
    between. *)
Definition selectLineTimes (k : nat) (a : App) : App :=
  Nat.iter k (fun a => snd (handleSelectLine false a)) a.

(** *** handleInsertCursorBelow, handleInsertCursorAbove *)

(** The cursors the [for] loop pushes, one selection after the other. *)
Definition cursorsBelow (editor : Editor) (sels : list Selection) : list Pos :=
  flat_map (fun selection =>
              let lineBelow := line (anchor selection) + 1 in
              if lineBelow <? lineCount editor then
                let lineBelowLength := length (getLine editor lineBelow) in
                let newCh := Z.min (ch (anchor selection)) lineBelowLength in
                [ {| line := lineBelow; ch := newCh |} ]
              else []) sels.

Definition cursorsAbove (editor : Editor) (sels : list Selection) : list Pos :=
  flat_map (fun selection =>
              let lineAbove := line (anchor selection) - 1 in
              if 0 <=? lineAbove then
                let lineAboveLength := length (getLine editor lineAbove) in
                let newCh := Z.min (ch (anchor selection)) lineAboveLength in
                [ {| line := lineAbove; ch := newCh |} ]
              else []) sels.

(** [newCursors] when the loop is over. *)
Definition newCursorsBelow (editor : Editor) : list Pos :=
  map anchor (listSelections editor) ++ cursorsBelow editor (listSelections editor).

Definition newCursorsAbove (editor : Editor) : list Pos :=
  map anchor (listSelections editor) ++ cursorsAbove editor (listSelections editor).

(** The array handed to [setSelections]:
    [newCursors.map((pos) => ({ anchor: pos, head: pos }))]. *)
Definition selectionsBelow (editor : Editor) : list Selection :=
  map (fun pos => {| anchor := pos; head := pos |}) (newCursorsBelow editor).

Definition selectionsAbove (editor : Editor) : list Selection :=
  map (fun pos => {| anchor := pos; head := pos |}) (newCursorsAbove editor).

Definition handleInsertCursorBelow (checking : bool) (a : App) : bool * App :=
  if checking then (true, a)
  else match activeEditor a with
       | None => (true, a)
       | Some editor =>
           (true, {| fields := fields a;
                     activeEditor :=
                       Some (setSelections (selectionsBelow editor) editor) |})
       end.

Definition handleInsertCursorAbove (checking : bool) (a : App) : bool * App :=
  if checking then (true, a)
  else match activeEditor a with
       | None => (true, a)
       | Some editor =>
           (true, {| fields := fields a;
                     activeEditor :=
                       Some (setSelections (selectionsAbove editor) editor) |})
       end.

(** *** handleSelectWordOrExpand *)

(** The word around column [c] of [ln]: its start column and its text. *)
Definition wordAt (ln : jsstring) (c : Z) : Z * jsstring :=
  let wordStart := lastIndexOf ln [SP] (Some (c - 1)) + 1 in
  let wordEnd := indexOf ln [SP] c in
  let word := slice ln wordStart (if wordEnd =? -1 then length ln else wordEnd) in
  (wordStart, word).

Definition handleSelectWordOrExpand (checking : bool) (a : App) : bool * App :=
  if checking then (true, a)
  else match activeEditor a with
       | None => (true, a)
       | Some editor =>
           let cursor := getCursor editor in
           let ln := getLine editor (line cursor) in
           let selectedText := getSelection editor in
           let editor1 :=
             if truthy selectedText then
               let newSelections := listSelections editor in
               let lastSelection := last newSelections (caret origin) in
               let lastEndIndex := ch (head lastSelection) in
               let nextIndex := indexOf ln selectedText lastEndIndex in
               if negb (nextIndex =? -1) then
                 setSelections
                   (newSelections
                      ++ [ {| anchor := {| line := line cursor; ch := nextIndex |};
                              head := {| line := line cursor;
                                         ch := nextIndex + length selectedText |} |} ])
                   editor
               else editor
             else
               let (wordStart, word) := wordAt ln (ch cursor) in
               setSelection {| line := line cursor; ch := wordStart |}
                            {| line := line cursor; ch := wordStart + length word |}
                            editor in
           (true, {| fields := fields a; activeEditor := Some editor1 |})
       end.

(** *** handleSelectAllOccurrences *)

(** How a call of the handler ends: it returns, a SyntaxError of the RegExp
    constructor leaves it, or its loop is still running when the fuel of the
    model is used up. *)
Inductive Outcome (A : Type) : Type :=
| Returns (a : A)
| Throws
| Unfinished.
Arguments Returns {A} a.
Arguments Throws {A}.
Arguments Unfinished {A}.

Section SelectAllOccurrences.

Variable E : RegExp.Engine.

(** The entry pushed on [selections] for a match at [index]. *)
Definition occurrence (allText textToSelect : jsstring) (index : Z) : Selection :=
  {| anchor :=
       {| line := Z.of_nat (List.length (split NL (slice allText 0 index))) - 1;
          ch := index - lastIndexOf (slice allText 0 index) [NL] None - 1 |};
     head :=
       {| line := Z.of_nat (List.length (split NL (slice allText 0 index))) - 1;
          ch := index + length textToSelect
                - lastIndexOf (slice allText 0 index) [NL] None - 1 |} |}.

(** The [while ((match = regex.exec(allText)) !== null)] loop, run for at
    most [fuel] iterations: the selections pushed so far, and whether the
    loop has been left. *)
Fixpoint whileExec (fuel : nat) (re : RegExp.regex E) (allText textToSelect : jsstring)
  (lastIndex : nat) (selections : list Selection) : list Selection * bool :=
  match fuel with
  | O => (selections, false)
  | S fuel' =>
      match RegExp.exec E re allText lastIndex with
      | (None, _) => (selections, true)
      | (Some index, lastIndex') =>
          whileExec fuel' re allText textToSelect lastIndex'
            (selections ++ [occurrence allText textToSelect (Z.of_nat index)])
      end
  end.

(** The match indices [exec] answers in the first [fuel] iterations. *)
Fixpoint execIndices (fuel : nat) (re : RegExp.regex E) (allText : jsstring)
  (lastIndex : nat) : list nat :=
  match fuel with
  | O => []
  | S fuel' =>
      match RegExp.exec E re allText lastIndex with
      | (None, _) => []
      | (Some index, lastIndex') => index :: execIndices fuel' re allText lastIndex'
      end
  end.

(** The text searched for: the selection, or the word under the cursor. *)
Definition textToSelect (editor : Editor) : jsstring :=
  let cursor := getCursor editor in
  let ln := getLine editor (line cursor) in
  let selectedText := getSelection editor in
  if truthy selectedText then selectedText else snd (wordAt ln (ch cursor)).

Definition handleSelectAllOccurrences (fuel : nat) (checking : bool) (a : App)
  : Outcome (bool * App) :=
  if checking then Returns (true, a)
  else match activeEditor a with
       | None => Returns (true, a)
       | Some editor =>
           let text := textToSelect editor in
           let allText := getValue editor in
           match RegExp.compile E text with
           | None => Throws
           | Some re =>
               match whileExec fuel re allText text 0 [] with
               | (_, false) => Unfinished
               | (selections, true) =>
                   Returns (true,
                            {| fields := fields a;
                               activeEditor :=
                                 Some (if (0 <? List.length selections)%nat
                                       then setSelections selections editor
                                       else editor) |})
               end
           end
       end.

End SelectAllOccurrences.

(** *** handleToggleCase *)

(** The callback of [map]. *)
Definition toggleUnit (char : jsstring) : jsstring :=
  match char with
  | [c] => if CaseMapping.str_eqb char (CaseMapping.toUpperCase1 c)
           then CaseMapping.toLowerCase1 c
           else CaseMapping.toUpperCase1 c
  | _ => char
  end.

(** [selectedText.split("").map(...).join("")] *)
Definition toggled (selectedText : jsstring) : jsstring :=
  join [] (map toggleUnit (split_units selectedText)).

End Plugin.

(* ================================================================== *)
(** ** The plugin (the version whose duplicate-line-down is try-guarded) *)
(* ================================================================== *)

Module TryGuarded.
Import JS Host.

(** The calls the handler makes on the host. *)
Inductive HostCall := GetActiveEditor | GetCursor | GetLine | ReplaceRange | SetCursor.

(** What the handler can change: the active editor (if any) and the console,
    as the list of messages given to [console.error]. *)
Record World := { editor : option Editor; console : list jsstring }.

(** A computation either yields a value or raises; the world it leaves
    behind is there in both cases. *)
Inductive Result (A : Type) : Type :=
| Value (a : A)
| Raised.
Arguments Value {A} a.
Arguments Raised {A}.

Definition M (A : Type) : Type := World -> Result A * World.

Definition ret {A} (a : A) : M A := fun w => (Value a, w).

Definition bind {A B} (m : M A) (k : A -> M B) : M B :=
  fun w => match m w with
           | (Value a, w1) => k a w1
           | (Raised, w1) => (Raised, w1)
           end.

(** [try { body } catch (error) { handler }] *)
Definition tryCatch {A} (body : M A) (handler : M A) : M A :=
  fun w => match body w with
           | (Value a, w1) => (Value a, w1)
           | (Raised, w1) => handler w1
           end.

Notation "x <- m ;; k" := (bind m (fun x => k))
  (at level 61, m at next level, right associativity).
Notation "m ;;; k" := (bind m (fun _ => k))
  (at level 61, right associativity).

Section Faults.

(** Which host calls raise.  A call that raises has no effect of its own. *)
Variable faults : HostCall -> bool.

Definition call {A} (c : HostCall) (op : World -> A * World) : M A :=
  fun w => if faults c then (Raised, w)
           else let (a, w1) := op w in (Value a, w1).

Definition on_editor (f : Editor -> Editor) (w : World) : World :=
  {| editor := option_map f (editor w); console := console w |}.

Definition the_editor (w : World) : Editor :=
  match editor w with
  | Some e => e
  | None => {| lines := []; selections := [] |}
  end.

(** [this.getActiveEditor()]: is there an editor? *)
Definition getActiveEditor : M bool :=
  call GetActiveEditor
       (fun w => (match editor w with Some _ => true | None => false end, w)).

Definition getCursor : M Pos :=
  call GetCursor (fun w => (Host.getCursor (the_editor w), w)).

Definition getLine (n : Z) : M jsstring :=
  call GetLine (fun w => (Host.getLine (the_editor w) n, w)).

Definition replaceRange (text : jsstring) (from : Pos) : M unit :=
  call ReplaceRange (fun w => (tt, on_editor (Host.replaceRange text from None) w)).

Definition setCursor (p : Pos) : M unit :=
  call SetCursor (fun w => (tt, on_editor (Host.setCursor p) w)).

Definition consoleError (message : jsstring) : M unit :=
  fun w => (Value tt, {| editor := editor w; console := console w ++ [message] |}).

(** The block under [try]. *)
Definition duplicateLineDownBody : M unit :=
  present <- getActiveEditor ;;
  if (present : bool) then
    cursor <- getCursor ;;
    ln <- getLine (line cursor) ;;
    replaceRange ([NL] ++ ln) {| line := line cursor; ch := length ln |} ;;;
    setCursor {| line := line cursor + 1; ch := ch cursor |}
  else ret tt.

Definition handleDuplicateLineDown (checking : bool) : M bool :=
  (if checking then ret tt
   else tryCatch duplicateLineDownBody
                 (consoleError (lit "Error duplicating line down:"))) ;;;
  ret true.

End Faults.

(** No host call raises. *)
Definition no_fault : HostCall -> bool := fun _ => false.

(** Only the given call raises. *)
Definition only (c : HostCall) : HostCall -> bool :=
  fun c' => match c, c' with
            | GetActiveEditor, GetActiveEditor
            | GetCursor, GetCursor
            | GetLine, GetLine
            | ReplaceRange, ReplaceRange
            | SetCursor, SetCursor => true
            | _, _ => false
            end.

(** *** handleSelectWordOrExpand of this version

    It keeps the word in [lastSelectedWord] and moves one selection along
    the line instead of adding selections. *)
Definition handleSelectWordOrExpand (checking : bool) (a : Plugin.App)
  : bool * Plugin.App :=
  if checking then (true, a)
  else match Plugin.activeEditor a with
       | None => (true, a)
       | Some editor =>
           let cursor := Host.getCursor editor in
           let ln := Host.getLine editor (line cursor) in
           let selectedText := getSelection editor in
           let f := Plugin.fields a in
           let keep (w : option jsstring) :=
             {| Plugin.selectLineCount := Plugin.selectLineCount f;
                Plugin.lastSelectedLine := Plugin.lastSelectedLine f;
                Plugin.lastSelectedWord := w |} in
           if truthy selectedText then
             (true, {| Plugin.fields := keep (Some selectedText);
                       Plugin.activeEditor := Some editor |})
           else
             match Plugin.lastSelectedWord f with
             | Some ((_ :: _) as lastWord) =>
                 let nextIndex := indexOf ln lastWord (ch cursor) in
                 (true,
                  {| Plugin.fields := f;
                     Plugin.activeEditor :=
                       Some (if negb (nextIndex =? -1) then
                               Host.setCursor
                                 {| line := line cursor;
                                    ch := nextIndex + length lastWord |}
                                 (setSelection
                                    {| line := line cursor; ch := nextIndex |}
                                    {| line := line cursor;
                                       ch := nextIndex + length lastWord |}
                                    editor)
                             else editor) |})
             | _ =>
                 let (wordStart, word) := Plugin.wordAt ln (ch cursor) in
                 (true,
                  {| Plugin.fields := keep (Some word);
                     Plugin.activeEditor :=
                       Some (setSelection
                               {| line := line cursor; ch := wordStart |}
                               {| line := line cursor; ch := wordStart + length word |}
                               editor) |})
             end
       end.

End TryGuarded.

(* ================================================================== *)
(** ** The specification's own formulations *)
(* ================================================================== *)

Module Spec.
Import JS Host.

(** Number of newline characters in the text strictly before offset [o]. *)
Definition newlines_before (text : jsstring) (o : nat) : nat :=
  List.length (filter (N.eqb NL) (firstn o text)).

(** Offset of the nearest newline character strictly before offset [o]. *)
Fixpoint nearest_newline_before (text : jsstring) (o : nat) : option nat :=
  match o with
  | O => None
  | S k =>
      match nth_error text k with
      | Some c => if (c =? NL)%N then Some k else nearest_newline_before text k
      | None => nearest_newline_before text k
      end
  end.

(** The coordinate of flat offset [o]. *)
Definition coordinate (text : jsstring) (o : nat) : Pos :=
  {| line := Z.of_nat (newlines_before text o);
     ch := match nearest_newline_before text o with
           | Some p => Z.of_nat o - Z.of_nat p - 1
           | None => Z.of_nat o
           end |}.

(** The selection of a match at offset [o] of a search text of [len] units:
    from the coordinate of [o] to the coordinate of [o + len]. *)
Definition occurrence_range (text : jsstring) (len : nat) (o : nat) : Selection :=
  {| anchor := coordinate text o; head := coordinate text (o + len) |}.

(** The new selection of duplicate-line-down with the rule for the start
    column mirrored for the end column: the column carries over when the
    head was on the end line, and is 0 otherwise. *)
Definition duplicated_selection (sel : Selection) : Selection :=
  let startLine := Z.min (line (anchor sel)) (line (head sel)) in
  let endLine := Z.max (line (anchor sel)) (line (head sel)) in
  let lineCount := endLine - startLine + 1 in
  {| anchor := {| line := endLine + 1;
                  ch := if line (anchor sel) =? startLine then ch (anchor sel) else 0 |};
     head := {| line := endLine + lineCount;
                ch := if line (head sel) =? endLine then ch (head sel) else 0 |} |}.

(** The same with the end column of a head that was not on the end line set
    to the length of the end line. *)
Definition duplicated_block (e : Editor) (sel : Selection) : Selection :=
  let startLine := Z.min (line (anchor sel)) (line (head sel)) in
  let endLine := Z.max (line (anchor sel)) (line (head sel)) in
  let lineCount := endLine - startLine + 1 in
  {| anchor := {| line := endLine + 1;
                  ch := if line (anchor sel) =? startLine then ch (anchor sel) else 0 |};
     head := {| line := endLine + lineCount;
                ch := if line (head sel) =? endLine then ch (head sel)
                      else length (getLine e endLine) |} |}.

(** Deleting the [n] lines after line [b], together with the newline that
    ends line [b]. *)
Definition delete_lines_after (e : Editor) (b n : Z) : Editor :=
  replaceRange [] {| line := b; ch := length (getLine e b) |}
               (Some {| line := b + n; ch := length (getLine e (b + n)) |}) e.

(** Cursor fan-out: every selection's anchor as a cursor, in order, and
    then, in order, for each selection whose adjacent line (anchor line plus
    [delta]) is a line of the document, a cursor on that line at the
    anchor's column cut to the length of that line. *)
Definition adjacent_exists (e : Editor) (delta : Z) (s : Selection) : bool :=
  (0 <=? line (anchor s) + delta) && (line (anchor s) + delta <? lineCount e).

Definition adjacent_cursor (e : Editor) (delta : Z) (s : Selection) : Selection :=
  {| anchor := {| line := line (anchor s) + delta;
                  ch := Z.min (ch (anchor s))
                              (length (getLine e (line (anchor s) + delta))) |};
     head := {| line := line (anchor s) + delta;
                ch := Z.min (ch (anchor s))
                            (length (getLine e (line (anchor s) + delta))) |} |}.

Definition fan_out (e : Editor) (delta : Z) : list Selection :=
  map (fun s => {| anchor := anchor s; head := anchor s |}) (selections e)
  ++ map (adjacent_cursor e delta) (filter (adjacent_exists e delta) (selections e)).

(** The selection that covers [m] full lines from line [startLine] on: from
    column 0 of that line to column 0 of the line [m] lines further down,
    or to the end of the document when there is no such line. *)
Definition end_of_lines (e : Editor) (startLine m : Z) : Pos :=
  if startLine + m <? lineCount e then {| line := startLine + m; ch := 0 |}
  else {| line := lineCount e - 1; ch := length (getLine e (lineCount e - 1)) |}.

Definition full_lines (e : Editor) (startLine m : Z) : Selection :=
  {| anchor := {| line := startLine; ch := 0 |}; head := end_of_lines e startLine m |}.

(** The text of [m] full lines from line [startLine] on: each line with the
    newline that ends it, or, when these are the last lines of the
    document, the lines joined. *)
Definition text_of_full_lines (e : Editor) (startLine m : Z) : jsstring :=
  if startLine + m <? lineCount e
  then List.concat (map (fun l => l ++ [NL])
                        (lines_between e startLine (startLine + m - 1)))
  else join [NL] (lines_between e startLine (lineCount e - 1)).

(** The first column at or after [from] at which [text] occurs literally in
    the line [ln]. *)
Definition occurs_at (ln text : jsstring) (i : nat) : bool :=
  starts_with text (skipn i ln).

Definition first_occurrence_from (ln text : jsstring) (from : nat) : option nat :=
  find (occurs_at ln text) (seq from (S (List.length ln) - from)).

(** Word expansion that looks on the current line for the selected text
    from column [from] on: the occurrence found is appended to the selection
    set as a new selection; when there is none, nothing changes. *)
Definition expanded (e : Editor) (from : nat) : Editor :=
  let l := line (head (primary e)) in
  let text := getSelection e in
  match first_occurrence_from (getLine e l) text from with
  | Some i =>
      {| lines := lines e;
         selections :=
           selections e
           ++ [ {| anchor := {| line := l; ch := Z.of_nat i |};
                   head := {| line := l; ch := Z.of_nat i + length text |} |} ] |}
  | None => e
  end.

(** The offsets at which [pat] occurs in [text] as a literal substring. *)
Definition literal_occurrences (text pat : jsstring) : list nat :=
  filter (fun i => starts_with pat (skipn i text)) (seq 0 (S (List.length text))).

End Spec.

(* ================================================================== *)
(** ** Editor states used as examples *)
(* ================================================================== *)

Module Examples.
Import JS Host.

Definition at_ (l c : Z) : Pos := {| line := l; ch := c |}.
Definition range (l1 c1 l2 c2 : Z) : Selection :=
  {| anchor := at_ l1 c1; head := at_ l2 c2 |}.

(** The document "ab\ncab\nabc" with "ab" of its first line selected. *)
Definition three_lines : Editor :=
  {| lines := [lit "ab"; lit "cab"; lit "abc"];
     selections := [ range 0 0 0 2 ] |}.

(** One line "a.c abc" with "a.c" selected. *)
Definition dotted : Editor :=
  {| lines := [lit "a.c abc"]; selections := [ range 0 0 0 3 ] |}.

(** The lines "ab" and "cde", selected backwards from column 1 of the
    second line to column 1 of the first. *)
Definition two_lines : Editor :=
  {| lines := [lit "ab"; lit "cde"]; selections := [ range 1 1 0 1 ] |}.

(** A line of length 10 above a line of length 3, the cursor at column 5
    of the first. *)
Definition ten_and_three : Editor :=
  {| lines := [lit "0123456789"; lit "abc"]; selections := [ range 0 5 0 5 ] |}.

(** The document "ab\ncab\nabc" with the cursor in its second line. *)
Definition three_cursor : Editor :=
  {| lines := [lit "ab"; lit "cab"; lit "abc"]; selections := [ caret (at_ 1 1) ] |}.

(** The line "abab" with its first "ab" selected. *)
Definition abab : Editor :=
  {| lines := [lit "abab"]; selections := [ range 0 0 0 2 ] |}.

(** One line "a" with the cursor at its start, nothing on the console. *)
Definition one_line_world : TryGuarded.World :=
  {| TryGuarded.editor := Some {| lines := [lit "a"]; selections := [ caret origin ] |};
     TryGuarded.console := [] |}.

(** The line "a  b" with the cursor between the two spaces. *)
Definition between_spaces : Editor :=
  {| lines := [lit "a  b"]; selections := [ caret (at_ 0 2) ] |}.

(** The line "ab ab" with its first "ab" selected backwards, from column 2
    to column 0. *)
Definition ab_ab_backward : Editor :=
  {| lines := [lit "ab ab"]; selections := [ range 0 2 0 0 ] |}.

(** The document "ab\ncab\nabc" with "ca" of its second line selected. *)
Definition second_line_selected : Editor :=
  {| lines := [lit "ab"; lit "cab"; lit "abc"]; selections := [ range 1 0 1 2 ] |}.

(** The empty document: one line without text, the cursor on it. *)
Definition empty_document : Editor :=
  {| lines := [[]]; selections := [ caret origin ] |}.

(** The document "ab\ncd" with the text from column 1 of the first line to
    column 1 of the second selected: "b", the line break, "c". *)
Definition across_lines : Editor :=
  {| lines := [lit "ab"; lit "cd"]; selections := [ range 0 1 1 1 ] |}.

End Examples.

(* ================================================================== *)
(** ** Auxiliary definitions of the proofs *)
(* ================================================================== *)

Module Aux.
Import JS Host Plugin CaseMapping.

(** A code unit toggles to one code unit, which toggles back. *)
Definition round_trip (c : unit16) : bool :=
  match toggleUnit [c] with
  | [d] => str_eqb (toggleUnit [d]) [c]
  | _ => false
  end.

(** The two code units below U+0100 that do not: SHARP S and MICRO SIGN. *)
Definition one_way (c : unit16) : bool := ((c =? 0xDF) || (c =? 0xB5))%N.

(** Select line: the selection after [j] invocations that started with the
    cursor on [startLine], the editor then, and what holds of the plugin
    then ([j] at least 1). *)
Definition grown (e : Editor) (startLine j : Z) : Selection :=
  {| anchor := {| line := startLine; ch := 0 |};
     head := clipPos e {| line := startLine + j; ch := 0 |} |}.

Definition editor_after (e : Editor) (startLine j : Z) : Editor :=
  {| lines := lines e; selections := [grown e startLine j] |}.

Definition after_select_line (e : Editor) (startLine j : Z) (a : App) : Prop :=
  activeEditor a = Some (editor_after e startLine j)
  /\ lastSelectedLine (fields a) = startLine
  /\ (selectLineCount (fields a) = j
      \/ somethingSelected (editor_after e startLine j) = false).

(** Tactics for the example documents: a document is well formed, a
    selection lies inside it. *)
Ltac no_newline := simpl; intuition discriminate.
Ltac wf_example := split; [discriminate | repeat constructor; no_newline].
Ltac valid_example :=
  repeat split; cbn; try lia; vm_compute; discriminate.

End Aux.

(* ================================================================== *)
(** ** The other line commands of the plugin *)
(* ================================================================== *)

Module LineCommands.
Import JS Host Plugin.

(** *** handleDuplicateLineUp *)

(** The body of [selections.forEach] for one selection. *)
Definition duplicateUpEntry (editor : Editor) (selection : Selection)
  : Editor * Selection :=
  let startLine := Z.min (line (anchor selection)) (line (head selection)) in
  let endLine := Z.max (line (anchor selection)) (line (head selection)) in
  let linesToDuplicate := lines_between editor startLine endLine in
  let editor1 :=
    replaceRange (join [NL] linesToDuplicate ++ [NL])
      {| line := startLine; ch := 0 |} None editor in
  let linesCount := endLine - startLine + 1 in
  (editor1,
   {| anchor := {| line := startLine;
                   ch := if line (anchor selection) =? startLine
                         then ch (anchor selection) else 0 |};
      head := {| line := startLine + linesCount - 1;
                 ch := if line (head selection) =? endLine
                       then ch (head selection)
                       else length (getLine editor1 endLine) |} |}).

Fixpoint duplicateUpAll (editor : Editor) (todo newSelections : list Selection)
  : Editor * list Selection :=
  match todo with
  | [] => (editor, newSelections)
  | selection :: rest =>
      let (editor1, entry) := duplicateUpEntry editor selection in
      duplicateUpAll editor1 rest (newSelections ++ [entry])
  end.

Definition handleDuplicateLineUp (checking : bool) (a : App) : bool * App :=
  if checking then (true, a)
  else match activeEditor a with
       | None => (true, a)
       | Some editor =>
           let (editor1, newSelections) :=
             duplicateUpAll editor (listSelections editor) [] in
           (true, {| fields := fields a;
                     activeEditor := Some (setSelections newSelections editor1) |})
       end.

(** *** handleInsertLineAbove, handleInsertLineBelow *)

Definition handleInsertLineAbove (checking : bool) (a : App) : bool * App :=
  if checking then (true, a)
  else match activeEditor a with
       | None => (true, a)
       | Some editor =>
           let cursor := getCursor editor in
           let editor1 :=
             replaceRange [NL] {| line := line cursor; ch := 0 |} None editor in
           (true, {| fields := fields a;
                     activeEditor :=
                       Some (setCursor {| line := line cursor; ch := 0 |} editor1) |})
       end.

Definition handleInsertLineBelow (checking : bool) (a : App) : bool * App :=
  if checking then (true, a)
  else match activeEditor a with
       | None => (true, a)
       | Some editor =>
           let cursor := getCursor editor in
           let editor1 :=
             replaceRange [NL] {| line := line cursor + 1; ch := 0 |} None editor in
           (true, {| fields := fields a;
                     activeEditor :=
                       Some (setCursor {| line := line cursor + 1; ch := 0 |} editor1) |})
       end.

End LineCommands.

(* ================================================================== *)
(** ** Settings, and the commands of the versions that work on the cursor's line *)
(* ================================================================== *)

Module Settings.

(** The settings object and the stored data: the own properties of an
    object in the order they were added, each a boolean. *)
Definition JSObject := list (string * bool).

(** [o[k]] ([None] is undefined). *)
Fixpoint get (k : string) (o : JSObject) : option bool :=
  match o with
  | [] => None
  | (k', v) :: rest => if String.eqb k k' then Some v else get k rest
  end.

(** [o[k] = v]: an existing property keeps its place, a new one is added at
    the end. *)
Fixpoint set (k : string) (v : bool) (o : JSObject) : JSObject :=
  match o with
  | [] => [(k, v)]
  | (k', v') :: rest =>
      if String.eqb k k' then (k', v) :: rest else (k', v') :: set k v rest
  end.

(** [Object.assign(target, source)]; a null source is skipped. *)
Definition assign (target : JSObject) (source : option JSObject) : JSObject :=
  match source with
  | None => target
  | Some s => fold_left (fun t kv => set (fst kv) (snd kv) t) s target
  end.

(** [loadSettings]: [Object.assign({}, DEFAULT_SETTINGS, await this.loadData())],
    where [loadData] answers what is stored, or null. *)
Definition loadSettings (defaults : JSObject) (stored : option JSObject) : JSObject :=
  assign (assign [] (Some defaults)) stored.

(** [saveSettings]: [saveData(this.settings)]; what is stored afterwards. *)
Definition saveSettings (settings : JSObject) : option JSObject := Some settings.

(** The [onChange] of a toggle of the settings tab: the property is set and
    the settings are saved.  The settings and what is stored afterwards. *)
Definition onChange (k : string) (value : bool) (settings : JSObject)
  : JSObject * option JSObject :=
  let settings1 := set k value settings in
  (settings1, saveSettings settings1).

(** [if (this.settings[k])] *)
Definition enabled (k : string) (settings : JSObject) : bool :=
  match get k settings with
  | Some true => true
  | _ => false
  end.

(** [DEFAULT_SETTINGS] of the first version. *)
Definition DEFAULT_SETTINGS : JSObject :=
  [ ("enableDuplicateLineDown"%string, true); ("enableDuplicateLineUp"%string, true) ].

(** [DEFAULT_SETTINGS] of the version with seven commands. *)
Definition DEFAULT_SETTINGS_7 : JSObject :=
  [ ("enableDuplicateLineDown"%string, true);
    ("enableDuplicateLineUp"%string, true);
    ("enableSelectLine"%string, true);
    ("enableInsertCursorBelow"%string, true);
    ("enableInsertCursorAbove"%string, true);
    ("enableInsertLineAbove"%string, true);
    ("enableSelectWordOrExpand"%string, true) ].

End Settings.

Module CursorLine.
Import JS Host.

(** The edit and the cursor of "duplicate line down" on the cursor's line. *)
Definition duplicateDown (editor : Editor) : Editor :=
  let cursor := getCursor editor in
  let ln := getLine editor (line cursor) in
  let editor1 :=
    replaceRange ([NL] ++ ln) {| line := line cursor; ch := length ln |}
      (Some {| line := line cursor; ch := length ln |}) editor in
  setCursor {| line := line cursor + 1; ch := ch cursor |} editor1.

(** The edit and the cursor of "duplicate line up" on the cursor's line. *)
Definition duplicateUp (editor : Editor) : Editor :=
  let cursor := getCursor editor in
  let ln := getLine editor (line cursor) in
  let editor1 :=
    replaceRange (ln ++ [NL]) {| line := line cursor; ch := 0 |}
      (Some {| line := line cursor; ch := 0 |}) editor in
  setCursor {| line := line cursor; ch := ch cursor |} editor1.

(** The [checkCallback] of "duplicate-line-down" in the first version: the
    command is there when the setting is on. *)
Definition duplicateLineDownCallback (settings : Settings.JSObject) (checking : bool)
  (view : option Editor) : bool * option Editor :=
  if Settings.enabled "enableDuplicateLineDown" settings then
    (true, if negb checking then option_map duplicateDown view else view)
  else (false, view).

Definition duplicateLineUpCallback (settings : Settings.JSObject) (checking : bool)
  (view : option Editor) : bool * option Editor :=
  if Settings.enabled "enableDuplicateLineUp" settings then
    (true, if negb checking then option_map duplicateUp view else view)
  else (false, view).

(** [handleDuplicateLineUp] of the version whose duplicate-line-down is
    try-guarded: [replaceRange] is called without [to]. *)
Definition handleDuplicateLineUp (checking : bool) (view : option Editor)
  : bool * option Editor :=
  (true,
   if negb checking then
     option_map
       (fun editor =>
          let cursor := getCursor editor in
          let ln := getLine editor (line cursor) in
          setCursor {| line := line cursor; ch := ch cursor |}
            (replaceRange (ln ++ [NL]) {| line := line cursor; ch := 0 |} None editor))
       view
   else view).

End CursorLine.

(* ================================================================== *)
(** ** More editor states used as examples *)
(* ================================================================== *)

Module MoreExamples.
Import JS Host Examples.

(** The lines "ab", "cde", "f" with a forward selection from column 1 of
    the first line to column 2 of the second. *)
Definition forward_two_of_three : Editor :=
  {| lines := [lit "ab"; lit "cde"; lit "f"]; selections := [ range 0 1 1 2 ] |}.

(** The lines "ab", "cde" with the cursor at column 2 of the last line. *)
Definition cursor_on_last : Editor :=
  {| lines := [lit "ab"; lit "cde"]; selections := [ caret (at_ 1 2) ] |}.

(** The lines "ab", "cde" with the cursor at column 1 of the first line. *)
Definition cursor_on_first : Editor :=
  {| lines := [lit "ab"; lit "cde"]; selections := [ caret (at_ 0 1) ] |}.

End MoreExamples.

(* ================================================================== *)
(** ** The commands that sort the selected lines *)
(* ================================================================== *)

Module SortLines.
Import JS Host.

(** [array.sort(compareFn)].  The sort of the runtime is stable, and with a
    comparator that orders the elements consistently its result is the one
    of this insertion sort: an element goes in front of the first element
    of the sorted rest that the comparator does not put before it. *)
Fixpoint insert {A : Type} (compareFn : A -> A -> Z) (x : A) (sorted : list A)
  : list A :=
  match sorted with
  | [] => [x]
  | y :: rest =>
      if compareFn x y <=? 0 then x :: sorted else y :: insert compareFn x rest
  end.

Fixpoint sort {A : Type} (compareFn : A -> A -> Z) (l : list A) : list A :=
  match l with
  | [] => []
  | x :: rest => insert compareFn x (sort compareFn rest)
  end.

(** The body of [selections.forEach] of both commands, for one selection. *)
Definition sortEntry (compareFn : jsstring -> jsstring -> Z) (editor : Editor)
  (selection : Selection) : Editor :=
  let startLine := line (anchor selection) in
  let endLine := line (head selection) in
  let actualStartLine := Z.min startLine endLine in
  let actualEndLine := Z.max startLine endLine in
  let lines := lines_between editor actualStartLine actualEndLine in
  let sortedLines := sort compareFn lines in
  replaceRange (join [NL] sortedLines)
    {| line := actualStartLine; ch := 0 |}
    (Some {| line := actualEndLine; ch := length (getLine editor actualEndLine) |})
    editor.

Section Locale.

(** [a.localeCompare(b)]: negative, zero or positive.  The order is the one
    of the host's locale. *)
Variable localeCompare : jsstring -> jsstring -> Z.

(** The [editorCallback] of "sort-selected-lines". *)
Definition sortSelectedLines (editor : Editor) : Editor :=
  fold_left (sortEntry (fun a b => localeCompare a b)) (listSelections editor) editor.

(** The [editorCallback] of "sort-selected-lines-reverse". *)
Definition sortSelectedLinesReverse (editor : Editor) : Editor :=
  fold_left (sortEntry (fun a b => localeCompare b a)) (listSelections editor) editor.

End Locale.

(** A comparator for examples: the order of the code units, a shorter
    string before its extensions. *)
Fixpoint byCodeUnits (a b : jsstring) : Z :=
  match a, b with
  | [], [] => 0
  | [], _ :: _ => -1
  | _ :: _, [] => 1
  | x :: a', y :: b' =>
      if (x <? y)%N then -1 else if (y <? x)%N then 1 else byCodeUnits a' b'
  end.

(** The lines "pear", "fig", "apple", "kiwi" with the lines 1..2 selected. *)
Definition fruit : Editor :=
  {| lines := [lit "pear"; lit "fig"; lit "apple"; lit "kiwi"];
     selections := [ {| anchor := {| line := 1; ch := 1 |};
                        head := {| line := 2; ch := 3 |} |} ] |}.

End SortLines.

(* ================================================================== *)
(** ** The text the case commands put in place of the selection *)
(* ================================================================== *)

Module TextCommands.
Import JS CaseMapping.

(** [s.toUpperCase()] and [s.toLowerCase()], code unit by code unit with
    the rows of [CaseMapping] (what is stated with them is stated for text
    of Basic Latin and Latin-1 Supplement). *)
Definition toUpperCase (s : jsstring) : jsstring := flat_map toUpperCase1 s.
Definition toLowerCase (s : jsstring) : jsstring := flat_map toLowerCase1 s.

(** [s.charAt(i)]: the empty string when there is no such position. *)
Definition charAt (s : jsstring) (i : Z) : jsstring :=
  if (0 <=? i) && (i <? length s) then firstn 1 (skipn (Z.to_nat i) s) else [].

(** The callback of [map] in the "titlecase" case:
    [word.charAt(0).toUpperCase() + word.slice(1).toLowerCase()]. *)
Definition titleWord (word : jsstring) : jsstring :=
  toUpperCase (charAt word 0) ++ toLowerCase (slice word 1 (length word)).

(** The [switch] of [handleTextCommands]: the text that replaces the
    selection, [None] for a command name the [default] case answers. *)
Definition transformedText (command : string) (selectedText : jsstring)
  : option jsstring :=
  if String.eqb command "uppercase" then Some (toUpperCase selectedText)
  else if String.eqb command "lowercase" then Some (toLowerCase selectedText)
  else if String.eqb command "titlecase" then
    Some (join [SP] (map titleWord (split SP selectedText)))
  else None.

(** A code unit with one upper-case and one lower-case code unit, each of
    which converts to itself and to the other. *)
Definition plain_case (c : unit16) : bool :=
  match toUpperCase1 c, toLowerCase1 c with
  | [u], [l] =>
      str_eqb (toUpperCase1 u) [u] && str_eqb (toLowerCase1 l) [l]
      && str_eqb (toLowerCase1 u) [l] && str_eqb (toUpperCase1 l) [u]
  | _, _ => false
  end.

End TextCommands.

(* ================================================================== *)
(** * Properties *)
(* ================================================================== *)

(** ** Facts about the string primitives *)

Module JSFacts.
Import JS.

Lemma length_nonneg (s : jsstring) : 0 <= length s.
Proof. unfold length. lia. Qed.

Lemma split_not_nil (c : unit16) (s : jsstring) : split c s <> [].
Proof.
  induction s as [|x s IH]; simpl; [discriminate|].
  destruct (x =? c)%N; [discriminate|].
  destruct (split c s); [contradiction|discriminate].
Qed.

(** A text splits into one piece more than it has separators. *)
Lemma split_length (c : unit16) (s : jsstring) :
  List.length (split c s) = S (List.length (filter (N.eqb c) s)).
Proof.
  induction s as [|x s IH]; simpl; [reflexivity|].
  rewrite (N.eqb_sym c x).
  destruct (x =? c)%N; simpl.
  - now rewrite IH.
  - destruct (split c s) as [|p r] eqn:Hs.
    + now apply split_not_nil in Hs.
    + exact IH.
Qed.

(** [slice(0, o)] is the prefix of [o] units. *)
Lemma slice_prefix (s : jsstring) (o : nat) :
  slice s 0 (Z.of_nat o) = firstn o s.
Proof.
  unfold slice, rel_index, length.
  change (0 <? 0) with false; cbv iota.
  destruct (Z.ltb_spec (Z.of_nat o) 0) as [Ho|Ho]; [lia|].
  rewrite (Z.min_l 0) by lia. simpl skipn.
  replace (Z.to_nat (Z.min (Z.of_nat o) (Z.of_nat (List.length s)) - 0))
    with (Nat.min o (List.length s)) by lia.
  destruct (Nat.le_ge_cases o (List.length s)).
  - now rewrite Nat.min_l.
  - rewrite Nat.min_r by assumption.
    now rewrite !firstn_all2 by lia.
Qed.

Lemma starts_with_unit (c : unit16) (s : jsstring) :
  starts_with [c] s = match s with x :: _ => (x =? c)%N | [] => false end.
Proof.
  destruct s as [|x s]; simpl; [reflexivity|].
  rewrite andb_true_r. apply N.eqb_sym.
Qed.

Lemma last_occurrence_unit (c : unit16) (s : jsstring) (limit : nat) :
  (List.length s <= limit)%nat ->
  last_occurrence_upto [c] s limit = last_pos c s.
Proof.
  revert limit; induction s as [|x s IH]; intros limit Hl.
  - destruct limit; reflexivity.
  - destruct limit as [|l]; [simpl in Hl; lia|].
    cbn [last_occurrence_upto last_pos].
    rewrite IH by (simpl in Hl; lia).
    destruct (last_pos c s); [reflexivity|].
    now rewrite starts_with_unit.
Qed.

Lemma last_pos_snoc (c x : unit16) (s : jsstring) :
  last_pos c (s ++ [x]) = if (x =? c)%N then Some (List.length s) else last_pos c s.
Proof.
  induction s as [|y s IH]; simpl.
  - destruct (x =? c)%N; reflexivity.
  - rewrite IH. destruct (x =? c)%N; [reflexivity|].
    destruct (last_pos c s); reflexivity.
Qed.

Lemma firstn_succ_snoc (s : jsstring) (k : nat) (x : unit16) :
  nth_error s k = Some x -> firstn (S k) s = firstn k s ++ [x].
Proof.
  revert k; induction s as [|y s IH]; intros [|k] H; simpl in *; try discriminate.
  - now inversion H.
  - now rewrite (IH k H).
Qed.

Lemma nearest_newline_is_last_pos (text : jsstring) (o : nat) :
  Spec.nearest_newline_before text o = last_pos NL (firstn o text).
Proof.
  induction o as [|k IH]; [reflexivity|].
  cbn [Spec.nearest_newline_before].
  destruct (nth_error text k) as [x|] eqn:Hk.
  - rewrite (firstn_succ_snoc _ _ _ Hk), last_pos_snoc, IH.
    assert (List.length (firstn k text) = k) as ->.
    { apply firstn_length_le. apply Nat.lt_le_incl, nth_error_Some. congruence. }
    reflexivity.
  - apply nth_error_None in Hk.
    rewrite IH, !firstn_all2 by lia. reflexivity.
Qed.

Lemma lastIndexOf_newline_prefix (text : jsstring) (o : nat) :
  lastIndexOf (firstn o text) [NL] None =
  match Spec.nearest_newline_before text o with
  | Some p => Z.of_nat p
  | None => -1
  end.
Proof.
  unfold lastIndexOf, length.
  rewrite last_occurrence_unit by lia.
  now rewrite nearest_newline_is_last_pos.
Qed.

End JSFacts.

(** ** Select all occurrences *)

Module SelectAllFacts.
Import JS Host Plugin JSFacts.

(** The entry the handler pushes for a match: it starts at the coordinate
    of the match and ends on the same line, the length of the search text
    further. *)
Lemma occurrence_start_line (allText text : jsstring) (o : nat) :
  occurrence allText text (Z.of_nat o)
  = {| anchor := Spec.coordinate allText o;
       head := {| line := line (Spec.coordinate allText o);
                  ch := ch (Spec.coordinate allText o) + length text |} |}.
Proof.
  unfold occurrence, Spec.coordinate, Spec.newlines_before.
  rewrite slice_prefix, split_length, lastIndexOf_newline_prefix.
  cbn [line ch].
  destruct (Spec.nearest_newline_before allText o) as [p|];
    f_equal; f_equal; lia.
Qed.

Lemma whileExec_selections (E : RegExp.Engine) (re : RegExp.regex E)
      (allText text : jsstring) (fuel lastIndex : nat) (sels : list Selection) :
  fst (whileExec E fuel re allText text lastIndex sels) =
  sels ++ map (fun o => occurrence allText text (Z.of_nat o))
              (execIndices E fuel re allText lastIndex).
Proof.
  revert lastIndex sels; induction fuel as [|fuel IH]; intros lastIndex sels.
  - simpl. now rewrite app_nil_r.
  - cbn [whileExec execIndices].
    destruct (RegExp.exec E re allText lastIndex) as [[index|] lastIndex'].
    + rewrite IH, <- app_assoc. reflexivity.
    + simpl. now rewrite app_nil_r.
Qed.

(** The coordinate of the next offset, when no line break is passed. *)
Lemma coordinate_step (text : jsstring) (k : nat) :
  nth_error text k <> Some NL ->
  Spec.coordinate text (S k)
  = {| line := line (Spec.coordinate text k); ch := ch (Spec.coordinate text k) + 1 |}.
Proof.
  intro Hk. unfold Spec.coordinate, Spec.newlines_before. cbn [line ch].
  cbn [Spec.nearest_newline_before].
  destruct (nth_error text k) as [c|] eqn:Hc.
  - rewrite (firstn_succ_snoc _ _ _ Hc), filter_app. cbn [filter].
    destruct (N.eqb_spec c NL) as [->|Hne]; [contradiction|].
    rewrite (N.eqb_sym NL c). destruct (N.eqb_spec c NL) as [|_]; [contradiction|].
    rewrite app_nil_r.
    destruct (Spec.nearest_newline_before text k); f_equal; lia.
  - apply nth_error_None in Hc. rewrite !firstn_all2 by lia.
    destruct (Spec.nearest_newline_before text k); f_equal; lia.
Qed.

Lemma coordinate_of_end (text : jsstring) (o len : nat) :
  (forall k, (o <= k < o + len)%nat -> nth_error text k <> Some NL) ->
  Spec.coordinate text (o + len)
  = {| line := line (Spec.coordinate text o);
       ch := ch (Spec.coordinate text o) + Z.of_nat len |}.
Proof.
  induction len as [|len IH]; intro Hfree.
  - rewrite Nat.add_0_r.
    destruct (Spec.coordinate text o) as [l c]. cbn [line ch]. f_equal. lia.
  - replace (o + S len)%nat with (S (o + len)) by lia.
    rewrite coordinate_step by (apply Hfree; lia).
    rewrite IH by (intros k Hk; apply Hfree; lia).
    cbn [line ch]. f_equal. lia.
Qed.

(** A match without a line break in it is selected from its first to behind
    its last character. *)
Lemma occurrence_on_one_line (allText text : jsstring) (o : nat) :
  (forall k, (o <= k < o + List.length text)%nat -> nth_error allText k <> Some NL) ->
  occurrence allText text (Z.of_nat o)
  = Spec.occurrence_range allText (List.length text) o.
Proof.
  intro Hfree. rewrite occurrence_start_line. unfold Spec.occurrence_range.
  now rewrite (coordinate_of_end _ _ _ Hfree).
Qed.

(** C1.  Whatever the engine matches, the selection pushed for a match at
    flat offset [o] starts at the coordinate of [o] (line: the newline
    characters strictly before [o]; column: [o] minus the offset of the
    nearest newline before it minus 1, or [o] when there is none) and ends
    on the line of [o], the search text's length further; on "ab\ncab\nabc"
    with "ab" selected the handler installs exactly {0,0}-{0,2},
    {1,1}-{1,3}, {2,0}-{2,2}, in this order.  On "ab\ncd" with the text
    from {0,1} to {1,1} selected (the text "b", line break, "c", which
    occurs at offset 1 and nowhere else) the selection from the coordinate
    of offset 1 to the coordinate of offset 1 + 3 is {0,1}-{1,1}; the
    handler hands {0,1}-{0,4} to the editor, which is not inside the
    document, and the editor is left with {0,1}-{0,2} selected, the text
    "b". *)
Theorem select_all_end_on_start_line :
  (forall (E : RegExp.Engine) (re : RegExp.regex E) (allText text : jsstring)
          (fuel : nat),
      fst (whileExec E fuel re allText text 0 []) =
      map (fun o => {| anchor := Spec.coordinate allText o;
                       head := {| line := line (Spec.coordinate allText o);
                                  ch := ch (Spec.coordinate allText o)
                                        + length text |} |})
          (execIndices E fuel re allText 0))
  /\ (textToSelect Examples.three_lines = lit "ab"
      /\ exists a,
           handleSelectAllOccurrences RegExp.Fragment 4 false
             {| fields := initial; activeEditor := Some Examples.three_lines |}
           = Returns (true, a)
           /\ option_map listSelections (activeEditor a) =
              Some [ {| anchor := {| line := 0; ch := 0 |};
                        head := {| line := 0; ch := 2 |} |};
                     {| anchor := {| line := 1; ch := 1 |};
                        head := {| line := 1; ch := 3 |} |};
                     {| anchor := {| line := 2; ch := 0 |};
                        head := {| line := 2; ch := 2 |} |} ])
  /\ (getValue Examples.across_lines = lit "ab" ++ [NL] ++ lit "cd"
      /\ textToSelect Examples.across_lines = lit "b" ++ [NL] ++ lit "c"
      /\ Spec.literal_occurrences (getValue Examples.across_lines)
           (textToSelect Examples.across_lines) = [1%nat]
      /\ Spec.occurrence_range (getValue Examples.across_lines) 3 1
         = {| anchor := {| line := 0; ch := 1 |}; head := {| line := 1; ch := 1 |} |}
      /\ (exists re,
             RegExp.compile RegExp.Fragment (textToSelect Examples.across_lines)
             = Some re
             /\ whileExec RegExp.Fragment 6 re (getValue Examples.across_lines)
                  (textToSelect Examples.across_lines) 0 []
                = ([ {| anchor := {| line := 0; ch := 1 |};
                        head := {| line := 0; ch := 4 |} |} ], true))
      /\ exists a,
           handleSelectAllOccurrences RegExp.Fragment 6 false
             {| fields := initial; activeEditor := Some Examples.across_lines |}
           = Returns (true, a)
           /\ option_map listSelections (activeEditor a) =
              Some [ {| anchor := {| line := 0; ch := 1 |};
                        head := {| line := 0; ch := 2 |} |} ]
           /\ option_map getSelection (activeEditor a) = Some (lit "b")).
Proof.
  split; [|split].
  - intros. rewrite whileExec_selections. cbn [app]. apply map_ext.
    intros o. apply occurrence_start_line.
  - split; [reflexivity|]. eexists. split; reflexivity.
  - split; [reflexivity|split; [reflexivity|split; [reflexivity|]]].
    split; [reflexivity|split].
    + eexists. split; reflexivity.
    + eexists. split; [reflexivity|split; reflexivity].
Qed.

End SelectAllFacts.

(** ** The scan loop: when it ends and when it does not *)

Module ScanFacts.
Import JS Host Plugin.





(** The empty pattern matches the empty string at [lastIndex], and [exec]
    leaves [lastIndex] where it was. *)
Lemma exec_empty_pattern (allText : jsstring) :
  RegExp.exec RegExp.Fragment ([] : RegExp.pattern) allText 0 = (Some O, O).
Proof.
  unfold RegExp.exec. cbn [RegExp.find_match RegExp.Fragment skipn].
  destruct allText; reflexivity.
Qed.

Lemma whileExec_empty_pattern (allText text : jsstring) (fuel : nat)
      (sels : list Selection) :
  snd (whileExec RegExp.Fragment fuel ([] : RegExp.pattern) allText text 0 sels) = false
  /\ execIndices RegExp.Fragment fuel ([] : RegExp.pattern) allText 0 = repeat O fuel.
Proof.
  revert sels; induction fuel as [|fuel IH]; intros sels; [split; reflexivity|].
  cbn [whileExec execIndices]. rewrite exec_empty_pattern. cbn [repeat].
  destruct (IH (sels ++ [occurrence allText text (Z.of_nat 0)])) as [H1 H2].
  split; [exact H1 | now rewrite H2].
Qed.

(** An empty search text keeps the handler in its loop. *)
Lemma empty_text_unfinished (f : Fields) (e : Editor) (fuel : nat) :
  textToSelect e = [] ->
  handleSelectAllOccurrences RegExp.Fragment fuel false
    {| fields := f; activeEditor := Some e |} = Unfinished.
Proof.
  intro Hempty. unfold handleSelectAllOccurrences. cbn [activeEditor].
  rewrite Hempty. cbn [RegExp.compile RegExp.Fragment RegExp.parse].
  pose proof (whileExec_empty_pattern (getValue e) [] fuel []) as [H _].
  destruct (whileExec RegExp.Fragment fuel [] (getValue e) [] 0 []) as [sels b].
  simpl in H. subst b. reflexivity.
Qed.

(** C10, at the empty document with the cursor on its empty line, and at
    the line "a  b" with the cursor between the two spaces: the search text
    is empty, every [exec] answers a match at offset 0 and leaves the scan
    position at 0, and the handler has not returned after any number of
    iterations. *)
Theorem select_all_empty_text_never_returns :
  textToSelect Examples.empty_document = []
  /\ textToSelect Examples.between_spaces = []
  /\ (forall (allText : jsstring) (fuel : nat),
         execIndices RegExp.Fragment fuel ([] : RegExp.pattern) allText 0
         = repeat O fuel)
  /\ (forall fuel : nat,
         handleSelectAllOccurrences RegExp.Fragment fuel false
           {| fields := initial; activeEditor := Some Examples.empty_document |}
         = Unfinished)
  /\ (forall fuel : nat,
         handleSelectAllOccurrences RegExp.Fragment fuel false
           {| fields := initial; activeEditor := Some Examples.between_spaces |}
         = Unfinished).
Proof.
  split; [reflexivity|]. split; [reflexivity|]. split; [|split].
  - intros allText fuel. apply (whileExec_empty_pattern allText [] fuel []).
  - intro fuel. now apply empty_text_unfinished.
  - intro fuel. now apply empty_text_unfinished.
Qed.

(** C2, at the line "a.c abc" with "a.c" selected: the text occurs literally
    at offset 0 only, and the handler selects "abc" at offset 4 as well. *)
Theorem select_all_reads_text_as_pattern :
  textToSelect Examples.dotted = lit "a.c"
  /\ Spec.literal_occurrences (getValue Examples.dotted) (lit "a.c") = [O]
  /\ exists a,
       handleSelectAllOccurrences RegExp.Fragment 3 false
         {| fields := initial; activeEditor := Some Examples.dotted |}
       = Returns (true, a)
       /\ option_map listSelections (activeEditor a) =
          Some [ Examples.range 0 0 0 3; Examples.range 0 4 0 7 ].
Proof.
  split; [reflexivity|split; [reflexivity|]].
  eexists. split; reflexivity.
Qed.

End ScanFacts.

(** ** Toggle case *)

Module ToggleFacts.
Import JS Plugin CaseMapping.

Lemma join_empty_separator (pieces : list jsstring) : join [] pieces = List.concat pieces.
Proof.
  induction pieces as [|p rest IH]; [reflexivity|].
  destruct rest as [|q rest].
  - simpl. now rewrite app_nil_r.
  - change (join [] (p :: q :: rest)) with (p ++ [] ++ join [] (q :: rest)).
    rewrite IH. reflexivity.
Qed.

(** The transform works on each code unit by itself. *)
Lemma toggled_unitwise (s : jsstring) :
  toggled s = flat_map (fun c => toggleUnit [c]) s.
Proof.
  unfold toggled, split_units. rewrite join_empty_separator, map_map.
  now rewrite flat_map_concat_map.
Qed.

Lemma toggled_app (s t : jsstring) : toggled (s ++ t) = toggled s ++ toggled t.
Proof. rewrite !toggled_unitwise. apply flat_map_app. Qed.

Lemma str_eqb_eq (a b : jsstring) : str_eqb a b = true -> a = b.
Proof.
  revert b; induction a as [|x a IH]; intros [|y b] H; simpl in H;
    try discriminate; [reflexivity|].
  apply andb_prop in H as [H1 H2]. apply N.eqb_eq in H1. subst.
  now rewrite (IH b H2).
Qed.

Lemma latin1_round_trip (c : unit16) :
  (c < 256)%N -> Aux.one_way c = false -> Aux.round_trip c = true.
Proof.
  intros Hc Hway.
  assert (Hall : forallb (fun c => Aux.one_way c || Aux.round_trip c)
                         (map N.of_nat (seq 0 256)) = true)
    by (vm_compute; reflexivity).
  rewrite forallb_forall in Hall.
  assert (Hin : In c (map N.of_nat (seq 0 256))).
  { rewrite in_map_iff. exists (N.to_nat c). split; [lia|]. apply in_seq. lia. }
  apply Hall in Hin. now rewrite Hway in Hin.
Qed.

Lemma round_trip_unit (c : unit16) :
  Aux.round_trip c = true ->
  exists d, toggleUnit [c] = [d] /\ toggleUnit [d] = [c].
Proof.
  intro Hrt. unfold Aux.round_trip in Hrt.
  match type of Hrt with
  | match ?t with _ => _ end = _ => destruct t as [|d [|? ?]] eqn:Hd
  end; try discriminate.
  apply str_eqb_eq in Hrt. exists d. auto.
Qed.

Lemma toggled_unit (c : unit16) : toggled [c] = toggleUnit [c].
Proof. rewrite toggled_unitwise. simpl. now rewrite app_nil_r. Qed.

Lemma toggled_round_trip (s : jsstring) :
  Forall (fun c => Aux.round_trip c = true) s -> toggled (toggled s) = s.
Proof.
  induction 1 as [|c s Hc Hs IH]; [reflexivity|].
  change (c :: s) with ([c] ++ s). rewrite toggled_app, toggled_unit.
  destruct (round_trip_unit c Hc) as (d & Hd & Hback).
  now rewrite Hd, toggled_app, IH, toggled_unit, Hback.
Qed.

(** C8 as the specification states it fails: the sharp s becomes "SS",
    which becomes "ss". *)
Lemma toggle_case_not_involution :
  ~ (forall s : jsstring, toggled (toggled s) = s).
Proof.
  intro H. specialize (H [0xDF%N]). vm_compute in H. discriminate.
Qed.

(** C8, amended.  The transform maps each code unit that equals its own
    uppercase form to its lowercase form and every other code unit to its
    uppercase form; it leaves a caseless code unit as it is; and on text of
    Basic Latin and Latin-1 Supplement characters (code units below U+0100)
    other than U+00DF and U+00B5, so on all ASCII text, applying it twice
    gives the text back. *)
Theorem toggle_case_involution_latin1 :
  (forall s : jsstring,
      toggled s =
      flat_map (fun c => if str_eqb [c] (toUpperCase1 c)
                         then toLowerCase1 c else toUpperCase1 c) s)
  /\ (forall c : unit16,
         toUpperCase1 c = [c] -> toLowerCase1 c = [c] -> toggled [c] = [c])
  /\ (forall s : jsstring,
         Forall (fun c => (c < 256)%N /\ c <> 0xDF%N /\ c <> 0xB5%N) s ->
         toggled (toggled s) = s).
Proof.
  split; [|split].
  - intro s. rewrite toggled_unitwise. reflexivity.
  - intros c Hu Hl. rewrite toggled_unitwise. simpl.
    rewrite Hu, Hl, app_nil_r. now destruct (c =? c)%N.
  - intros s Hs. apply toggled_round_trip.
    eapply Forall_impl; [|exact Hs]. intros c (Hc & H1 & H2).
    apply latin1_round_trip; [exact Hc|].
    unfold Aux.one_way. apply orb_false_iff.
    split; apply N.eqb_neq; assumption.
Qed.

Lemma toggle_case_involution_latin1_witness :
  toUpperCase1 49%N = [49%N] /\ toLowerCase1 49%N = [49%N]
  /\ Forall (fun c => (c < 256)%N /\ c <> 0xDF%N /\ c <> 0xB5%N)
            (lit "Hello, World 42!")
  /\ toggled [49%N] = [49%N]
  /\ toggled (lit "Hello, World 42!") = lit "hELLO, wORLD 42!"
  /\ toggled (toggled (lit "Hello, World 42!")) = lit "Hello, World 42!".
Proof.
  assert (Hall : Forall (fun c => (c < 256)%N /\ c <> 0xDF%N /\ c <> 0xB5%N)
                        (lit "Hello, World 42!")).
  { repeat constructor; discriminate. }
  split; [reflexivity|]. split; [reflexivity|]. split; [exact Hall|].
  split; [apply (proj1 (proj2 toggle_case_involution_latin1) 49%N); reflexivity|].
  split; [reflexivity|].
  apply (proj2 (proj2 toggle_case_involution_latin1)). exact Hall.
Defined.

End ToggleFacts.

(** ** Facts about the host editor *)

Module HostFacts.
Import JS Host JSFacts.

Lemma getLine_nth (e : Editor) (n : Z) :
  0 <= n < lineCount e -> getLine e n = nth (Z.to_nat n) (lines e) [].
Proof.
  intros [H1 H2]. unfold getLine.
  destruct (Z.leb_spec 0 n); [|lia]. destruct (Z.ltb_spec n (lineCount e)); [|lia].
  reflexivity.
Qed.

Lemma clamp_inside (lo hi x : Z) : lo <= x <= hi -> clamp lo hi x = x.
Proof. unfold clamp. lia. Qed.

Lemma clipPos_valid (e : Editor) (p : Pos) : valid_pos e p -> clipPos e p = p.
Proof.
  intros [[H1 H2] H3]. unfold clipPos.
  destruct (Z.ltb_spec (line p) 0); [lia|].
  destruct (Z.leb_spec (lineCount e) (line p)); [lia|].
  rewrite clamp_inside by assumption. now destruct p.
Qed.

Lemma split_no_newline (s : jsstring) : ~ In NL s -> split NL s = [s].
Proof.
  induction s as [|c s IH]; intro H; [reflexivity|].
  simpl. destruct (N.eqb_spec c NL) as [->|Hc].
  - exfalso. apply H. now left.
  - rewrite IH; [reflexivity|]. intro Hin. apply H. now right.
Qed.

Lemma split_app_newline (s t : jsstring) :
  ~ In NL s -> split NL (s ++ NL :: t) = s :: split NL t.
Proof.
  induction s as [|c s IH]; intro H.
  - reflexivity.
  - simpl. destruct (N.eqb_spec c NL) as [->|Hc].
    + exfalso. apply H. now left.
    + rewrite IH; [reflexivity|]. intro Hin. apply H. now right.
Qed.

(** Splitting the joined lines gives the lines back. *)
Lemma split_join (ls : list jsstring) :
  ls <> [] -> Forall (fun l => ~ In NL l) ls -> split NL (join [NL] ls) = ls.
Proof.
  induction ls as [|l ls IH]; intros Hne Hall; [contradiction|].
  inversion Hall as [|? ? Hl Hls]; subst.
  destruct ls as [|l' ls].
  - simpl. now apply split_no_newline.
  - change (join [NL] (l :: l' :: ls)) with (l ++ NL :: join [NL] (l' :: ls)).
    rewrite split_app_newline by assumption.
    rewrite IH; [reflexivity|discriminate|assumption].
Qed.

Lemma nth_skipn_firstn {A} (l : list A) (d : A) (a n : nat) :
  (a + n <= List.length l)%nat ->
  map (fun k => nth (a + k) l d) (seq 0 n) = firstn n (skipn a l).
Proof.
  revert a l; induction n as [|n IH]; intros a l H; [reflexivity|].
  cbn [seq map]. rewrite <- seq_shift, map_map.
  destruct (skipn a l) as [|x r] eqn:Hs.
  - exfalso. apply (f_equal (@List.length A)) in Hs.
    rewrite length_skipn in Hs. simpl in Hs. lia.
  - cbn [firstn]. f_equal.
    + rewrite Nat.add_0_r. rewrite <- (firstn_skipn a l) at 1.
      rewrite Hs, app_nth2; rewrite length_firstn; [|lia].
      replace (a - Nat.min a (List.length l))%nat with O by lia. reflexivity.
    + assert (Hr : r = skipn (S a) l).
      { change (S a) with (1 + a)%nat. rewrite <- skipn_skipn, Hs. reflexivity. }
      rewrite Hr, <- (IH (S a) l) by lia.
      apply map_ext. intro k. f_equal. lia.
Qed.

(** The lines [a .. b] as a part of the list of lines. *)
Lemma lines_between_firstn_skipn (e : Editor) (a b : Z) :
  0 <= a -> a <= b -> b < lineCount e ->
  lines_between e a b =
  firstn (Z.to_nat (b - a + 1)) (skipn (Z.to_nat a) (lines e)).
Proof.
  intros Ha Hab Hb. unfold lines_between.
  rewrite <- (nth_skipn_firstn (lines e) [] (Z.to_nat a) (Z.to_nat (b - a + 1))).
  - apply map_ext_in. intros k Hk. apply in_seq in Hk.
    rewrite getLine_nth by (unfold lineCount in *; lia).
    f_equal. lia.
  - unfold lineCount in Hb. lia.
Qed.

Lemma lines_at (e : Editor) (b : Z) :
  0 <= b < lineCount e ->
  lines e = firstn (Z.to_nat b) (lines e) ++ getLine e b :: skipn (Z.to_nat b + 1) (lines e).
Proof.
  intro Hb. rewrite getLine_nth by assumption.
  unfold lineCount in Hb.
  rewrite <- (firstn_skipn (Z.to_nat b) (lines e)) at 1. f_equal.
  destruct (skipn (Z.to_nat b) (lines e)) as [|x r] eqn:Hs.
  - exfalso. apply (f_equal (@List.length jsstring)) in Hs.
    rewrite length_skipn in Hs. simpl in Hs. lia.
  - f_equal.
    + rewrite <- (firstn_skipn (Z.to_nat b) (lines e)) at 1.
      rewrite Hs, app_nth2; rewrite length_firstn; [|lia].
      replace (Z.to_nat b - Nat.min (Z.to_nat b) (List.length (lines e)))%nat
        with O by lia. reflexivity.
    + rewrite Nat.add_comm. rewrite <- skipn_skipn, Hs. reflexivity.
Qed.

Lemma wf_line (e : Editor) (n : Z) : wf_doc e -> ~ In NL (getLine e n).
Proof.
  intros [_ Hall]. unfold getLine.
  destruct ((0 <=? n) && (n <? lineCount e)); [|intros []].
  rewrite Forall_forall in Hall.
  destruct (nth_in_or_default (Z.to_nat n) (lines e) []) as [Hin | Heq].
  - now apply Hall.
  - rewrite Heq. intros [].
Qed.

End HostFacts.

(** ** Duplicate line down *)

Module DuplicateFacts.
Import JS Host Plugin JSFacts HostFacts.

Lemma firstn_succ_line (e : Editor) (b : Z) :
  0 <= b < lineCount e ->
  firstn (Z.to_nat b + 1) (lines e) = firstn (Z.to_nat b) (lines e) ++ [getLine e b].
Proof.
  intro Hb. rewrite (lines_at e b Hb) at 1.
  unfold lineCount in Hb.
  rewrite firstn_app, length_firstn.
  replace (Z.to_nat b + 1 - Nat.min (Z.to_nat b) (List.length (lines e)))%nat
    with 1%nat by lia.
  rewrite firstn_firstn. replace (Nat.min (Z.to_nat b + 1) (Z.to_nat b)) with (Z.to_nat b) by lia.
  reflexivity.
Qed.

Lemma firstn_whole (s : jsstring) : firstn (Z.to_nat (length s)) s = s.
Proof. unfold length. rewrite Nat2Z.id. apply firstn_all. Qed.

Lemma skipn_whole (s : jsstring) : skipn (Z.to_nat (length s)) s = [].
Proof. unfold length. rewrite Nat2Z.id. apply skipn_all. Qed.

Lemma end_of_line_valid (e : Editor) (b : Z) :
  0 <= b < lineCount e -> valid_pos e {| line := b; ch := length (getLine e b) |}.
Proof.
  intro Hb. split; cbn [line ch]; [assumption|].
  pose proof (length_nonneg (getLine e b)). lia.
Qed.

(** Inserting a newline and whole lines at the end of line [b] puts these
    lines between line [b] and the next one. *)
Lemma insert_lines_after (e : Editor) (b : Z) (copy : list jsstring) :
  wf_doc e -> 0 <= b < lineCount e ->
  copy <> [] -> Forall (fun l => ~ In NL l) copy ->
  lines (replaceRange ([NL] ++ join [NL] copy)
           {| line := b; ch := length (getLine e b) |} None e)
  = firstn (Z.to_nat b + 1) (lines e) ++ copy ++ skipn (Z.to_nat b + 1) (lines e).
Proof.
  intros Hwf Hb Hne Hcopy. unfold replaceRange.
  rewrite (clipPos_valid _ _ (end_of_line_valid e b Hb)). cbn [lines line ch].
  rewrite firstn_whole, skipn_whole, app_nil_r.
  change (getLine e b ++ [NL] ++ join [NL] copy)
    with (getLine e b ++ NL :: join [NL] copy).
  rewrite split_app_newline by (now apply wf_line).
  rewrite split_join by assumption.
  rewrite firstn_succ_line by assumption.
  rewrite <- app_assoc. reflexivity.
Qed.

Lemma lines_between_wf (e : Editor) (a b : Z) :
  wf_doc e -> Forall (fun l => ~ In NL l) (lines_between e a b).
Proof.
  intro Hwf. unfold lines_between. apply Forall_forall. intros l Hl.
  apply in_map_iff in Hl as (k & <- & _). now apply wf_line.
Qed.

Lemma lines_between_length (e : Editor) (a b : Z) :
  List.length (lines_between e a b) = Z.to_nat (b - a + 1).
Proof. unfold lines_between. now rewrite length_map, length_seq. Qed.

Lemma lines_between_not_nil (e : Editor) (a b : Z) :
  a <= b -> lines_between e a b <> [].
Proof.
  intros Hab H. apply (f_equal (@List.length jsstring)) in H.
  rewrite lines_between_length in H. simpl in H. lia.
Qed.

(** The lines of the document after the edit of one selection. *)
Lemma duplicateDownEntry_lines (e : Editor) (sel : Selection) :
  wf_doc e -> valid_selection e sel ->
  let a := Z.min (line (anchor sel)) (line (head sel)) in
  let b := Z.max (line (anchor sel)) (line (head sel)) in
  lines (fst (duplicateDownEntry e sel))
  = firstn (Z.to_nat b + 1) (lines e) ++ lines_between e a b
      ++ skipn (Z.to_nat b + 1) (lines e).
Proof.
  intros Hwf [[Ha _] [Hh _]] a b. unfold duplicateDownEntry. cbn [fst].
  fold a b. apply insert_lines_after; try assumption.
  - unfold b. lia.
  - apply lines_between_not_nil. unfold a, b. lia.
  - now apply lines_between_wf.
Qed.

(** Line [k] of a list of lines put together from three parts. *)
Lemma getLine_app3 (pre mid post : list jsstring) (sels : list Selection) (k : Z) :
  0 <= k < Z.of_nat (List.length pre + List.length mid + List.length post) ->
  getLine {| lines := pre ++ mid ++ post; selections := sels |} k =
  if k <? Z.of_nat (List.length pre) then nth (Z.to_nat k) pre []
  else if k <? Z.of_nat (List.length pre + List.length mid)
       then nth (Z.to_nat k - List.length pre) mid []
       else nth (Z.to_nat k - List.length pre - List.length mid) post [].
Proof.
  intro Hk. rewrite getLine_nth
    by (unfold lineCount; cbn [lines]; rewrite !length_app; lia).
  cbn [lines].
  destruct (Z.ltb_spec k (Z.of_nat (List.length pre))).
  - apply app_nth1. lia.
  - rewrite app_nth2 by lia.
    destruct (Z.ltb_spec k (Z.of_nat (List.length pre + List.length mid))).
    + apply app_nth1. lia.
    + rewrite app_nth2 by lia. reflexivity.
Qed.

Section OneSelection.

Variable e : Editor.
Variable sel : Selection.
Hypothesis Hwf : wf_doc e.
Hypothesis Hsel : valid_selection e sel.

Let a := Z.min (line (anchor sel)) (line (head sel)).
Let b := Z.max (line (anchor sel)) (line (head sel)).
Let pre := firstn (Z.to_nat b + 1) (lines e).
Let mid := lines_between e a b.
Let post := skipn (Z.to_nat b + 1) (lines e).

Lemma span_bounds : 0 <= a /\ a <= b /\ b < lineCount e.
Proof. destruct Hsel as [[Ha _] [Hh _]]. unfold a, b. lia. Qed.

Lemma pre_length : List.length pre = (Z.to_nat b + 1)%nat.
Proof.
  pose proof span_bounds as (H1 & H2 & H3). unfold lineCount in H3.
  unfold pre. rewrite length_firstn. lia.
Qed.

Lemma mid_length : List.length mid = Z.to_nat (b - a + 1).
Proof. apply lines_between_length. Qed.

Lemma entry_editor :
  fst (duplicateDownEntry e sel)
  = {| lines := pre ++ mid ++ post; selections := selections e |}.
Proof.
  pose proof (duplicateDownEntry_lines e sel Hwf Hsel) as H. cbv zeta in H.
  fold a b pre mid post in H. rewrite <- H. reflexivity.
Qed.

Lemma entry_lineCount :
  lineCount (fst (duplicateDownEntry e sel)) = lineCount e + (b - a + 1).
Proof.
  pose proof span_bounds as (H1 & H2 & H3).
  rewrite entry_editor. unfold lineCount in *. cbn [lines].
  rewrite !length_app, pre_length, mid_length.
  unfold post. rewrite length_skipn. lia.
Qed.

(** The end line is where it was, with the text it had. *)
Lemma entry_end_line : getLine (fst (duplicateDownEntry e sel)) b = getLine e b.
Proof.
  pose proof span_bounds as (H1 & H2 & H3).
  rewrite entry_editor, getLine_app3 by (rewrite pre_length; lia).
  rewrite pre_length.
  destruct (Z.ltb_spec b (Z.of_nat (Z.to_nat b + 1))); [|lia].
  unfold pre. rewrite nth_firstn.
  destruct (Nat.ltb_spec (Z.to_nat b) (Z.to_nat b + 1)); [|lia].
  now rewrite getLine_nth by lia.
Qed.

(** The last line of the copy is the end line again. *)
Lemma entry_copy_last_line :
  getLine (fst (duplicateDownEntry e sel)) (b + (b - a + 1)) = getLine e b.
Proof.
  pose proof span_bounds as (H1 & H2 & H3).
  rewrite entry_editor, getLine_app3 by (rewrite pre_length, mid_length; lia).
  rewrite pre_length, mid_length.
  destruct (Z.ltb_spec (b + (b - a + 1)) (Z.of_nat (Z.to_nat b + 1))); [lia|].
  destruct (Z.ltb_spec (b + (b - a + 1))
              (Z.of_nat (Z.to_nat b + 1 + Z.to_nat (b - a + 1)))); [|lia].
  unfold mid, lines_between.
  replace (Z.to_nat (b + (b - a + 1)) - (Z.to_nat b + 1))%nat
    with (Z.to_nat (b - a)) by lia.
  rewrite (nth_indep _ _ (getLine e (a + Z.of_nat 0)))
    by (rewrite length_map, length_seq; lia).
  rewrite (map_nth (fun k => getLine e (a + Z.of_nat k))), seq_nth by lia.
  f_equal. lia.
Qed.

(** The entry pushed on [newSelections], in terms of the document before
    the edit. *)
Lemma entry_selection : snd (duplicateDownEntry e sel) = Spec.duplicated_block e sel.
Proof.
  unfold duplicateDownEntry, Spec.duplicated_block. cbn [snd]. fold a b.
  change (replaceRange ([NL] ++ join [NL] (lines_between e a b))
            {| line := b; ch := length (getLine e b) |} None e)
    with (fst (duplicateDownEntry e sel)).
  now rewrite entry_end_line.
Qed.

(** Deleting the copy gives the lines of the document back. *)
Lemma entry_deleted :
  lines (Spec.delete_lines_after (fst (duplicateDownEntry e sel)) b (b - a + 1))
  = lines e.
Proof.
  pose proof span_bounds as (H1 & H2 & H3).
  pose proof entry_lineCount as Hcount.
  unfold Spec.delete_lines_after, replaceRange.
  rewrite entry_end_line, entry_copy_last_line.
  rewrite !clipPos_valid.
  2:{ split; cbn [line ch]; [lia|]. rewrite entry_copy_last_line.
      pose proof (length_nonneg (getLine e b)). lia. }
  2:{ split; cbn [line ch]; [lia|]. rewrite entry_end_line.
      pose proof (length_nonneg (getLine e b)). lia. }
  cbn [lines line ch]. rewrite entry_end_line, entry_copy_last_line.
  rewrite firstn_whole, skipn_whole. cbn [app]. rewrite app_nil_r.
  rewrite split_no_newline by (now apply wf_line).
  rewrite entry_editor. cbn [lines].
  rewrite firstn_app, pre_length.
  replace (Z.to_nat b - (Z.to_nat b + 1))%nat with O by lia.
  cbn [firstn]. rewrite app_nil_r.
  unfold pre at 1. rewrite firstn_firstn.
  replace (Nat.min (Z.to_nat b) (Z.to_nat b + 1)) with (Z.to_nat b) by lia.
  rewrite skipn_app, pre_length.
  rewrite (skipn_all2 pre) by (rewrite pre_length; lia).
  rewrite skipn_app, mid_length.
  rewrite (skipn_all2 mid) by (rewrite mid_length; lia).
  replace (Z.to_nat (b + (b - a + 1)) + 1 - (Z.to_nat b + 1) - Z.to_nat (b - a + 1))%nat
    with O by lia.
  cbn [skipn app]. unfold post.
  symmetry. apply lines_at. lia.
Qed.

(** The first line of the copy is the start line. *)
Lemma entry_copy_first_line :
  getLine (fst (duplicateDownEntry e sel)) (b + 1) = getLine e a.
Proof.
  pose proof span_bounds as (H1 & H2 & H3).
  rewrite entry_editor, getLine_app3 by (rewrite pre_length, mid_length; lia).
  rewrite pre_length, mid_length.
  destruct (Z.ltb_spec (b + 1) (Z.of_nat (Z.to_nat b + 1))); [lia|].
  destruct (Z.ltb_spec (b + 1)
              (Z.of_nat (Z.to_nat b + 1 + Z.to_nat (b - a + 1)))); [|lia].
  unfold mid, lines_between.
  replace (Z.to_nat (b + 1) - (Z.to_nat b + 1))%nat with O by lia.
  rewrite (nth_indep _ _ (getLine e (a + Z.of_nat 0)))
    by (rewrite length_map, length_seq; lia).
  rewrite (map_nth (fun k => getLine e (a + Z.of_nat k))), seq_nth by lia.
  f_equal. lia.
Qed.

(** The new selection lies inside the document after the edit. *)
Lemma entry_selection_valid :
  valid_selection (fst (duplicateDownEntry e sel)) (Spec.duplicated_block e sel).
Proof.
  pose proof span_bounds as (H1 & H2 & H3).
  pose proof entry_lineCount as Hcount.
  destruct Hsel as [[Ha1 Ha2] [Hh1 Hh2]].
  unfold Spec.duplicated_block. fold a b.
  split; split; cbn [anchor head line ch]; try lia.
  - rewrite entry_copy_first_line.
    destruct (Z.eqb_spec (line (anchor sel)) a) as [Heq|Hne].
    + rewrite <- Heq. assumption.
    + pose proof (length_nonneg (getLine e a)). lia.
  - rewrite entry_copy_last_line.
    destruct (Z.eqb_spec (line (head sel)) b) as [Heq|Hne].
    + rewrite <- Heq. assumption.
    + pose proof (length_nonneg (getLine e b)). lia.
Qed.

End OneSelection.

Lemma join_app (sep : jsstring) (l1 l2 : list jsstring) :
  l1 <> [] -> l2 <> [] -> join sep (l1 ++ l2) = join sep l1 ++ sep ++ join sep l2.
Proof.
  induction l1 as [|x l1 IH]; intros H1 H2; [contradiction|].
  destruct l1 as [|y l1].
  - destruct l2 as [|z l2]; [contradiction|]. reflexivity.
  - change (join sep ((x :: y :: l1) ++ l2))
      with (x ++ sep ++ join sep ((y :: l1) ++ l2)).
    rewrite IH by (assumption || discriminate).
    change (join sep (x :: y :: l1)) with (x ++ sep ++ join sep (y :: l1)).
    now rewrite <- !app_assoc.
Qed.

(** In the flat text the edit puts a newline and the joined lines right
    behind line [b]; the text before and the text behind stay. *)
Lemma entry_value (e : Editor) (sel : Selection) :
  wf_doc e -> valid_selection e sel ->
  let a := Z.min (line (anchor sel)) (line (head sel)) in
  let b := Z.max (line (anchor sel)) (line (head sel)) in
  let upto := join [NL] (firstn (Z.to_nat b + 1) (lines e)) in
  exists rest,
    getValue e = upto ++ rest
    /\ getValue (fst (duplicateDownEntry e sel))
       = upto ++ ([NL] ++ join [NL] (lines_between e a b)) ++ rest.
Proof.
  intros Hwf Hsel a b upto.
  pose proof (span_bounds e sel Hsel) as (H1 & H2 & H3). fold a b in H1, H2, H3.
  rewrite (entry_editor e sel Hwf Hsel). fold a b. unfold getValue. cbn [lines].
  assert (Hpre : firstn (Z.to_nat b + 1) (lines e) <> []).
  { intro H. apply (f_equal (@List.length jsstring)) in H.
    rewrite length_firstn in H. unfold lineCount in H3. simpl in H. lia. }
  assert (Hmid : lines_between e a b <> []) by (now apply lines_between_not_nil).
  assert (HL : lines e = firstn (Z.to_nat b + 1) (lines e)
                         ++ skipn (Z.to_nat b + 1) (lines e))
    by (symmetry; apply firstn_skipn).
  destruct (skipn (Z.to_nat b + 1) (lines e)) as [|p post].
  - exists []. rewrite !app_nil_r in *. split.
    + unfold upto. now rewrite <- HL.
    + rewrite join_app by assumption. reflexivity.
  - exists ([NL] ++ join [NL] (p :: post)). split.
    + rewrite HL at 1. rewrite join_app by (assumption || discriminate). reflexivity.
    + rewrite join_app by (assumption || (destruct (lines_between e a b); discriminate)).
      rewrite join_app by (assumption || discriminate).
      unfold upto. now rewrite <- !app_assoc.
Qed.

Lemma setSelections_lines (ranges : list Selection) (e : Editor) :
  lines (setSelections ranges e) = lines e.
Proof. destruct ranges; reflexivity. Qed.

Lemma clipSelection_valid (e : Editor) (s : Selection) :
  valid_selection e s -> clipSelection e s = s.
Proof.
  intros [Ha Hh]. unfold clipSelection.
  rewrite !clipPos_valid by assumption. now destruct s.
Qed.

(** What the handler leaves behind when there is one selection. *)
Lemma handler_one_selection (f : Fields) (e : Editor) (sel : Selection) :
  wf_doc e -> valid_selection e sel -> selections e = [sel] ->
  snd (handleDuplicateLineDown false {| fields := f; activeEditor := Some e |})
  = {| fields := f;
       activeEditor :=
         Some {| lines := lines (fst (duplicateDownEntry e sel));
                 selections := [Spec.duplicated_block e sel] |} |}.
Proof.
  intros Hwf Hsel Hone.
  unfold handleDuplicateLineDown, listSelections. cbn [activeEditor fields].
  rewrite Hone. cbn [duplicateDownAll].
  pose proof (entry_selection e sel Hwf Hsel) as Hentry.
  pose proof (entry_selection_valid e sel Hwf Hsel) as Hvalid.
  destruct (duplicateDownEntry e sel) as [e1 entry]. cbn [fst snd app] in *.
  subst entry. unfold setSelections. cbn [map snd].
  now rewrite clipSelection_valid.
Qed.

(** The edit for a selection that lies on one line. *)
Lemma one_line_entry (e : Editor) (sel : Selection) :
  line (anchor sel) = line (head sel) ->
  fst (duplicateDownEntry e sel)
  = replaceRange ([NL] ++ getLine e (line (head sel)))
      {| line := line (head sel); ch := length (getLine e (line (head sel))) |} None e.
Proof.
  intro Hsame. unfold duplicateDownEntry. cbn [fst]. rewrite Hsame.
  rewrite Z.min_id, Z.max_id. unfold lines_between.
  rewrite Z.sub_diag. change (Z.to_nat (0 + 1)) with 1%nat.
  cbn [seq map join]. change (Z.of_nat 0) with 0. now rewrite Z.add_0_r.
Qed.

(** The try-guarded handler, when no host call raises: it makes the edit of
    a selection that lies on the cursor's line. *)
Lemma guarded_edit (e : Editor) (console : list jsstring) :
  TryGuarded.handleDuplicateLineDown TryGuarded.no_fault false
    {| TryGuarded.editor := Some e; TryGuarded.console := console |}
  = (TryGuarded.Value true,
     {| TryGuarded.editor :=
          Some (setCursor {| line := line (getCursor e) + 1; ch := ch (getCursor e) |}
                  (replaceRange ([NL] ++ getLine e (line (getCursor e)))
                     {| line := line (getCursor e);
                        ch := length (getLine e (line (getCursor e))) |} None e));
        TryGuarded.console := console |}).
Proof. reflexivity. Qed.

Lemma guarded_lines (e : Editor) (sel : Selection) (console : list jsstring) :
  selections e = [sel] -> line (anchor sel) = line (head sel) ->
  option_map lines
    (TryGuarded.editor
       (snd (TryGuarded.handleDuplicateLineDown TryGuarded.no_fault false
               {| TryGuarded.editor := Some e; TryGuarded.console := console |})))
  = Some (lines (fst (duplicateDownEntry e sel))).
Proof.
  intros Hone Hsame. rewrite guarded_edit. cbn [snd TryGuarded.editor option_map].
  rewrite one_line_entry by assumption.
  assert (Hcur : getCursor e = head sel).
  { unfold getCursor, primary. now rewrite Hone. }
  rewrite Hcur. unfold setCursor, setSelection. now rewrite setSelections_lines.
Qed.

End DuplicateFacts.

Module DuplicateClaims.
Import JS Host Plugin JSFacts HostFacts DuplicateFacts Aux.

(** C4 as the specification states it fails: for the backward selection
    from {1,1} to {0,1} over "ab", "cde" the head of the new selection is at
    column 3, the length of "cde", and not at column 0. *)
Lemma duplicate_down_end_column_not_zero :
  snd (duplicateDownEntry Examples.two_lines (Examples.range 1 1 0 1))
  <> Spec.duplicated_selection (Examples.range 1 1 0 1).
Proof. intro H. vm_compute in H. discriminate. Qed.

(** C4, amended.  For a selection inside the document, with startLine and
    endLine the smaller and the larger of its two lines, the new selection
    goes from line endLine+1 to line endLine+lineCount; its start column is
    the anchor's column when the anchor was on startLine and 0 otherwise;
    its end column is the head's column when the head was on endLine and
    the length of line endLine otherwise.  With one selection in the editor
    this is the selection set the handler installs. *)
Theorem duplicate_down_new_selection (f : Fields) (e : Editor) (sel : Selection) :
  wf_doc e -> valid_selection e sel ->
  let startLine := Z.min (line (anchor sel)) (line (head sel)) in
  let endLine := Z.max (line (anchor sel)) (line (head sel)) in
  let lineCount := endLine - startLine + 1 in
  let new :=
    {| anchor := {| line := endLine + 1;
                    ch := if line (anchor sel) =? startLine
                          then ch (anchor sel) else 0 |};
       head := {| line := endLine + lineCount;
                  ch := if line (head sel) =? endLine
                        then ch (head sel) else length (getLine e endLine) |} |} in
  snd (duplicateDownEntry e sel) = new
  /\ (selections e = [sel] ->
      option_map listSelections
        (activeEditor
           (snd (handleDuplicateLineDown false {| fields := f; activeEditor := Some e |})))
      = Some [new]).
Proof.
  intros Hwf Hsel startLine endLine lineCount new. split.
  - now rewrite (entry_selection e sel Hwf Hsel).
  - intro Hone. now rewrite (handler_one_selection f e sel Hwf Hsel Hone).
Qed.

Lemma duplicate_down_new_selection_witness :
  wf_doc Examples.two_lines
  /\ valid_selection Examples.two_lines (Examples.range 1 1 0 1)
  /\ option_map listSelections
       (activeEditor
          (snd (handleDuplicateLineDown false
                  {| fields := initial; activeEditor := Some Examples.two_lines |})))
     = Some [ Examples.range 2 0 3 3 ].
Proof.
  assert (Hwf : wf_doc Examples.two_lines) by wf_example.
  assert (Hsel : valid_selection Examples.two_lines (Examples.range 1 1 0 1))
    by valid_example.
  split; [exact Hwf|split; [exact Hsel|]].
  exact (proj2 (duplicate_down_new_selection initial Examples.two_lines
                  (Examples.range 1 1 0 1) Hwf Hsel) eq_refl).
Defined.

(** C7.  With one selection over the lines a..b of a document, the handler
    changes the document in one place: behind line b it puts the lines a..b
    once more, which in the flat text is a newline followed by these lines
    joined, right behind the end of line b; deleting the b-a+1 lines after
    line b, together with the newline that ends line b, gives the original
    document back.  The try-guarded version of the handler, which duplicates
    the cursor's line, makes the same edit when a = b. *)
Theorem duplicate_down_round_trip (f : Fields) (e : Editor) (sel : Selection) :
  wf_doc e -> valid_selection e sel -> selections e = [sel] ->
  let a := Z.min (line (anchor sel)) (line (head sel)) in
  let b := Z.max (line (anchor sel)) (line (head sel)) in
  exists e1,
    snd (handleDuplicateLineDown false {| fields := f; activeEditor := Some e |})
    = {| fields := f; activeEditor := Some e1 |}
    /\ lines e1 = firstn (Z.to_nat b + 1) (lines e) ++ lines_between e a b
                    ++ skipn (Z.to_nat b + 1) (lines e)
    /\ (exists rest,
           getValue e = join [NL] (firstn (Z.to_nat b + 1) (lines e)) ++ rest
           /\ getValue e1 = join [NL] (firstn (Z.to_nat b + 1) (lines e))
                              ++ ([NL] ++ join [NL] (lines_between e a b)) ++ rest)
    /\ lines (Spec.delete_lines_after e1 b (b - a + 1)) = lines e
    /\ getValue (Spec.delete_lines_after e1 b (b - a + 1)) = getValue e
    /\ (a = b ->
        forall console : list jsstring,
          option_map lines
            (TryGuarded.editor
               (snd (TryGuarded.handleDuplicateLineDown TryGuarded.no_fault false
                       {| TryGuarded.editor := Some e;
                          TryGuarded.console := console |})))
          = Some (lines e1)).
Proof.
  intros Hwf Hsel Hone a b.
  rewrite (handler_one_selection f e sel Hwf Hsel Hone).
  eexists. split; [reflexivity|].
  pose proof (entry_deleted e sel Hwf Hsel) as Hdel. fold a b in Hdel.
  cbn [lines]. split; [|split; [|split; [|split]]].
  - apply (duplicateDownEntry_lines e sel Hwf Hsel).
  - apply (entry_value e sel Hwf Hsel).
  - exact Hdel.
  - unfold getValue. f_equal. exact Hdel.
  - intros Hab console. apply guarded_lines; [exact Hone|]. unfold a, b in Hab. lia.
Qed.

Lemma duplicate_down_round_trip_witness :
  wf_doc Examples.two_lines
  /\ valid_selection Examples.two_lines (Examples.range 1 1 0 1)
  /\ exists e1,
       snd (handleDuplicateLineDown false
              {| fields := initial; activeEditor := Some Examples.two_lines |})
       = {| fields := initial; activeEditor := Some e1 |}
       /\ lines e1 = [lit "ab"; lit "cde"; lit "ab"; lit "cde"]
       /\ lines (Spec.delete_lines_after e1 1 2) = [lit "ab"; lit "cde"].
Proof.
  assert (Hwf : wf_doc Examples.two_lines) by wf_example.
  assert (Hsel : valid_selection Examples.two_lines (Examples.range 1 1 0 1))
    by valid_example.
  split; [exact Hwf|split; [exact Hsel|]].
  destruct (duplicate_down_round_trip initial Examples.two_lines
              (Examples.range 1 1 0 1) Hwf Hsel eq_refl)
    as (e1 & H1 & H2 & _ & H4 & _ & _).
  exists e1. split; [exact H1|split; [exact H2|exact H4]].
Defined.

End DuplicateClaims.

(** ** Insert cursor below, insert cursor above *)

Module CursorFacts.
Import JS Host Plugin JSFacts HostFacts DuplicateFacts.

Lemma cursorsBelow_filter (e : Editor) (sels : list Selection) :
  Forall (valid_selection e) sels ->
  cursorsBelow e sels
  = map (fun s => head (Spec.adjacent_cursor e 1 s))
        (filter (Spec.adjacent_exists e 1) sels).
Proof.
  induction 1 as [|s sels [[Hs _] _] _ IH]; [reflexivity|].
  cbn [cursorsBelow flat_map filter] in *. fold (cursorsBelow e sels). rewrite IH.
  unfold Spec.adjacent_exists at 2.
  destruct (Z.leb_spec 0 (line (anchor s) + 1)); [|lia].
  destruct (line (anchor s) + 1 <? lineCount e); reflexivity.
Qed.

Lemma cursorsAbove_filter (e : Editor) (sels : list Selection) :
  Forall (valid_selection e) sels ->
  cursorsAbove e sels
  = map (fun s => head (Spec.adjacent_cursor e (-1) s))
        (filter (Spec.adjacent_exists e (-1)) sels).
Proof.
  induction 1 as [|s sels [[Hs _] _] _ IH]; [reflexivity|].
  cbn [cursorsAbove flat_map filter] in *. fold (cursorsAbove e sels). rewrite IH.
  unfold Spec.adjacent_exists at 2.
  change (line (anchor s) + -1) with (line (anchor s) - 1).
  destruct (Z.ltb_spec (line (anchor s) - 1) (lineCount e)); [|lia].
  rewrite andb_true_r.
  destruct (0 <=? line (anchor s) - 1); reflexivity.
Qed.

(** Each cursor of the fan-out lies inside the document. *)
Lemma fan_out_valid (e : Editor) (delta : Z) :
  Forall (valid_selection e) (selections e) ->
  Forall (valid_selection e) (Spec.fan_out e delta).
Proof.
  intro Hall. unfold Spec.fan_out. apply Forall_app. split.
  - apply Forall_map. eapply Forall_impl; [|exact Hall].
    intros s [Ha _]. split; exact Ha.
  - apply Forall_map. apply Forall_forall. intros s Hs.
    apply filter_In in Hs as [Hin Hadj].
    rewrite Forall_forall in Hall. destruct (Hall s Hin) as [[_ Hch] _].
    unfold Spec.adjacent_exists in Hadj. apply andb_prop in Hadj as [H1 H2].
    apply Z.leb_le in H1. apply Z.ltb_lt in H2.
    pose proof (length_nonneg (getLine e (line (anchor s) + delta))).
    split; (split; cbn [Spec.adjacent_cursor anchor head line ch]; lia).
Qed.

Lemma setSelections_valid (e : Editor) (ranges : list Selection) :
  Forall (valid_selection e) ranges ->
  selections e = [] \/ ranges <> [] ->
  listSelections (setSelections ranges e) = ranges.
Proof.
  intros Hall Hne. destruct ranges as [|r ranges].
  - destruct Hne as [He|Hne]; [exact He|contradiction].
  - unfold setSelections, listSelections. cbn [selections].
    rewrite <- (map_id (r :: ranges)) at 2.
    apply map_ext_in. intros s Hs. apply clipSelection_valid.
    rewrite Forall_forall in Hall. now apply Hall.
Qed.

Lemma fan_out_nil (e : Editor) (delta : Z) :
  selections e = [] \/ Spec.fan_out e delta <> [].
Proof.
  unfold Spec.fan_out. destruct (selections e); [now left|right; discriminate].
Qed.

(** C5.  When the selections the host answers lie inside the document, the
    selection set insert-cursor-below hands to the editor holds every
    selection's anchor as a collapsed selection, in order, followed, in
    order, by one collapsed selection for each selection whose line below
    exists, on that line at the anchor's column cut to the length of that
    line, and nothing for a selection whose line below does not exist;
    insert-cursor-above does the same with the line above; every selection
    handed over lies inside the document; and a cursor at column 5 of a
    line of length 10 above a line of length 3 gains a cursor at column 3
    of that line. *)
Theorem insert_cursor_fan_out (f : Fields) (e : Editor) :
  Forall (valid_selection e) (selections e) ->
  selectionsBelow e = Spec.fan_out e 1
  /\ selectionsAbove e = Spec.fan_out e (-1)
  /\ handleInsertCursorBelow false {| fields := f; activeEditor := Some e |}
     = (true, {| fields := f;
                 activeEditor := Some (setSelections (Spec.fan_out e 1) e) |})
  /\ handleInsertCursorAbove false {| fields := f; activeEditor := Some e |}
     = (true, {| fields := f;
                 activeEditor := Some (setSelections (Spec.fan_out e (-1)) e) |})
  /\ Forall (valid_selection e) (Spec.fan_out e 1)
  /\ Forall (valid_selection e) (Spec.fan_out e (-1))
  /\ selectionsBelow Examples.ten_and_three
     = [ {| anchor := {| line := 0; ch := 5 |}; head := {| line := 0; ch := 5 |} |};
         {| anchor := {| line := 1; ch := 3 |}; head := {| line := 1; ch := 3 |} |} ].
Proof.
  intro Hall.
  assert (Hbelow : selectionsBelow e = Spec.fan_out e 1).
  { unfold selectionsBelow, newCursorsBelow, Spec.fan_out, listSelections.
    rewrite map_app, cursorsBelow_filter, !map_map by assumption. reflexivity. }
  assert (Habove : selectionsAbove e = Spec.fan_out e (-1)).
  { unfold selectionsAbove, newCursorsAbove, Spec.fan_out, listSelections.
    rewrite map_app, cursorsAbove_filter, !map_map by assumption. reflexivity. }
  split; [exact Hbelow|split; [exact Habove|]].
  split; [cbn [handleInsertCursorBelow activeEditor fields]; now rewrite Hbelow|].
  split; [cbn [handleInsertCursorAbove activeEditor fields]; now rewrite Habove|].
  split; [now apply fan_out_valid|split; [now apply fan_out_valid|reflexivity]].
Qed.

Lemma insert_cursor_fan_out_witness :
  Forall (valid_selection Examples.two_lines) (selections Examples.two_lines)
  /\ selectionsBelow Examples.two_lines
     = [ {| anchor := {| line := 1; ch := 1 |}; head := {| line := 1; ch := 1 |} |} ]
  /\ selectionsAbove Examples.two_lines
     = [ {| anchor := {| line := 1; ch := 1 |}; head := {| line := 1; ch := 1 |} |};
         {| anchor := {| line := 0; ch := 1 |}; head := {| line := 0; ch := 1 |} |} ].
Proof.
  assert (Hall : Forall (valid_selection Examples.two_lines)
                        (selections Examples.two_lines)).
  { constructor; [|constructor]. repeat split; cbn; try lia; vm_compute; discriminate. }
  split; [exact Hall|].
  destruct (insert_cursor_fan_out initial Examples.two_lines Hall) as (H1 & H2 & _).
  split; [exact H1|exact H2].
Defined.

End CursorFacts.

(** ** Select line *)

Module SelectLineFacts.
Import JS Host Plugin JSFacts HostFacts DuplicateFacts.

Section Run.

Variable e : Editor.
Variable startLine : Z.
Hypothesis Hstart : 0 <= startLine < lineCount e.

Local Abbreviation grown := (Aux.grown e startLine).
Local Abbreviation editor_after := (Aux.editor_after e startLine).
Local Abbreviation after := (Aux.after_select_line e startLine).

Lemma clipPos_line_start (l : Z) :
  0 <= l < lineCount e -> clipPos e {| line := l; ch := 0 |} = {| line := l; ch := 0 |}.
Proof.
  intro Hl. apply clipPos_valid. split; cbn [line ch]; [assumption|].
  pose proof (length_nonneg (getLine e l)). lia.
Qed.

Lemma clipPos_same_lines (e1 : Editor) (p : Pos) :
  lines e1 = lines e -> clipPos e1 p = clipPos e p.
Proof.
  intro H. unfold clipPos, lineCount, getLine, lineCount. now rewrite H.
Qed.

Lemma setSelection_after (e1 : Editor) (j : Z) :
  lines e1 = lines e ->
  setSelection {| line := startLine; ch := 0 |} {| line := startLine + j; ch := 0 |} e1
  = editor_after j.
Proof.
  intro H. unfold setSelection, setSelections, Aux.editor_after, Aux.grown, clipSelection.
  cbn [map anchor head]. rewrite !(clipPos_same_lines e1) by assumption.
  rewrite clipPos_line_start by assumption. now rewrite H.
Qed.

(** When the grown selection is empty the start line is the last line, and
    the head stays where it is however far it is asked to go. *)
Lemma grown_empty (j i : Z) :
  1 <= j -> 1 <= i ->
  pos_eqb (anchor (grown j)) (head (grown j)) = true ->
  grown i = grown j.
Proof.
  intros Hj Hi Heq. unfold Aux.grown in *. cbn [anchor head] in Heq. f_equal.
  unfold clipPos in *. cbn [line ch] in *.
  destruct (Z.ltb_spec (startLine + j) 0); [lia|].
  destruct (Z.ltb_spec (startLine + i) 0); [lia|].
  destruct (Z.leb_spec (lineCount e) (startLine + j)).
  - destruct (Z.leb_spec (lineCount e) (startLine + i)); [reflexivity|].
    unfold pos_eqb in Heq. cbn [line ch] in Heq.
    apply andb_prop in Heq as [Hl _]. apply Z.eqb_eq in Hl. lia.
  - unfold pos_eqb in Heq. cbn [line ch] in Heq.
    apply andb_prop in Heq as [Hl _]. apply Z.eqb_eq in Hl. lia.
Qed.

Lemma first_invocation (f : Fields) (c : Z) :
  selections e = [caret {| line := startLine; ch := c |}] ->
  after 1 (snd (handleSelectLine false {| fields := f; activeEditor := Some e |})).
Proof.
  intro Hsel. unfold Aux.after_select_line.
  unfold handleSelectLine. cbn [activeEditor fields snd].
  assert (Hnone : somethingSelected e = false).
  { unfold somethingSelected. rewrite Hsel. cbn. unfold pos_eqb. cbn.
    now rewrite !Z.eqb_refl. }
  assert (Hcur : line (getCursor e) = startLine).
  { unfold getCursor, primary. now rewrite Hsel. }
  rewrite Hnone, Hcur. cbn [negb selectLineCount lastSelectedLine lastSelectedWord].
  change (0 =? 0) with true. cbv iota.
  rewrite setSelection_after by reflexivity.
  repeat split. now left.
Qed.

Lemma next_invocation (j : Z) (a : App) :
  1 <= j -> after j a -> after (j + 1) (snd (handleSelectLine false a)).
Proof.
  unfold Aux.after_select_line.
  intros Hj (Hed & Hlast & Hcount). destruct a as [f ed]. cbn [activeEditor fields] in *.
  subst ed. unfold handleSelectLine. cbn [activeEditor fields snd].
  destruct (somethingSelected (editor_after j)) eqn:Hsome.
  - destruct Hcount as [Hcount|Hcount]; [|discriminate].
    cbn [negb]. rewrite Hcount, Hlast.
    destruct (Z.eqb_spec j 0) as [H0|_]; [lia|].
    rewrite <- Z.add_assoc, setSelection_after by reflexivity.
    repeat split; cbn [fields activeEditor lastSelectedLine selectLineCount];
      try reflexivity. now left.
  - cbn [negb selectLineCount lastSelectedLine].
    change (0 =? 0) with true. cbv iota.
    assert (Hempty : pos_eqb (anchor (grown j)) (head (grown j)) = true).
    { unfold somethingSelected, Aux.editor_after in Hsome. cbn [selections existsb] in Hsome.
      rewrite orb_false_r in Hsome. now apply negb_false_iff in Hsome. }
    assert (Hcur : line (getCursor (editor_after j)) = startLine).
    { unfold getCursor, primary, Aux.editor_after. cbn [selections last].
      unfold pos_eqb in Hempty. apply andb_prop in Hempty as [Hl _].
      apply Z.eqb_eq in Hl. cbn [anchor line] in Hl. now rewrite <- Hl. }
    rewrite Hcur, setSelection_after by reflexivity.
    assert (Hsame : editor_after 1 = editor_after (j + 1)).
    { unfold Aux.editor_after. f_equal. f_equal.
      rewrite (grown_empty j 1), (grown_empty j (j + 1)) by (assumption || lia).
      reflexivity. }
    rewrite Hsame.
    repeat split; cbn [fields activeEditor lastSelectedLine selectLineCount];
      try reflexivity.
    right. rewrite <- Hsame. unfold somethingSelected, Aux.editor_after.
    cbn [selections existsb]. rewrite (grown_empty j 1) by (assumption || lia).
    now rewrite Hempty.
Qed.

Lemma after_invocations (f : Fields) (c : Z) (k : nat) :
  selections e = [caret {| line := startLine; ch := c |}] ->
  after (Z.of_nat (S k))
        (selectLineTimes (S k) {| fields := f; activeEditor := Some e |}).
Proof.
  intro Hsel. induction k as [|k IH].
  - now apply (first_invocation f c).
  - change (selectLineTimes (S (S k)) {| fields := f; activeEditor := Some e |})
      with (snd (handleSelectLine false
                   (selectLineTimes (S k) {| fields := f; activeEditor := Some e |}))).
    replace (Z.of_nat (S (S k))) with (Z.of_nat (S k) + 1) by lia.
    apply next_invocation; [lia|exact IH].
Qed.

(** The grown selection covers the full lines that are there. *)
Lemma grown_full_lines (j : Z) :
  0 <= j -> grown j = Spec.full_lines e startLine (Z.min j (lineCount e - startLine)).
Proof.
  intro Hj. unfold Aux.grown, Spec.full_lines, Spec.end_of_lines. f_equal.
  unfold clipPos. cbn [line ch].
  destruct (Z.ltb_spec (startLine + j) 0); [lia|].
  destruct (Z.leb_spec (lineCount e) (startLine + j)).
  - rewrite Z.min_r by lia.
    destruct (Z.ltb_spec (startLine + (lineCount e - startLine)) (lineCount e)); [lia|].
    reflexivity.
  - rewrite Z.min_l by lia.
    destruct (Z.ltb_spec (startLine + j) (lineCount e)); [|lia].
    f_equal. apply clamp_inside.
    pose proof (length_nonneg (getLine e (startLine + j))). lia.
Qed.

Lemma lines_between_cons (a b : Z) :
  a <= b -> lines_between e a b = getLine e a :: lines_between e (a + 1) b.
Proof.
  intro Hab. unfold lines_between.
  replace (Z.to_nat (b - a + 1)) with (S (Z.to_nat (b - (a + 1) + 1))) by lia.
  cbn [seq map]. f_equal; [f_equal; lia|].
  rewrite <- seq_shift, map_map. apply map_ext. intro i. f_equal. lia.
Qed.

Lemma lines_between_snoc (a b : Z) :
  a <= b + 1 -> lines_between e a (b + 1) = lines_between e a b ++ [getLine e (b + 1)].
Proof.
  intro Hab. unfold lines_between.
  replace (Z.to_nat (b + 1 - a + 1)) with (Z.to_nat (b - a + 1) + 1)%nat by lia.
  rewrite seq_app, map_app. cbn [seq map]. f_equal. f_equal. f_equal. lia.
Qed.

Lemma lines_between_empty (a b : Z) : b < a -> lines_between e a b = [].
Proof.
  intro H. unfold lines_between.
  replace (Z.to_nat (b - a + 1)) with O by lia. reflexivity.
Qed.

Lemma join_lines_and_empty (ls : list jsstring) :
  ls <> [] -> join [NL] (ls ++ [[]]) = List.concat (map (fun l => l ++ [NL]) ls).
Proof.
  induction ls as [|l ls IH]; intro H; [contradiction|].
  destruct ls as [|l' ls].
  - cbn. now rewrite app_nil_r.
  - change (join [NL] ((l :: l' :: ls) ++ [[]]))
      with (l ++ [NL] ++ join [NL] ((l' :: ls) ++ [[]])).
    rewrite IH by discriminate. cbn [map List.concat].
    now rewrite <- (app_assoc l [NL]).
Qed.

Lemma slice_whole (s : jsstring) : slice s 0 (Z.max 0 (length s)) = s.
Proof.
  pose proof (length_nonneg s). rewrite Z.max_r by assumption.
  unfold length. rewrite slice_prefix. apply firstn_all.
Qed.

(** The text the grown selection selects. *)
Lemma grown_text (j : Z) :
  1 <= j ->
  getSelection (editor_after j)
  = Spec.text_of_full_lines e startLine (Z.min j (lineCount e - startLine)).
Proof.
  intro Hj. unfold getSelection, primary, Aux.editor_after. cbn [selections last].
  rewrite grown_full_lines by lia.
  unfold Spec.text_of_full_lines, Spec.full_lines, Spec.end_of_lines.
  set (m := Z.min j (lineCount e - startLine)).
  assert (Hm : 1 <= m) by (unfold m; lia).
  assert (Hfrom : valid_pos e {| line := startLine; ch := 0 |}).
  { split; cbn [line ch]; [assumption|].
    pose proof (length_nonneg (getLine e startLine)). lia. }
  destruct (Z.ltb_spec (startLine + m) (lineCount e)) as [Hin|Hout].
  - assert (Hto : valid_pos e {| line := startLine + m; ch := 0 |}).
    { split; cbn [line ch]; [lia|].
      pose proof (length_nonneg (getLine e (startLine + m))). lia. }
    unfold sel_from, sel_to, pos_leb. cbn [anchor head line ch].
    destruct (Z.ltb_spec startLine (startLine + m)); [|lia]. cbn [orb].
    unfold getRange. change (clipPos _ ?p) with (clipPos e p).
    rewrite !clipPos_valid by assumption. cbn [line ch].
    destruct (Z.eqb_spec startLine (startLine + m)); [lia|].
    destruct (Z.ltb_spec (startLine + m) startLine); [lia|].
    cbn [Z.to_nat skipn firstn].
    change (getLine ?x ?n) with (getLine e n).
    change (lines_between ?x ?p ?q) with (lines_between e p q).
    rewrite app_comm_cons, <- lines_between_cons by lia.
    apply join_lines_and_empty.
    intro Hnil. apply (f_equal (@List.length jsstring)) in Hnil.
    unfold lines_between in Hnil. rewrite length_map, length_seq in Hnil.
    simpl in Hnil. lia.
  - assert (Hm' : startLine + m = lineCount e) by (unfold m in *; lia).
    set (last_line := lineCount e - 1).
    assert (Hto : valid_pos e {| line := last_line; ch := length (getLine e last_line) |}).
    { split; cbn [line ch]; [unfold last_line; lia|].
      pose proof (length_nonneg (getLine e last_line)). lia. }
    pose proof (length_nonneg (getLine e last_line)) as Hlen.
    unfold sel_from, sel_to, pos_leb. cbn [anchor head line ch].
    assert (Hle : (startLine <? last_line)
                  || (startLine =? last_line) && (0 <=? length (getLine e last_line))
                  = true).
    { destruct (Z.ltb_spec startLine last_line); [reflexivity|].
      destruct (Z.eqb_spec startLine last_line); [|unfold last_line in *; lia].
      destruct (Z.leb_spec 0 (length (getLine e last_line))); [reflexivity|lia]. }
    rewrite Hle.
    unfold getRange. change (clipPos _ ?p) with (clipPos e p).
    rewrite !clipPos_valid by assumption. cbn [line ch].
    change (getLine ?x ?n) with (getLine e n).
    change (lines_between ?x ?p ?q) with (lines_between e p q).
    destruct (Z.eqb_spec startLine last_line) as [Heq|Hne].
    + rewrite <- Heq, slice_whole.
      rewrite lines_between_cons, lines_between_empty by lia. reflexivity.
    + destruct (Z.ltb_spec last_line startLine); [unfold last_line in *; lia|].
      cbn [Z.to_nat skipn]. rewrite firstn_whole.
      replace last_line with (last_line - 1 + 1) at 2 3 by lia.
      rewrite app_comm_cons, <- lines_between_cons by (unfold last_line; lia).
      rewrite <- lines_between_snoc by (unfold last_line; lia).
      reflexivity.
Qed.

End Run.

(** When the run does not start from a cursor: with text selected and the
    fields as the mousedown listener leaves them, the first invocation asks
    for the range from line -1, which the host keeps at the start of the
    document. *)
Remark select_line_with_text_selected :
  snd (handleSelectLine false
         (mousedown {| fields := initial;
                       activeEditor := Some Examples.second_line_selected |}))
  = {| fields := {| selectLineCount := 1; lastSelectedLine := -1;
                    lastSelectedWord := None |};
       activeEditor :=
         Some {| lines := lines Examples.second_line_selected;
                 selections := [ caret origin ] |} |}.
Proof. reflexivity. Qed.

(** C3.  From a cursor on line startLine of a document of N lines, [k]
    invocations in a row (k at least 1) leave one selection, anchored at
    column 0 of startLine, that covers min(k, N - startLine) full lines: its
    head is at column 0 of line startLine + k while there is such a line,
    at the end of the document otherwise, and the selected text is the text
    of these lines.  The anchor line kept by the plugin is startLine after
    every invocation, and the counter is k unless the selection is empty. *)
Theorem select_line_growth (f : Fields) (e : Editor) (startLine c : Z) (k : nat) :
  0 <= startLine < lineCount e ->
  selections e = [caret {| line := startLine; ch := c |}] ->
  (1 <= k)%nat ->
  let a := selectLineTimes k {| fields := f; activeEditor := Some e |} in
  let m := Z.min (Z.of_nat k) (lineCount e - startLine) in
  exists ek,
    activeEditor a = Some ek
    /\ lines ek = lines e
    /\ listSelections ek = [Spec.full_lines e startLine m]
    /\ anchor (Spec.full_lines e startLine m) = {| line := startLine; ch := 0 |}
    /\ (startLine + Z.of_nat k < lineCount e ->
        head (Spec.full_lines e startLine m)
        = {| line := startLine + Z.of_nat k; ch := 0 |})
    /\ getSelection ek = Spec.text_of_full_lines e startLine m
    /\ lastSelectedLine (fields a) = startLine
    /\ (somethingSelected ek = true -> selectLineCount (fields a) = Z.of_nat k).
Proof.
  intros Hstart Hsel Hk a m.
  destruct k as [|k]; [lia|].
  pose proof (after_invocations e startLine Hstart f c k Hsel) as (Hed & Hlast & Hcount).
  fold a in Hed, Hlast, Hcount.
  exists (Aux.editor_after e startLine (Z.of_nat (S k))).
  split; [exact Hed|]. split; [reflexivity|].
  split.
  { unfold listSelections, Aux.editor_after. cbn [selections].
    now rewrite (grown_full_lines e startLine Hstart) by lia. }
  split; [reflexivity|].
  split.
  { intro Hin. unfold Spec.full_lines, Spec.end_of_lines, m. cbn [head].
    rewrite Z.min_l by lia.
    destruct (Z.ltb_spec (startLine + Z.of_nat (S k)) (lineCount e)); [reflexivity|lia]. }
  split; [apply (grown_text e startLine Hstart); lia|].
  split; [exact Hlast|].
  intro Hsome. destruct Hcount as [Hcount|Hcount]; [exact Hcount|congruence].
Qed.

Lemma select_line_growth_witness :
  0 <= 1 < lineCount Examples.three_cursor
  /\ (1 <= 2)%nat
  /\ exists ek,
       activeEditor (selectLineTimes 2 {| fields := initial;
                                          activeEditor := Some Examples.three_cursor |})
       = Some ek
       /\ listSelections ek = [ Examples.range 1 0 2 3 ]
       /\ getSelection ek = lit "cab" ++ [NL] ++ lit "abc".
Proof.
  assert (H1 : 0 <= 1 < lineCount Examples.three_cursor) by (cbn; lia).
  assert (H2 : (1 <= 2)%nat) by lia.
  split; [exact H1|split; [exact H2|]].
  destruct (select_line_growth initial Examples.three_cursor 1 1 2 H1 eq_refl H2)
    as (ek & Hed & _ & Hsels & _ & _ & Htext & _).
  exists ek. split; [exact Hed|split; [exact Hsels|exact Htext]].
Defined.

End SelectLineFacts.

(** ** The try-guarded duplicate line down *)

Module TryGuardedFacts.
Import JS Host TryGuarded.

(** The handler raises nothing and answers true, whatever the host does. *)
Lemma handler_returns_true (faults : HostCall -> bool) (checking : bool) (w : World) :
  fst (handleDuplicateLineDown faults checking w) = Value true.
Proof.
  unfold handleDuplicateLineDown, bind, tryCatch, ret, consoleError.
  destruct checking; [reflexivity|].
  destruct (duplicateLineDownBody faults w) as [[[]|] w1]; reflexivity.
Qed.

(** The block under [try] changes the document in [replaceRange] only. *)
Lemma body_before_edit (faults : HostCall -> bool) (w : World) :
  faults GetActiveEditor || faults GetCursor || faults GetLine || faults ReplaceRange
  = true ->
  editor (snd (duplicateLineDownBody faults w)) = editor w.
Proof.
  intro H. unfold duplicateLineDownBody, bind, getActiveEditor, call.
  destruct (faults GetActiveEditor); [reflexivity|].
  destruct (editor w) as [e|] eqn:He; [|cbn; now rewrite He].
  unfold getCursor, call. destruct (faults GetCursor); [cbn; now rewrite He|].
  unfold getLine, call. destruct (faults GetLine); [cbn; now rewrite He|].
  unfold replaceRange, call. destruct (faults ReplaceRange); [cbn; now rewrite He|].
  discriminate.
Qed.

(** C9 as the specification states it fails: when [setCursor] raises, the
    handler returns true, and the line has been duplicated. *)
Lemma guarded_duplicate_not_all_or_nothing :
  ~ (forall (faults : HostCall -> bool) (w : World),
        fst (duplicateLineDownBody faults w) = Raised ->
        option_map lines (editor (snd (handleDuplicateLineDown faults false w)))
        = option_map lines (editor w)).
Proof.
  intro H. specialize (H (only SetCursor) Examples.one_line_world eq_refl).
  vm_compute in H. discriminate.
Qed.

(** C9, amended.  Whatever host call raises, the handler does not let the
    exception out and returns true; an exception in the block is reported
    on the console; and when the call that raises is one of
    getActiveEditor, getCursor, getLine and replaceRange, the editor is as
    it was before the command. *)
Theorem guarded_duplicate_catches (faults : HostCall -> bool) (w : World) :
  (forall checking : bool,
      fst (handleDuplicateLineDown faults checking w) = Value true)
  /\ (fst (duplicateLineDownBody faults w) = Raised ->
      console (snd (handleDuplicateLineDown faults false w))
      = console w ++ [lit "Error duplicating line down:"])
  /\ (faults GetActiveEditor || faults GetCursor || faults GetLine
      || faults ReplaceRange = true ->
      editor (snd (handleDuplicateLineDown faults false w)) = editor w).
Proof.
  split; [|split].
  - intro checking. apply handler_returns_true.
  - intro Hraised.
    assert (Hcon : console (snd (duplicateLineDownBody faults w)) = console w).
    { clear Hraised.
      unfold duplicateLineDownBody, bind, getActiveEditor, getCursor, getLine,
        replaceRange, setCursor, call, ret, on_editor.
      destruct (faults GetActiveEditor); [reflexivity|].
      destruct (editor w); [|reflexivity].
      destruct (faults GetCursor); [reflexivity|].
      destruct (faults GetLine); [reflexivity|].
      destruct (faults ReplaceRange); [reflexivity|].
      destruct (faults SetCursor); reflexivity. }
    unfold handleDuplicateLineDown, bind, tryCatch, ret, consoleError.
    destruct (duplicateLineDownBody faults w) as [[[]|] w1];
      cbn [fst snd] in *; [discriminate|]. cbn. now rewrite Hcon.
  - intro Hfault. pose proof (body_before_edit faults w Hfault) as Hbody.
    unfold handleDuplicateLineDown, bind, tryCatch, ret, consoleError.
    destruct (duplicateLineDownBody faults w) as [[[]|] w1]; cbn in *; exact Hbody.
Qed.

Lemma guarded_duplicate_catches_witness :
  fst (duplicateLineDownBody (only ReplaceRange) Examples.one_line_world) = Raised
  /\ handleDuplicateLineDown (only ReplaceRange) false Examples.one_line_world
     = (Value true,
        {| editor := editor Examples.one_line_world;
           console := [lit "Error duplicating line down:"] |}).
Proof.
  split; [reflexivity|].
  destruct (guarded_duplicate_catches (only ReplaceRange) Examples.one_line_world)
    as (Htrue & Hcon & Hed).
  specialize (Htrue false). specialize (Hcon eq_refl). specialize (Hed eq_refl).
  destruct (handleDuplicateLineDown (only ReplaceRange) false Examples.one_line_world)
    as [r w1].
  cbn [fst snd] in *. subst r. destruct w1 as [ed con]. cbn [editor console] in *.
  subst ed con. reflexivity.
Defined.

End TryGuardedFacts.

(** ** Select word or expand *)

Module WordFacts.
Import JS Host Plugin JSFacts HostFacts DuplicateFacts CursorFacts.

Lemma find_map {A B} (f : B -> bool) (g : A -> B) (l : list A) :
  find f (map g l) = option_map g (find (fun x => f (g x)) l).
Proof.
  induction l as [|x l IH]; [reflexivity|].
  simpl. destruct (f (g x)); [reflexivity|exact IH].
Qed.

Lemma find_ext {A} (f g : A -> bool) (l : list A) :
  (forall x, f x = g x) -> find f l = find g l.
Proof.
  intro H. induction l as [|x l IH]; [reflexivity|].
  simpl. now rewrite H, IH.
Qed.

(** [first_occurrence] finds the first position at which the text starts. *)
Lemma first_occurrence_find (pat s : jsstring) :
  first_occurrence pat s
  = find (fun i => starts_with pat (skipn i s)) (seq 0 (S (List.length s))).
Proof.
  induction s as [|c s IH].
  - simpl. destruct (starts_with pat []); reflexivity.
  - cbn [first_occurrence].
    change (seq 0 (S (List.length (c :: s))))
      with (O :: seq 1 (S (List.length s))).
    cbn [find skipn].
    destruct (starts_with pat (c :: s)); [reflexivity|].
    rewrite IH, <- seq_shift, find_map. reflexivity.
Qed.

Lemma first_occurrence_from_skipn (ln text : jsstring) (k : nat) :
  (k <= List.length ln)%nat ->
  Spec.first_occurrence_from ln text k
  = option_map (Nat.add k) (first_occurrence text (skipn k ln)).
Proof.
  intro Hk. unfold Spec.first_occurrence_from, Spec.occurs_at.
  rewrite first_occurrence_find, length_skipn.
  replace (S (List.length ln) - k)%nat with (S (List.length ln - k)) by lia.
  replace (seq k (S (List.length ln - k)))
    with (map (Nat.add k) (seq 0 (S (List.length ln - k)))).
  - rewrite find_map. f_equal. apply find_ext. intro i.
    now rewrite skipn_skipn, Nat.add_comm.
  - generalize (S (List.length ln - k)) as n. intro n.
    rewrite <- (Nat.add_0_r k) at 2. generalize 0%nat as z.
    induction n as [|n IH]; intro z; [reflexivity|].
    cbn [seq map]. f_equal. rewrite IH. f_equal. lia.
Qed.

(** [indexOf] from a column of the line is the first literal occurrence at
    or after that column. *)
Lemma indexOf_first_occurrence (ln text : jsstring) (k : Z) :
  0 <= k <= length ln ->
  indexOf ln text k
  = match Spec.first_occurrence_from ln text (Z.to_nat k) with
    | Some i => Z.of_nat i
    | None => -1
    end.
Proof.
  intro Hk. unfold indexOf. rewrite clamp_inside by assumption.
  rewrite first_occurrence_from_skipn by (unfold length in Hk; lia).
  destruct (first_occurrence text (skipn (Z.to_nat k) ln)); reflexivity.
Qed.

Lemma starts_with_length (pat s : jsstring) :
  starts_with pat s = true -> (List.length pat <= List.length s)%nat.
Proof.
  revert s; induction pat as [|p pat IH]; intros [|c s] H; simpl in *;
    try lia; try discriminate.
  apply andb_prop in H as [_ H]. apply IH in H. lia.
Qed.

Lemma first_occurrence_from_inside (ln text : jsstring) (k i : nat) :
  (k <= List.length ln)%nat ->
  Spec.first_occurrence_from ln text k = Some i ->
  (k <= i)%nat /\ (i + List.length text <= List.length ln)%nat.
Proof.
  intros Hk H. unfold Spec.first_occurrence_from in H.
  apply find_some in H as [Hin Hocc]. apply in_seq in Hin.
  unfold Spec.occurs_at in Hocc. apply starts_with_length in Hocc.
  rewrite length_skipn in Hocc. lia.
Qed.

Lemma setSelections_inside (e : Editor) (ranges : list Selection) :
  Forall (valid_selection e) ranges -> ranges <> [] ->
  setSelections ranges e = {| lines := lines e; selections := ranges |}.
Proof.
  intros Hall Hne. destruct ranges as [|r ranges]; [contradiction|].
  unfold setSelections. f_equal.
  rewrite <- (map_id (r :: ranges)) at 2.
  apply map_ext_in. intros s Hs. apply clipSelection_valid.
  rewrite Forall_forall in Hall. now apply Hall.
Qed.

Lemma primary_valid (e : Editor) :
  Forall (valid_selection e) (selections e) -> selections e <> [] ->
  valid_selection e (primary e).
Proof.
  intros Hall Hne. rewrite Forall_forall in Hall. apply Hall.
  unfold primary. destruct (exists_last Hne) as (l & s & Hl).
  rewrite Hl, last_last. apply in_or_app. right. now left.
Qed.

(** C6 as the specification states it fails: on the line "abab" with the
    first "ab" selected the handler adds the "ab" that starts at column 2,
    the end column of the selection; a search strictly after that column
    finds nothing. *)
Lemma word_expand_not_strictly_after :
  snd (handleSelectWordOrExpand false
         {| fields := initial; activeEditor := Some Examples.abab |})
  <> {| fields := initial;
        activeEditor :=
          Some (Spec.expanded Examples.abab
                  (S (Z.to_nat (ch (sel_to (primary Examples.abab)))))) |}.
Proof. intro H. vm_compute in H. discriminate. Qed.

(** With a backward selection the search starts at the head, which is the
    start of the selection, and finds the selection itself. *)
Remark word_expand_backward_selection :
  snd (handleSelectWordOrExpand false
         {| fields := initial; activeEditor := Some Examples.ab_ab_backward |})
  = {| fields := initial;
       activeEditor :=
         Some {| lines := [lit "ab ab"];
                 selections := [ Examples.range 0 2 0 0; Examples.range 0 0 0 2 ] |} |}.
Proof. reflexivity. Qed.

(** The version of the handler that keeps the word in [lastSelectedWord]
    leaves a non-empty selection as it is. *)
Remark word_expand_recording_version :
  snd (TryGuarded.handleSelectWordOrExpand false
         {| fields := initial; activeEditor := Some Examples.abab |})
  = {| fields := {| selectLineCount := 0; lastSelectedLine := -1;
                    lastSelectedWord := Some (lit "ab") |};
       activeEditor := Some Examples.abab |}.
Proof. reflexivity. Qed.

(** C6, amended.  With a non-empty current selection whose head is its end,
    the handler looks on the current line for the first literal occurrence
    of the selected text that starts at or after the selection's end column;
    when there is one, a selection over exactly that occurrence is appended
    to the selection set, the selections before staying; when there is
    none, editor and plugin are as they were. *)
Theorem word_expand_appends (f : Fields) (e : Editor) :
  Forall (valid_selection e) (selections e) ->
  selections e <> [] ->
  getSelection e <> [] ->
  sel_to (primary e) = head (primary e) ->
  snd (handleSelectWordOrExpand false {| fields := f; activeEditor := Some e |})
  = {| fields := f;
       activeEditor :=
         Some (Spec.expanded e (Z.to_nat (ch (sel_to (primary e))))) |}.
Proof.
  intros Hall Hne Htext Hend. rewrite Hend.
  destruct (primary_valid e Hall Hne) as [_ [Hline Hch]].
  unfold handleSelectWordOrExpand. cbn [activeEditor fields snd]. f_equal. f_equal.
  destruct (getSelection e) as [|c text] eqn:Hsel; [contradiction|].
  cbn [truthy]. rewrite <- Hsel.
  change (last (listSelections e) (caret origin)) with (primary e).
  change (getCursor e) with (head (primary e)).
  rewrite (indexOf_first_occurrence _ _ _ Hch).
  unfold Spec.expanded.
  destruct (Spec.first_occurrence_from (getLine e (line (head (primary e))))
              (getSelection e) (Z.to_nat (ch (head (primary e))))) as [i|] eqn:Hocc.
  - destruct (Z.eqb_spec (Z.of_nat i) (-1)) as [Hneg|_]; [lia|]. cbn [negb].
    apply first_occurrence_from_inside in Hocc as [Hfrom Hinside];
      [|unfold length in Hch; lia].
    apply setSelections_inside.
    + apply Forall_app. split; [exact Hall|]. constructor; [|constructor].
      unfold valid_selection, valid_pos, length. cbn [anchor head line ch].
      unfold length in Hch. lia.
    + intro Hnil. apply app_eq_nil in Hnil as [_ Hnil]. discriminate.
  - reflexivity.
Qed.

Lemma word_expand_appends_witness :
  Forall (valid_selection Examples.abab) (selections Examples.abab)
  /\ getSelection Examples.abab = lit "ab"
  /\ snd (handleSelectWordOrExpand false
            {| fields := initial; activeEditor := Some Examples.abab |})
     = {| fields := initial;
          activeEditor :=
            Some {| lines := [lit "abab"];
                    selections := [ Examples.range 0 0 0 2; Examples.range 0 2 0 4 ] |} |}.
Proof.
  assert (Hall : Forall (valid_selection Examples.abab) (selections Examples.abab)).
  { constructor; [|constructor]. repeat split; cbn; try lia; vm_compute; discriminate. }
  split; [exact Hall|]. split; [reflexivity|].
  rewrite (word_expand_appends initial Examples.abab Hall);
    [reflexivity|discriminate|discriminate|reflexivity].
Defined.

End WordFacts.

(** ** Duplicate line up *)

Module DuplicateUpFacts.
Import JS Host Plugin LineCommands JSFacts HostFacts DuplicateFacts Aux.

Lemma split_join_app (ls : list jsstring) (t : jsstring) :
  ls <> [] -> Forall (fun l => ~ In NL l) ls ->
  split NL (join [NL] ls ++ NL :: t) = ls ++ split NL t.
Proof.
  induction ls as [|l ls IH]; intros Hne Hall; [contradiction|].
  inversion Hall as [|? ? Hl Hls]; subst.
  destruct ls as [|l' ls].
  - cbn [join app]. now apply split_app_newline.
  - change (join [NL] (l :: l' :: ls)) with (l ++ NL :: join [NL] (l' :: ls)).
    rewrite <- app_assoc. cbn [app].
    rewrite split_app_newline by assumption.
    rewrite IH; [reflexivity|discriminate|assumption].
Qed.

Lemma skipn_line (e : Editor) (a : Z) :
  0 <= a < lineCount e ->
  skipn (Z.to_nat a) (lines e) = getLine e a :: skipn (Z.to_nat a + 1) (lines e).
Proof.
  intro Ha. pose proof (lines_at e a Ha) as H.
  rewrite <- (firstn_skipn (Z.to_nat a) (lines e)) in H at 1.
  now apply app_inv_head in H.
Qed.

Lemma start_of_line_valid (e : Editor) (a : Z) :
  0 <= a < lineCount e -> valid_pos e {| line := a; ch := 0 |}.
Proof.
  intro Ha. split; cbn [line ch]; [assumption|].
  pose proof (length_nonneg (getLine e a)). lia.
Qed.

(** Inserting whole lines and a newline at the start of line [a] puts these
    lines in front of line [a]. *)
Lemma insert_lines_before (e : Editor) (a : Z) (copy : list jsstring) :
  wf_doc e -> 0 <= a < lineCount e ->
  copy <> [] -> Forall (fun l => ~ In NL l) copy ->
  lines (replaceRange (join [NL] copy ++ [NL]) {| line := a; ch := 0 |} None e)
  = firstn (Z.to_nat a) (lines e) ++ copy ++ skipn (Z.to_nat a) (lines e).
Proof.
  intros Hwf Ha Hne Hcopy. unfold replaceRange.
  rewrite (clipPos_valid _ _ (start_of_line_valid e a Ha)). cbn [lines line ch].
  change (Z.to_nat 0) with O. cbn [firstn skipn app].
  rewrite <- app_assoc. cbn [app].
  rewrite split_join_app by assumption.
  rewrite split_no_newline by (now apply wf_line).
  rewrite (skipn_line e a Ha), <- app_assoc. reflexivity.
Qed.

(** The lines [a..b] cut the list of lines in three. *)
Lemma lines_in_three (e : Editor) (a b : Z) :
  0 <= a -> a <= b -> b < lineCount e ->
  firstn (Z.to_nat b + 1) (lines e)
  = firstn (Z.to_nat a) (lines e) ++ lines_between e a b
  /\ skipn (Z.to_nat a) (lines e)
     = lines_between e a b ++ skipn (Z.to_nat b + 1) (lines e).
Proof.
  intros Ha Hab Hb. rewrite lines_between_firstn_skipn by assumption.
  split.
  - rewrite <- (firstn_skipn (Z.to_nat a) (lines e)) at 1.
    rewrite firstn_app, length_firstn, firstn_firstn.
    unfold lineCount in Hb.
    replace (Nat.min (Z.to_nat b + 1) (Z.to_nat a)) with (Z.to_nat a) by lia.
    f_equal. f_equal. lia.
  - rewrite <- (firstn_skipn (Z.to_nat (b - a + 1)) (skipn (Z.to_nat a) (lines e))) at 1.
    f_equal. rewrite skipn_skipn. f_equal. lia.
Qed.

Section OneSelectionUp.

Variable e : Editor.
Variable sel : Selection.
Hypothesis Hwf : wf_doc e.
Hypothesis Hsel : valid_selection e sel.

Local Abbreviation a := (Z.min (line (anchor sel)) (line (head sel))).
Local Abbreviation b := (Z.max (line (anchor sel)) (line (head sel))).

Lemma up_bounds : 0 <= a /\ a <= b /\ b < lineCount e.
Proof. destruct Hsel as [[Ha _] [Hh _]]. lia. Qed.

Lemma up_entry_lines :
  lines (fst (duplicateUpEntry e sel))
  = firstn (Z.to_nat a) (lines e) ++ lines_between e a b ++ skipn (Z.to_nat a) (lines e).
Proof.
  pose proof up_bounds as (H1 & H2 & H3).
  unfold duplicateUpEntry. cbn [fst].
  apply insert_lines_before; try assumption; try lia.
  - now apply lines_between_not_nil.
  - now apply lines_between_wf.
Qed.

(** Duplicating upwards and duplicating downwards give the same lines. *)
Lemma up_entry_lines_as_down :
  lines (fst (duplicateUpEntry e sel)) = lines (fst (duplicateDownEntry e sel)).
Proof.
  pose proof up_bounds as (H1 & H2 & H3).
  rewrite up_entry_lines, (duplicateDownEntry_lines e sel Hwf Hsel). cbv zeta.
  destruct (lines_in_three e a b H1 H2 H3) as [Hpre Hpost].
  rewrite Hpre, Hpost, <- !app_assoc. reflexivity.
Qed.

Lemma up_entry_editor :
  fst (duplicateUpEntry e sel)
  = {| lines := firstn (Z.to_nat a) (lines e) ++ lines_between e a b
                  ++ skipn (Z.to_nat a) (lines e);
       selections := selections e |}.
Proof. rewrite <- up_entry_lines. reflexivity. Qed.

Lemma up_lineCount :
  lineCount (fst (duplicateUpEntry e sel)) = lineCount e + (b - a + 1).
Proof.
  pose proof up_bounds as (H1 & H2 & H3).
  unfold lineCount in *. rewrite up_entry_lines, !length_app, lines_between_length.
  rewrite length_firstn, length_skipn. lia.
Qed.

(** Line [k] of the copy is line [k] of the document before the edit. *)
Lemma up_copy_line (k : Z) :
  a <= k <= b -> getLine (fst (duplicateUpEntry e sel)) k = getLine e k.
Proof.
  intro Hk. pose proof up_bounds as (H1 & H2 & H3). unfold lineCount in H3.
  rewrite up_entry_editor, getLine_app3;
    rewrite length_firstn, lines_between_length; [|rewrite length_skipn; lia].
  replace (Nat.min (Z.to_nat a) (List.length (lines e))) with (Z.to_nat a) by lia.
  destruct (Z.ltb_spec k (Z.of_nat (Z.to_nat a))); [lia|].
  destruct (Z.ltb_spec k (Z.of_nat (Z.to_nat a + Z.to_nat (b - a + 1)))); [|lia].
  unfold lines_between.
  rewrite (nth_indep _ _ (getLine e (a + Z.of_nat 0)))
    by (rewrite length_map, length_seq; lia).
  rewrite (map_nth (fun i => getLine e (a + Z.of_nat i))), seq_nth by lia.
  f_equal. lia.
Qed.

(** The line behind the copy is the start line. *)
Lemma up_line_behind_copy :
  getLine (fst (duplicateUpEntry e sel)) (b + 1) = getLine e a.
Proof.
  pose proof up_bounds as (H1 & H2 & H3). unfold lineCount in H3.
  rewrite up_entry_editor, getLine_app3;
    rewrite length_firstn, lines_between_length; [|rewrite length_skipn; lia].
  replace (Nat.min (Z.to_nat a) (List.length (lines e))) with (Z.to_nat a) by lia.
  destruct (Z.ltb_spec (b + 1) (Z.of_nat (Z.to_nat a))); [lia|].
  destruct (Z.ltb_spec (b + 1) (Z.of_nat (Z.to_nat a + Z.to_nat (b - a + 1)))); [lia|].
  rewrite nth_skipn, getLine_nth by (unfold lineCount; lia). f_equal. lia.
Qed.

(** The entry pushed on [newSelections], in terms of the document before
    the edit. *)
Lemma up_entry_selection :
  snd (duplicateUpEntry e sel)
  = {| anchor := {| line := a;
                    ch := if line (anchor sel) =? a then ch (anchor sel) else 0 |};
       head := {| line := b;
                  ch := if line (head sel) =? b then ch (head sel)
                        else length (getLine e b) |} |}.
Proof.
  pose proof up_bounds as (H1 & H2 & H3).
  unfold duplicateUpEntry. cbn [snd].
  change (replaceRange (join [NL] (lines_between e a b) ++ [NL])
            {| line := a; ch := 0 |} None e)
    with (fst (duplicateUpEntry e sel)).
  rewrite up_copy_line by lia. f_equal. f_equal. lia.
Qed.

Lemma up_entry_selection_valid :
  valid_selection (fst (duplicateUpEntry e sel)) (snd (duplicateUpEntry e sel)).
Proof.
  pose proof up_bounds as (H1 & H2 & H3). pose proof up_lineCount as Hcount.
  destruct Hsel as [[Ha1 Ha2] [Hh1 Hh2]].
  rewrite up_entry_selection.
  split; split; cbn [anchor head line ch]; try lia; rewrite up_copy_line by lia.
  - destruct (Z.eqb_spec (line (anchor sel)) a) as [Heq|Hne].
    + rewrite <- Heq. assumption.
    + pose proof (length_nonneg (getLine e a)). lia.
  - destruct (Z.eqb_spec (line (head sel)) b) as [Heq|Hne].
    + rewrite <- Heq. assumption.
    + pose proof (length_nonneg (getLine e b)). lia.
Qed.

(** What the handler leaves behind when there is one selection. *)
Lemma up_handler_one_selection (f : Fields) :
  selections e = [sel] ->
  snd (handleDuplicateLineUp false {| fields := f; activeEditor := Some e |})
  = {| fields := f;
       activeEditor :=
         Some {| lines := lines (fst (duplicateUpEntry e sel));
                 selections := [snd (duplicateUpEntry e sel)] |} |}.
Proof.
  intro Hone. unfold handleDuplicateLineUp, listSelections. cbn [activeEditor fields].
  rewrite Hone. cbn [duplicateUpAll].
  pose proof up_entry_selection_valid as Hvalid.
  destruct (duplicateUpEntry e sel) as [e1 entry]. cbn [fst snd app] in *.
  unfold setSelections. cbn [map snd]. now rewrite clipSelection_valid.
Qed.

(** Deleting the copy gives the lines of the document back. *)
Lemma up_entry_deleted :
  lines (replaceRange [] {| line := a; ch := 0 |}
           (Some {| line := a + (b - a + 1); ch := 0 |})
           (fst (duplicateUpEntry e sel)))
  = lines e.
Proof.
  pose proof up_bounds as (H1 & H2 & H3). pose proof up_lineCount as Hcount.
  unfold replaceRange.
  rewrite !clipPos_valid by (apply start_of_line_valid; lia).
  cbn [lines line ch]. change (Z.to_nat 0) with O. cbn [firstn skipn app].
  replace (a + (b - a + 1)) with (b + 1) by lia.
  rewrite up_line_behind_copy, split_no_newline by (now apply wf_line).
  rewrite up_entry_lines. unfold lineCount in H3.
  rewrite firstn_app, length_firstn, firstn_firstn.
  replace (Nat.min (Z.to_nat a) (Z.to_nat a)) with (Z.to_nat a) by lia.
  replace (Z.to_nat a - Nat.min (Z.to_nat a) (List.length (lines e)))%nat with O by lia.
  cbn [firstn]. rewrite app_nil_r.
  rewrite skipn_app, length_firstn, (skipn_all2 (firstn _ _))
    by (rewrite length_firstn; lia).
  rewrite skipn_app, lines_between_length, (skipn_all2 (lines_between e a b))
    by (rewrite lines_between_length; lia).
  cbn [app]. rewrite skipn_skipn.
  replace (Z.to_nat (b + 1) + 1 - Nat.min (Z.to_nat a) (List.length (lines e))
           - Z.to_nat (b - a + 1) + Z.to_nat a)%nat
    with (Z.to_nat a + 1)%nat by lia.
  symmetry. apply lines_at. unfold lineCount. lia.
Qed.

End OneSelectionUp.

End DuplicateUpFacts.

Module DuplicateUpExtras.
Import JS Host Plugin LineCommands JSFacts HostFacts DuplicateFacts DuplicateUpFacts Aux.

(** X1.  With one selection over the lines a..b, duplicate-line-up puts the
    copy of these lines in front of line a, and the document it leaves is
    the document duplicate-line-down leaves: b-a+1 lines longer, the lines
    a..b twice in a row. *)
Theorem duplicate_up_same_document_as_down (f : Fields) (e : Editor) (sel : Selection) :
  wf_doc e -> valid_selection e sel -> selections e = [sel] ->
  let a := Z.min (line (anchor sel)) (line (head sel)) in
  let b := Z.max (line (anchor sel)) (line (head sel)) in
  exists eu ed,
    snd (handleDuplicateLineUp false {| fields := f; activeEditor := Some e |})
    = {| fields := f; activeEditor := Some eu |}
    /\ snd (handleDuplicateLineDown false {| fields := f; activeEditor := Some e |})
       = {| fields := f; activeEditor := Some ed |}
    /\ lines eu = firstn (Z.to_nat a) (lines e) ++ lines_between e a b
                    ++ skipn (Z.to_nat a) (lines e)
    /\ lines eu = lines ed
    /\ lineCount eu = lineCount e + (b - a + 1).
Proof.
  intros Hwf Hsel Hone a b.
  rewrite (up_handler_one_selection e sel Hwf Hsel f Hone).
  rewrite (handler_one_selection f e sel Hwf Hsel Hone).
  eexists. eexists. split; [reflexivity|]. split; [reflexivity|].
  cbn [lines]. split; [apply (up_entry_lines e sel Hwf Hsel)|].
  split; [apply (up_entry_lines_as_down e sel Hwf Hsel)|].
  unfold lineCount at 1. cbn [lines].
  apply (up_lineCount e sel Hwf Hsel).
Qed.

Lemma duplicate_up_same_document_as_down_witness :
  wf_doc Examples.two_lines
  /\ valid_selection Examples.two_lines (Examples.range 1 1 0 1)
  /\ exists eu ed,
       snd (handleDuplicateLineUp false
              {| fields := initial; activeEditor := Some Examples.two_lines |})
       = {| fields := initial; activeEditor := Some eu |}
       /\ snd (handleDuplicateLineDown false
                 {| fields := initial; activeEditor := Some Examples.two_lines |})
          = {| fields := initial; activeEditor := Some ed |}
       /\ lines eu = [lit "ab"; lit "cde"; lit "ab"; lit "cde"]
       /\ lines eu = lines ed.
Proof.
  assert (Hwf : wf_doc Examples.two_lines) by wf_example.
  assert (Hsel : valid_selection Examples.two_lines (Examples.range 1 1 0 1))
    by valid_example.
  split; [exact Hwf|split; [exact Hsel|]].
  destruct (duplicate_up_same_document_as_down initial Examples.two_lines
              (Examples.range 1 1 0 1) Hwf Hsel eq_refl)
    as (eu & ed & H1 & H2 & H3 & H4 & _).
  exists eu, ed. split; [exact H1|split; [exact H2|split; [exact H3|exact H4]]].
Defined.

(** X2.  With one selection, duplicate-line-up installs the selection from
    {a, anchor column if the anchor was on line a, else 0} to {b, head
    column if the head was on line b, else the length of line b}; a
    selection whose anchor is not below its head stays exactly where it
    was, now over the copy; and the selection duplicate-line-down installs
    is this selection moved b-a+1 lines down. *)
Theorem duplicate_up_selection (f : Fields) (e : Editor) (sel : Selection) :
  wf_doc e -> valid_selection e sel -> selections e = [sel] ->
  let a := Z.min (line (anchor sel)) (line (head sel)) in
  let b := Z.max (line (anchor sel)) (line (head sel)) in
  let up :=
    {| anchor := {| line := a;
                    ch := if line (anchor sel) =? a then ch (anchor sel) else 0 |};
       head := {| line := b;
                  ch := if line (head sel) =? b then ch (head sel)
                        else length (getLine e b) |} |} in
  option_map listSelections
    (activeEditor
       (snd (handleDuplicateLineUp false {| fields := f; activeEditor := Some e |})))
  = Some [up]
  /\ (line (anchor sel) <= line (head sel) -> up = sel)
  /\ option_map listSelections
       (activeEditor
          (snd (handleDuplicateLineDown false {| fields := f; activeEditor := Some e |})))
     = Some [ {| anchor := {| line := line (anchor up) + (b - a + 1);
                              ch := ch (anchor up) |};
                 head := {| line := line (head up) + (b - a + 1);
                            ch := ch (head up) |} |} ].
Proof.
  intros Hwf Hsel Hone a b up. split; [|split].
  - rewrite (up_handler_one_selection e sel Hwf Hsel f Hone).
    cbn [activeEditor snd option_map listSelections selections].
    now rewrite (up_entry_selection e sel Hwf Hsel).
  - intro Hle. unfold up, a, b.
    rewrite Z.min_l, Z.max_r by assumption. rewrite !Z.eqb_refl.
    destruct sel as [[la ca] [lh c_h]]. reflexivity.
  - rewrite (handler_one_selection f e sel Hwf Hsel Hone).
    cbn [activeEditor snd option_map listSelections selections].
    unfold Spec.duplicated_block, up. cbn [anchor head line ch]. fold a b.
    replace (a + (b - a + 1)) with (b + 1) by lia. reflexivity.
Qed.

Lemma duplicate_up_selection_witness :
  wf_doc MoreExamples.forward_two_of_three
  /\ valid_selection MoreExamples.forward_two_of_three (Examples.range 0 1 1 2)
  /\ option_map listSelections
       (activeEditor
          (snd (handleDuplicateLineUp false
                  {| fields := initial;
                     activeEditor := Some MoreExamples.forward_two_of_three |})))
     = Some [ Examples.range 0 1 1 2 ]
  /\ option_map listSelections
       (activeEditor
          (snd (handleDuplicateLineDown false
                  {| fields := initial;
                     activeEditor := Some MoreExamples.forward_two_of_three |})))
     = Some [ Examples.range 2 1 3 2 ].
Proof.
  assert (Hwf : wf_doc MoreExamples.forward_two_of_three) by wf_example.
  assert (Hsel : valid_selection MoreExamples.forward_two_of_three
                   (Examples.range 0 1 1 2)) by valid_example.
  split; [exact Hwf|split; [exact Hsel|]].
  destruct (duplicate_up_selection initial MoreExamples.forward_two_of_three
              (Examples.range 0 1 1 2) Hwf Hsel eq_refl) as (H1 & H2 & H3).
  split; [exact H1|exact H3].
Defined.

(** X3.  With one selection over the lines a..b, deleting the lines a..b of
    the document duplicate-line-up leaves (from the start of line a to the
    start of line b+1) gives the original document back, line by line and
    as flat text. *)
Theorem duplicate_up_round_trip (f : Fields) (e : Editor) (sel : Selection) :
  wf_doc e -> valid_selection e sel -> selections e = [sel] ->
  let a := Z.min (line (anchor sel)) (line (head sel)) in
  let b := Z.max (line (anchor sel)) (line (head sel)) in
  exists eu,
    snd (handleDuplicateLineUp false {| fields := f; activeEditor := Some e |})
    = {| fields := f; activeEditor := Some eu |}
    /\ lines (replaceRange [] {| line := a; ch := 0 |}
                (Some {| line := b + 1; ch := 0 |}) eu) = lines e
    /\ getValue (replaceRange [] {| line := a; ch := 0 |}
                   (Some {| line := b + 1; ch := 0 |}) eu) = getValue e.
Proof.
  intros Hwf Hsel Hone a b.
  rewrite (up_handler_one_selection e sel Hwf Hsel f Hone).
  eexists. split; [reflexivity|].
  pose proof (up_entry_deleted e sel Hwf Hsel) as Hdel.
  replace (Z.min (line (anchor sel)) (line (head sel))
           + (Z.max (line (anchor sel)) (line (head sel))
              - Z.min (line (anchor sel)) (line (head sel)) + 1))
    with (b + 1) in Hdel by (unfold a, b; lia).
  fold a in Hdel.
  split; [exact Hdel|]. unfold getValue. f_equal. exact Hdel.
Qed.

Lemma duplicate_up_round_trip_witness :
  wf_doc Examples.two_lines
  /\ valid_selection Examples.two_lines (Examples.range 1 1 0 1)
  /\ exists eu,
       snd (handleDuplicateLineUp false
              {| fields := initial; activeEditor := Some Examples.two_lines |})
       = {| fields := initial; activeEditor := Some eu |}
       /\ lines (replaceRange [] (Examples.at_ 0 0) (Some (Examples.at_ 2 0)) eu)
          = [lit "ab"; lit "cde"].
Proof.
  assert (Hwf : wf_doc Examples.two_lines) by wf_example.
  assert (Hsel : valid_selection Examples.two_lines (Examples.range 1 1 0 1))
    by valid_example.
  split; [exact Hwf|split; [exact Hsel|]].
  destruct (duplicate_up_round_trip initial Examples.two_lines
              (Examples.range 1 1 0 1) Hwf Hsel eq_refl) as (eu & H1 & H2 & _).
  exists eu. split; [exact H1|exact H2].
Defined.

End DuplicateUpExtras.

(** ** Insert line above, insert line below *)

Module InsertLineFacts.
Import JS Host Plugin LineCommands JSFacts HostFacts DuplicateFacts DuplicateUpFacts Aux.

Lemma blank_line_wf : Forall (fun l : jsstring => ~ In NL l) [[]].
Proof. constructor; [intros []|constructor]. Qed.

Lemma insert_blank_before (e : Editor) (l : Z) :
  wf_doc e -> 0 <= l < lineCount e ->
  lines (replaceRange [NL] {| line := l; ch := 0 |} None e)
  = firstn (Z.to_nat l) (lines e) ++ [[]] ++ skipn (Z.to_nat l) (lines e).
Proof.
  intros Hwf Hl.
  change [NL] with (join [NL] [[]] ++ [NL]).
  apply insert_lines_before; try assumption; [discriminate|apply blank_line_wf].
Qed.

(** Asking for the start of the line behind line [l] inserts behind line
    [l], also when line [l] is the last one. *)
Lemma insert_blank_after (e : Editor) (l : Z) :
  wf_doc e -> 0 <= l < lineCount e ->
  lines (replaceRange [NL] {| line := l + 1; ch := 0 |} None e)
  = firstn (Z.to_nat l + 1) (lines e) ++ [[]] ++ skipn (Z.to_nat l + 1) (lines e).
Proof.
  intros Hwf Hl.
  destruct (Z.lt_ge_cases (l + 1) (lineCount e)) as [Hin|Hlast].
  - rewrite insert_blank_before by (assumption || lia).
    replace (Z.to_nat (l + 1)) with (Z.to_nat l + 1)%nat by lia. reflexivity.
  - assert (Hl' : l = lineCount e - 1) by lia.
    assert (Hclip : clipPos e {| line := l + 1; ch := 0 |}
                    = {| line := l; ch := length (getLine e l) |}).
    { unfold clipPos. cbn [line ch].
      destruct (Z.ltb_spec (l + 1) 0); [lia|].
      destruct (Z.leb_spec (lineCount e) (l + 1)); [|lia]. now rewrite <- Hl'. }
    pose proof (insert_lines_after e l [[]] Hwf Hl) as H.
    unfold replaceRange in *. rewrite Hclip.
    rewrite (clipPos_valid _ _ (end_of_line_valid e l Hl)) in H.
    apply H; [discriminate|apply blank_line_wf].
Qed.

Lemma setCursor_inside (e : Editor) (p : Pos) :
  valid_pos e p -> setCursor p e = {| lines := lines e; selections := [caret p] |}.
Proof.
  intro Hp. unfold setCursor, setSelection, setSelections, clipSelection.
  cbn [map anchor head]. now rewrite clipPos_valid.
Qed.

Lemma insert_above_editor (f : Fields) (e : Editor) :
  wf_doc e -> 0 <= line (getCursor e) < lineCount e ->
  snd (handleInsertLineAbove false {| fields := f; activeEditor := Some e |})
  = {| fields := f;
       activeEditor :=
         Some {| lines := firstn (Z.to_nat (line (getCursor e))) (lines e) ++ [[]]
                            ++ skipn (Z.to_nat (line (getCursor e))) (lines e);
                 selections := [caret {| line := line (getCursor e); ch := 0 |}] |} |}.
Proof.
  intros Hwf Hl. unfold handleInsertLineAbove. cbn [activeEditor fields snd].
  pose proof (insert_blank_before e _ Hwf Hl) as Hlines.
  rewrite setCursor_inside.
  - now rewrite Hlines.
  - apply start_of_line_valid. unfold lineCount in *. rewrite Hlines.
    rewrite !length_app, length_firstn, length_skipn. cbn [List.length]. lia.
Qed.

Lemma insert_below_editor (f : Fields) (e : Editor) :
  wf_doc e -> 0 <= line (getCursor e) < lineCount e ->
  snd (handleInsertLineBelow false {| fields := f; activeEditor := Some e |})
  = {| fields := f;
       activeEditor :=
         Some {| lines := firstn (Z.to_nat (line (getCursor e)) + 1) (lines e) ++ [[]]
                            ++ skipn (Z.to_nat (line (getCursor e)) + 1) (lines e);
                 selections := [caret {| line := line (getCursor e) + 1; ch := 0 |}] |} |}.
Proof.
  intros Hwf Hl. unfold handleInsertLineBelow. cbn [activeEditor fields snd].
  pose proof (insert_blank_after e _ Hwf Hl) as Hlines.
  rewrite setCursor_inside.
  - now rewrite Hlines.
  - apply start_of_line_valid. unfold lineCount in *. rewrite Hlines.
    rewrite !length_app, length_firstn, length_skipn. cbn [List.length]. lia.
Qed.

(** Line [k] of a document with one line put in at index [n]. *)
Lemma getLine_inserted (L : list jsstring) (x : jsstring) (sels : list Selection)
      (n : nat) (k : Z) :
  (n <= List.length L)%nat -> 0 <= k ->
  getLine {| lines := firstn n L ++ [x] ++ skipn n L; selections := sels |} k
  = if k <? Z.of_nat n then getLine {| lines := L; selections := sels |} k
    else if k =? Z.of_nat n then x
         else getLine {| lines := L; selections := sels |} (k - 1).
Proof.
  intros Hn Hk. unfold getLine, lineCount. cbn [lines].
  rewrite !length_app, length_firstn, length_skipn. cbn [List.length].
  replace (Nat.min n (List.length L) + (1 + (List.length L - n)))%nat
    with (S (List.length L)) by lia.
  destruct (Z.leb_spec 0 k); [|lia]. cbn [andb].
  destruct (Z.ltb_spec k (Z.of_nat n)) as [Hlt|Hge].
  - destruct (Z.ltb_spec k (Z.of_nat (S (List.length L)))); [|lia].
    destruct (Z.ltb_spec k (Z.of_nat (List.length L))); [|lia].
    rewrite app_nth1 by (rewrite length_firstn; lia).
    rewrite nth_firstn. destruct (Nat.ltb_spec (Z.to_nat k) n); [reflexivity|lia].
  - destruct (Z.eqb_spec k (Z.of_nat n)) as [Heq|Hne].
    + destruct (Z.ltb_spec k (Z.of_nat (S (List.length L)))); [|lia].
      rewrite app_nth2; rewrite length_firstn; [|lia].
      replace (Z.to_nat k - Nat.min n (List.length L))%nat with O by lia. reflexivity.
    + destruct (Z.leb_spec 0 (k - 1)); [|lia]. cbn [andb].
      destruct (Z.ltb_spec k (Z.of_nat (S (List.length L))));
        destruct (Z.ltb_spec (k - 1) (Z.of_nat (List.length L))); try lia;
        [|reflexivity].
      rewrite app_nth2; rewrite length_firstn; [|lia].
      replace (Z.to_nat k - Nat.min n (List.length L))%nat
        with (S (Z.to_nat (k - 1) - n)) by lia.
      cbn [app nth]. rewrite nth_skipn. f_equal. lia.
Qed.

End InsertLineFacts.

Module InsertLineExtras.
Import JS Host Plugin LineCommands JSFacts HostFacts DuplicateFacts DuplicateUpFacts
       InsertLineFacts Aux.

Lemma Forall_parts {A} (P : A -> Prop) (l : list A) (n : nat) :
  Forall P l -> Forall P (firstn n l) /\ Forall P (skipn n l).
Proof.
  intro H. rewrite <- (firstn_skipn n l) in H. now apply Forall_app in H.
Qed.

Lemma wf_inserted (L : list jsstring) (n : nat) (sels sels' : list Selection) :
  wf_doc {| lines := L; selections := sels |} ->
  wf_doc {| lines := firstn n L ++ [[]] ++ skipn n L; selections := sels' |}.
Proof.
  intros [Hne Hall]. cbn [lines] in *. split; cbn [lines].
  - intro H. apply app_eq_nil in H as [_ H]. discriminate.
  - destruct (Forall_parts _ L n Hall) as [Hf Hs].
    apply Forall_app. split; [exact Hf|].
    apply Forall_app. split; [apply blank_line_wf|exact Hs].
Qed.

(** X4.  With the cursor on line l of a document, insert-line-above leaves
    a document one line longer in which line l is empty, the lines before
    it are as they were and every line from l on has moved down by one; the
    cursor is at column 0 of the empty line, and the document is still one
    of lines without line breaks. *)
Theorem insert_line_above_effect (f : Fields) (e : Editor) :
  wf_doc e -> 0 <= line (getCursor e) < lineCount e ->
  let l := line (getCursor e) in
  exists e1,
    snd (handleInsertLineAbove false {| fields := f; activeEditor := Some e |})
    = {| fields := f; activeEditor := Some e1 |}
    /\ listSelections e1 = [caret {| line := l; ch := 0 |}]
    /\ lineCount e1 = lineCount e + 1
    /\ (forall k, 0 <= k ->
          getLine e1 k = if k <? l then getLine e k
                         else if k =? l then [] else getLine e (k - 1))
    /\ wf_doc e1.
Proof.
  intros Hwf Hl l. rewrite (insert_above_editor f e Hwf Hl). fold l.
  eexists. split; [reflexivity|]. split; [reflexivity|].
  unfold lineCount in Hl. split; [|split].
  - unfold lineCount. cbn [lines].
    rewrite !length_app, length_firstn, length_skipn. cbn [List.length]. lia.
  - intros k Hk. rewrite getLine_inserted by lia.
    replace (Z.of_nat (Z.to_nat l)) with l by lia. reflexivity.
  - apply wf_inserted with (sels := selections e). now destruct e.
Qed.

Lemma insert_line_above_effect_witness :
  wf_doc MoreExamples.cursor_on_last
  /\ 0 <= line (getCursor MoreExamples.cursor_on_last)
     < lineCount MoreExamples.cursor_on_last
  /\ exists e1,
       snd (handleInsertLineAbove false
              {| fields := initial; activeEditor := Some MoreExamples.cursor_on_last |})
       = {| fields := initial; activeEditor := Some e1 |}
       /\ listSelections e1 = [caret (Examples.at_ 1 0)]
       /\ lines e1 = [lit "ab"; []; lit "cde"].
Proof.
  assert (Hwf : wf_doc MoreExamples.cursor_on_last) by wf_example.
  assert (Hl : 0 <= line (getCursor MoreExamples.cursor_on_last)
               < lineCount MoreExamples.cursor_on_last) by (cbn; lia).
  split; [exact Hwf|split; [exact Hl|]].
  destruct (insert_line_above_effect initial MoreExamples.cursor_on_last Hwf Hl)
    as (e1 & H1 & H2 & _).
  exists e1. split; [exact H1|split; [exact H2|]].
  cbn in H1. injection H1 as H1. now rewrite <- H1.
Defined.

(** X5.  With the cursor on line l of a document, insert-line-below leaves
    a document one line longer in which line l+1 is empty, the lines up to
    l are as they were and every line behind l has moved down by one, also
    when l is the last line (the empty line is then appended); the cursor
    is at column 0 of the empty line. *)
Theorem insert_line_below_effect (f : Fields) (e : Editor) :
  wf_doc e -> 0 <= line (getCursor e) < lineCount e ->
  let l := line (getCursor e) in
  exists e1,
    snd (handleInsertLineBelow false {| fields := f; activeEditor := Some e |})
    = {| fields := f; activeEditor := Some e1 |}
    /\ listSelections e1 = [caret {| line := l + 1; ch := 0 |}]
    /\ lineCount e1 = lineCount e + 1
    /\ (forall k, 0 <= k ->
          getLine e1 k = if k <? l + 1 then getLine e k
                         else if k =? l + 1 then [] else getLine e (k - 1))
    /\ (l = lineCount e - 1 -> lines e1 = lines e ++ [[]])
    /\ wf_doc e1.
Proof.
  intros Hwf Hl l. rewrite (insert_below_editor f e Hwf Hl). fold l.
  eexists. split; [reflexivity|]. split; [reflexivity|].
  unfold lineCount in Hl. split; [|split; [|split]].
  - unfold lineCount. cbn [lines].
    rewrite !length_app, length_firstn, length_skipn. cbn [List.length]. lia.
  - intros k Hk. rewrite getLine_inserted by lia.
    replace (Z.of_nat (Z.to_nat l + 1)) with (l + 1) by lia. reflexivity.
  - intro Hlast. cbn [lines]. unfold lineCount in Hlast.
    rewrite firstn_all2, skipn_all2 by lia. reflexivity.
  - apply wf_inserted with (sels := selections e). now destruct e.
Qed.

Lemma insert_line_below_effect_witness :
  wf_doc MoreExamples.cursor_on_last
  /\ 0 <= line (getCursor MoreExamples.cursor_on_last)
     < lineCount MoreExamples.cursor_on_last
  /\ exists e1,
       snd (handleInsertLineBelow false
              {| fields := initial; activeEditor := Some MoreExamples.cursor_on_last |})
       = {| fields := initial; activeEditor := Some e1 |}
       /\ listSelections e1 = [caret (Examples.at_ 2 0)]
       /\ lines e1 = [lit "ab"; lit "cde"; []].
Proof.
  assert (Hwf : wf_doc MoreExamples.cursor_on_last) by wf_example.
  assert (Hl : 0 <= line (getCursor MoreExamples.cursor_on_last)
               < lineCount MoreExamples.cursor_on_last) by (cbn; lia).
  split; [exact Hwf|split; [exact Hl|]].
  destruct (insert_line_below_effect initial MoreExamples.cursor_on_last Hwf Hl)
    as (e1 & H1 & H2 & _ & _ & H5 & _).
  exists e1. split; [exact H1|split; [exact H2|]].
  apply H5. reflexivity.
Defined.

(** X6.  Insert-line-below with the cursor on a line that has a line behind
    it leaves the editor that insert-line-above leaves with the cursor on
    that next line: the same document and the same cursor. *)
Theorem insert_below_is_insert_above_next (f : Fields) (e e' : Editor) :
  wf_doc e -> lines e' = lines e ->
  0 <= line (getCursor e) -> line (getCursor e) + 1 < lineCount e ->
  line (getCursor e') = line (getCursor e) + 1 ->
  snd (handleInsertLineBelow false {| fields := f; activeEditor := Some e |})
  = snd (handleInsertLineAbove false {| fields := f; activeEditor := Some e' |}).
Proof.
  intros Hwf Hlines H0 Hnext Hcur.
  assert (Hwf' : wf_doc e') by (unfold wf_doc in *; now rewrite Hlines).
  assert (Hcount : lineCount e' = lineCount e) by (unfold lineCount; now rewrite Hlines).
  rewrite (insert_below_editor f e Hwf) by lia.
  rewrite (insert_above_editor f e' Hwf') by lia.
  rewrite Hcur, Hlines.
  replace (Z.to_nat (line (getCursor e) + 1)) with (Z.to_nat (line (getCursor e)) + 1)%nat
    by lia.
  reflexivity.
Qed.

Lemma insert_below_is_insert_above_next_witness :
  wf_doc MoreExamples.cursor_on_first
  /\ snd (handleInsertLineBelow false
            {| fields := initial; activeEditor := Some MoreExamples.cursor_on_first |})
     = snd (handleInsertLineAbove false
              {| fields := initial; activeEditor := Some MoreExamples.cursor_on_last |}).
Proof.
  assert (Hwf : wf_doc MoreExamples.cursor_on_first) by wf_example.
  split; [exact Hwf|].
  apply (insert_below_is_insert_above_next initial MoreExamples.cursor_on_first
           MoreExamples.cursor_on_last Hwf eq_refl); cbn; lia.
Defined.

End InsertLineExtras.

(** ** Settings *)

Module SettingsFacts.
Import Settings.

Lemma get_set (k k' : string) (v : bool) (o : JSObject) :
  get k (set k' v o) = if String.eqb k k' then Some v else get k o.
Proof.
  induction o as [|[k0 v0] o IH]; cbn [set get].
  - destruct (String.eqb k k'); reflexivity.
  - destruct (String.eqb_spec k' k0) as [->|Hne]; cbn [get].
    + destruct (String.eqb k k0); reflexivity.
    + rewrite IH. destruct (String.eqb_spec k k0) as [->|Hne'].
      * destruct (String.eqb_spec k0 k') as [Heq|_]; [congruence|reflexivity].
      * reflexivity.
Qed.

(** A property of the source wins over the target's; a property the source
    does not have stays. *)
Lemma get_assign (k : string) (target s : JSObject) :
  NoDup (map fst s) ->
  get k (assign target (Some s))
  = match get k s with Some v => Some v | None => get k target end.
Proof.
  cbn [assign]. revert target. induction s as [|[k0 v0] s IH]; intros target Hnd.
  - reflexivity.
  - inversion Hnd as [|? ? Hnotin Hnd']; subst. cbn [fold_left fst snd get].
    rewrite IH by assumption. rewrite get_set.
    destruct (String.eqb_spec k k0) as [->|Hne]; [|reflexivity].
    destruct (get k0 s) as [v|] eqn:Hget; [|reflexivity].
    exfalso. apply Hnotin. clear - Hget.
    induction s as [|[k1 v1] s IH]; [discriminate|].
    cbn [get] in Hget. cbn [map fst].
    destruct (String.eqb_spec k0 k1) as [->|Hne]; [now left|right; now apply IH].
Qed.

Lemma set_keys (k : string) (v : bool) (o : JSObject) :
  map fst (set k v o)
  = if existsb (String.eqb k) (map fst o) then map fst o else map fst o ++ [k].
Proof.
  induction o as [|[k0 v0] o IH]; [reflexivity|].
  cbn [set map fst existsb].
  destruct (String.eqb_spec k k0) as [->|Hne]; cbn [map fst orb]; [reflexivity|].
  rewrite IH. destruct (existsb (String.eqb k) (map fst o)); reflexivity.
Qed.

(** Setting a property keeps the names of an object distinct. *)
Lemma set_NoDup (k : string) (v : bool) (o : JSObject) :
  NoDup (map fst o) -> NoDup (map fst (set k v o)).
Proof.
  intro Hnd. rewrite set_keys.
  destruct (existsb (String.eqb k) (map fst o)) eqn:Hex; [assumption|].
  apply NoDup_app; [assumption|repeat constructor; intros []|].
  intros x Hx [Heq|[]]. subst x.
  assert (existsb (String.eqb k) (map fst o) = true); [|congruence].
  apply existsb_exists. exists k. split; [assumption|apply String.eqb_refl].
Qed.

Lemma assign_NoDup (target : JSObject) (source : option JSObject) :
  NoDup (map fst target) -> NoDup (map fst (assign target source)).
Proof.
  destruct source as [s|]; [|trivial]. cbn [assign]. revert target.
  induction s as [|[k v] s IH]; intros target Hnd; [assumption|].
  cbn [fold_left fst snd]. apply IH. now apply set_NoDup.
Qed.

Lemma loadSettings_NoDup (defaults : JSObject) (stored : option JSObject) :
  NoDup (map fst (loadSettings defaults stored)).
Proof. unfold loadSettings. apply assign_NoDup, assign_NoDup. constructor. Qed.

Lemma get_loadSettings (k : string) (defaults : JSObject) (stored : option JSObject) :
  NoDup (map fst defaults) ->
  match stored with Some s => NoDup (map fst s) | None => True end ->
  get k (loadSettings defaults stored)
  = match stored with
    | Some s => match get k s with Some v => Some v | None => get k defaults end
    | None => get k defaults
    end.
Proof.
  intros Hd Hs. unfold loadSettings.
  assert (Hbase : get k (assign [] (Some defaults)) = get k defaults).
  { rewrite get_assign by assumption. now destruct (get k defaults). }
  destruct stored as [s|]; [|exact Hbase].
  now rewrite get_assign, Hbase by assumption.
Qed.

End SettingsFacts.

Module SettingsExtras.
Import Settings SettingsFacts.

(** X7.  [loadSettings] merges what is stored over the defaults: a setting
    that is stored has its stored value, a setting that is not stored (or
    when nothing is stored at all) has its default, and a name that is
    neither stored nor a default is undefined. *)
Theorem load_settings_merges (k : string) (defaults : JSObject) (stored : option JSObject) :
  NoDup (map fst defaults) ->
  match stored with Some s => NoDup (map fst s) | None => True end ->
  get k (loadSettings defaults stored)
  = match stored with
    | Some s => match get k s with Some v => Some v | None => get k defaults end
    | None => get k defaults
    end.
Proof.
  intros Hd Hs. unfold loadSettings.
  assert (Hbase : get k (assign [] (Some defaults)) = get k defaults).
  { rewrite get_assign by assumption. now destruct (get k defaults). }
  destruct stored as [s|]; [|exact Hbase].
  now rewrite get_assign, Hbase by assumption.
Qed.

Lemma load_settings_merges_witness :
  NoDup (map fst DEFAULT_SETTINGS)
  /\ get "enableDuplicateLineUp"
         (loadSettings DEFAULT_SETTINGS (Some [("enableDuplicateLineUp"%string, false)]))
     = Some false
  /\ get "enableDuplicateLineDown"
         (loadSettings DEFAULT_SETTINGS (Some [("enableDuplicateLineUp"%string, false)]))
     = Some true.
Proof.
  assert (Hd : NoDup (map fst DEFAULT_SETTINGS)).
  { repeat constructor; simpl; intuition discriminate. }
  assert (Hs : NoDup (map fst [("enableDuplicateLineUp"%string, false)])).
  { repeat constructor. intros []. }
  split; [exact Hd|]. split.
  - exact (load_settings_merges "enableDuplicateLineUp" DEFAULT_SETTINGS
             (Some [("enableDuplicateLineUp"%string, false)]) Hd Hs).
  - exact (load_settings_merges "enableDuplicateLineDown" DEFAULT_SETTINGS
             (Some [("enableDuplicateLineUp"%string, false)]) Hd Hs).
Defined.

(** X8.  A toggle of the settings tab survives a reload: after [onChange]
    has set a setting and saved, loading again gives the settings object
    back, with the toggled setting at its new value and every other setting
    as it was before the toggle. *)
Theorem toggle_survives_reload (defaults : JSObject) (stored : option JSObject)
        (k : string) (value : bool) :
  NoDup (map fst defaults) ->
  match stored with Some s => NoDup (map fst s) | None => True end ->
  let settings := loadSettings defaults stored in
  let settings1 := fst (onChange k value settings) in
  let reloaded := loadSettings defaults (snd (onChange k value settings)) in
  (forall k', get k' reloaded = get k' settings1)
  /\ get k reloaded = Some value
  /\ (forall k', k' <> k -> get k' reloaded = get k' settings).
Proof.
  intros Hd Hs settings settings1 reloaded.
  assert (Hround : forall k', get k' reloaded = get k' settings1).
  { intro k'. unfold reloaded, onChange, saveSettings. cbn [snd].
    rewrite get_loadSettings;
      [|assumption|apply set_NoDup, loadSettings_NoDup].
    fold settings. fold settings1. change (set k value settings) with settings1.
    destruct (get k' settings1) as [v|] eqn:Hget; [reflexivity|].
    unfold settings1, onChange in Hget. cbn [fst] in Hget. rewrite get_set in Hget.
    destruct (String.eqb k' k); [discriminate|].
    unfold settings in Hget. rewrite get_loadSettings in Hget by assumption.
    destruct stored as [s|]; [|exact Hget].
    destruct (get k' s); [discriminate|exact Hget]. }
  split; [exact Hround|]. split.
  - rewrite Hround. unfold settings1, onChange. cbn [fst].
    now rewrite get_set, String.eqb_refl.
  - intros k' Hne. rewrite Hround. unfold settings1, onChange. cbn [fst].
    rewrite get_set. destruct (String.eqb_spec k' k); [contradiction|reflexivity].
Qed.

Lemma toggle_survives_reload_witness :
  NoDup (map fst DEFAULT_SETTINGS_7)
  /\ get "enableSelectLine"
         (loadSettings DEFAULT_SETTINGS_7
            (snd (onChange "enableSelectLine" false
                    (loadSettings DEFAULT_SETTINGS_7 None))))
     = Some false
  /\ get "enableInsertLineAbove"
         (loadSettings DEFAULT_SETTINGS_7
            (snd (onChange "enableSelectLine" false
                    (loadSettings DEFAULT_SETTINGS_7 None))))
     = Some true.
Proof.
  assert (Hd : NoDup (map fst DEFAULT_SETTINGS_7)).
  { repeat constructor; simpl; intuition discriminate. }
  split; [exact Hd|].
  destruct (toggle_survives_reload DEFAULT_SETTINGS_7 None "enableSelectLine" false Hd I)
    as (_ & H2 & H3).
  split; [exact H2|].
  rewrite H3 by discriminate. reflexivity.
Defined.

End SettingsExtras.

(** ** The versions of duplicate line on a single cursor *)

Module CursorLineFacts.
Import JS Host Plugin LineCommands JSFacts HostFacts DuplicateFacts DuplicateUpFacts
       InsertLineFacts Aux.

Lemma one_line_wf (e : Editor) (l : Z) :
  wf_doc e -> Forall (fun x : jsstring => ~ In NL x) [getLine e l].
Proof. intro Hwf. constructor; [now apply wf_line|constructor]. Qed.

Lemma lines_between_one (e : Editor) (l : Z) : lines_between e l l = [getLine e l].
Proof.
  unfold lines_between. rewrite Z.sub_diag. change (Z.to_nat (0 + 1)) with 1%nat.
  cbn [seq map]. change (Z.of_nat 0) with 0. now rewrite Z.add_0_r.
Qed.

Section OneCursor.

Variable e : Editor.
Variable p : Pos.
Hypothesis Hwf : wf_doc e.
Hypothesis Hp : valid_pos e p.
Hypothesis Hone : selections e = [caret p].

Lemma cursor_is_p : getCursor e = p.
Proof. unfold getCursor, primary. now rewrite Hone. Qed.

(** The editor after duplicating the cursor's line downwards. *)
Lemma duplicateDown_editor :
  CursorLine.duplicateDown e
  = {| lines := firstn (Z.to_nat (line p) + 1) (lines e) ++ [getLine e (line p)]
                  ++ skipn (Z.to_nat (line p) + 1) (lines e);
       selections := [caret {| line := line p + 1; ch := ch p |}] |}.
Proof.
  destruct Hp as [Hl Hc]. unfold CursorLine.duplicateDown. rewrite cursor_is_p.
  change (replaceRange ?t ?q (Some ?q) e) with (replaceRange t q None e).
  pose proof (insert_lines_after e (line p) [getLine e (line p)] Hwf Hl) as Hlines.
  cbn [join] in Hlines.
  specialize (Hlines ltac:(discriminate) (one_line_wf e (line p) Hwf)).
  rewrite setCursor_inside.
  - now rewrite Hlines.
  - unfold lineCount in Hl.
    split; cbn [line ch].
    + unfold lineCount. rewrite Hlines, !length_app, length_firstn, length_skipn.
      cbn [List.length]. lia.
    + match goal with
      | |- context [getLine ?r _] =>
          replace r with {| lines := lines r; selections := selections e |}
            by reflexivity
      end.
      rewrite Hlines, getLine_inserted by lia.
      destruct (Z.ltb_spec (line p + 1) (Z.of_nat (Z.to_nat (line p) + 1))); [lia|].
      destruct (Z.eqb_spec (line p + 1) (Z.of_nat (Z.to_nat (line p) + 1))); [|lia].
      exact Hc.
Qed.

(** The editor after duplicating the cursor's line upwards. *)
Lemma duplicateUp_editor :
  CursorLine.duplicateUp e
  = {| lines := firstn (Z.to_nat (line p)) (lines e) ++ [getLine e (line p)]
                  ++ skipn (Z.to_nat (line p)) (lines e);
       selections := [caret p] |}.
Proof.
  destruct Hp as [Hl Hc]. unfold CursorLine.duplicateUp. rewrite cursor_is_p.
  change (replaceRange ?t ?q (Some ?q) e) with (replaceRange t q None e).
  pose proof (insert_lines_before e (line p) [getLine e (line p)] Hwf Hl) as Hlines.
  cbn [join] in Hlines.
  specialize (Hlines ltac:(discriminate) (one_line_wf e (line p) Hwf)).
  replace {| line := line p; ch := ch p |} with p by (now destruct p).
  rewrite setCursor_inside.
  - now rewrite Hlines.
  - unfold lineCount in Hl.
    split; cbn [line ch].
    + unfold lineCount. rewrite Hlines, !length_app, length_firstn, length_skipn.
      cbn [List.length]. lia.
    + match goal with
      | |- context [getLine ?r _] =>
          replace r with {| lines := lines r; selections := selections e |}
            by reflexivity
      end.
      rewrite Hlines, getLine_inserted by lia.
      destruct (Z.ltb_spec (line p) (Z.of_nat (Z.to_nat (line p)))); [lia|].
      destruct (Z.eqb_spec (line p) (Z.of_nat (Z.to_nat (line p)))); [|lia].
      exact Hc.
Qed.

Lemma caret_valid : valid_selection e (caret p).
Proof. split; exact Hp. Qed.

(** The handler for selections, on the one cursor. *)
Lemma handler_down_on_cursor (f : Fields) :
  snd (handleDuplicateLineDown false {| fields := f; activeEditor := Some e |})
  = {| fields := f; activeEditor := Some (CursorLine.duplicateDown e) |}.
Proof.
  rewrite (handler_one_selection f e (caret p) Hwf caret_valid Hone).
  rewrite duplicateDown_editor.
  rewrite (duplicateDownEntry_lines e (caret p) Hwf caret_valid). cbv zeta.
  unfold Spec.duplicated_block. cbn [caret anchor head].
  rewrite Z.min_id, Z.max_id, Z.eqb_refl, lines_between_one.
  replace (line p + (line p - line p + 1)) with (line p + 1) by lia.
  reflexivity.
Qed.

Lemma handler_up_on_cursor (f : Fields) :
  snd (handleDuplicateLineUp false {| fields := f; activeEditor := Some e |})
  = {| fields := f; activeEditor := Some (CursorLine.duplicateUp e) |}.
Proof.
  rewrite (up_handler_one_selection e (caret p) Hwf caret_valid f Hone).
  rewrite duplicateUp_editor.
  rewrite (up_entry_lines e (caret p) Hwf caret_valid).
  rewrite (up_entry_selection e (caret p) Hwf caret_valid).
  cbn [caret anchor head].
  rewrite Z.min_id, Z.max_id, Z.eqb_refl, lines_between_one.
  destruct p as [l c]. reflexivity.
Qed.

(** Both directions leave the same lines. *)
Lemma up_down_same_lines :
  lines (CursorLine.duplicateUp e) = lines (CursorLine.duplicateDown e).
Proof.
  destruct Hp as [Hl Hc].
  rewrite duplicateUp_editor, duplicateDown_editor. cbn [lines].
  rewrite (firstn_succ_line e (line p) Hl), (skipn_line e (line p) Hl).
  rewrite <- !app_assoc. reflexivity.
Qed.

End OneCursor.

End CursorLineFacts.

Module CursorLineExtras.
Import JS Host Plugin LineCommands JSFacts HostFacts DuplicateFacts DuplicateUpFacts
       InsertLineFacts CursorLineFacts Aux.

(** X9.  On a single cursor the three versions of duplicate-line-down (the
    callback behind a setting, the try-guarded handler when no call raises,
    the handler for selections) leave the same editor: the cursor's line
    once more behind itself, and the cursor one line down at the column it
    had, on a line with the text of the line it came from. *)
Theorem duplicate_down_versions_agree (f : Fields) (settings : Settings.JSObject)
        (console : list jsstring) (e : Editor) (p : Pos) :
  wf_doc e -> valid_pos e p -> selections e = [caret p] ->
  Settings.enabled "enableDuplicateLineDown" settings = true ->
  let r := {| lines := firstn (Z.to_nat (line p) + 1) (lines e) ++ [getLine e (line p)]
                         ++ skipn (Z.to_nat (line p) + 1) (lines e);
              selections := [caret {| line := line p + 1; ch := ch p |}] |} in
  CursorLine.duplicateLineDownCallback settings false (Some e) = (true, Some r)
  /\ TryGuarded.handleDuplicateLineDown TryGuarded.no_fault false
       {| TryGuarded.editor := Some e; TryGuarded.console := console |}
     = (TryGuarded.Value true,
        {| TryGuarded.editor := Some r; TryGuarded.console := console |})
  /\ snd (handleDuplicateLineDown false {| fields := f; activeEditor := Some e |})
     = {| fields := f; activeEditor := Some r |}
  /\ getLine r (line p + 1) = getLine e (line p)
  /\ valid_pos r {| line := line p + 1; ch := ch p |}.
Proof.
  intros Hwf Hp Hone Hon r.
  pose proof (duplicateDown_editor e p Hwf Hp Hone) as Hdown. fold r in Hdown.
  assert (Hline : getLine r (line p + 1) = getLine e (line p)).
  { destruct Hp as [Hl _]. unfold lineCount in Hl. unfold r.
    rewrite getLine_inserted by lia.
    destruct (Z.ltb_spec (line p + 1) (Z.of_nat (Z.to_nat (line p) + 1))); [lia|].
    destruct (Z.eqb_spec (line p + 1) (Z.of_nat (Z.to_nat (line p) + 1))); [|lia].
    reflexivity. }
  split; [|split; [|split; [|split]]].
  - unfold CursorLine.duplicateLineDownCallback. rewrite Hon. cbn [negb option_map].
    now rewrite Hdown.
  - rewrite guarded_edit, <- Hdown. reflexivity.
  - rewrite (handler_down_on_cursor e p Hwf Hp Hone f). now rewrite Hdown.
  - exact Hline.
  - destruct Hp as [Hl Hc]. unfold lineCount in Hl. split; cbn [line ch].
    + unfold lineCount, r. cbn [lines].
      rewrite !length_app, length_firstn, length_skipn. cbn [List.length]. lia.
    + now rewrite Hline.
Qed.

Lemma duplicate_down_versions_agree_witness :
  wf_doc MoreExamples.cursor_on_first
  /\ valid_pos MoreExamples.cursor_on_first (Examples.at_ 0 1)
  /\ CursorLine.duplicateLineDownCallback Settings.DEFAULT_SETTINGS false
       (Some MoreExamples.cursor_on_first)
     = (true, Some {| lines := [lit "ab"; lit "ab"; lit "cde"];
                      selections := [caret (Examples.at_ 1 1)] |})
  /\ snd (handleDuplicateLineDown false
            {| fields := initial; activeEditor := Some MoreExamples.cursor_on_first |})
     = {| fields := initial;
          activeEditor := Some {| lines := [lit "ab"; lit "ab"; lit "cde"];
                                  selections := [caret (Examples.at_ 1 1)] |} |}.
Proof.
  assert (Hwf : wf_doc MoreExamples.cursor_on_first) by wf_example.
  assert (Hp : valid_pos MoreExamples.cursor_on_first (Examples.at_ 0 1))
    by valid_example.
  split; [exact Hwf|split; [exact Hp|]].
  destruct (duplicate_down_versions_agree initial Settings.DEFAULT_SETTINGS []
              MoreExamples.cursor_on_first (Examples.at_ 0 1) Hwf Hp eq_refl eq_refl)
    as (H1 & _ & H3 & _).
  split; [exact H1|exact H3].
Defined.

(** X10.  On a single cursor the three versions of duplicate-line-up (the
    callback behind a setting, the handler of the version with seven
    commands, the handler for selections) leave the same editor: the
    cursor's line once more in front of itself and the cursor where it was;
    the document is the one duplicate-line-down leaves. *)
Theorem duplicate_up_versions_agree (f : Fields) (settings : Settings.JSObject)
        (e : Editor) (p : Pos) :
  wf_doc e -> valid_pos e p -> selections e = [caret p] ->
  Settings.enabled "enableDuplicateLineUp" settings = true ->
  let r := {| lines := firstn (Z.to_nat (line p)) (lines e) ++ [getLine e (line p)]
                         ++ skipn (Z.to_nat (line p)) (lines e);
              selections := [caret p] |} in
  CursorLine.duplicateLineUpCallback settings false (Some e) = (true, Some r)
  /\ CursorLine.handleDuplicateLineUp false (Some e) = (true, Some r)
  /\ snd (handleDuplicateLineUp false {| fields := f; activeEditor := Some e |})
     = {| fields := f; activeEditor := Some r |}
  /\ lines r = lines (CursorLine.duplicateDown e)
  /\ getLine r (line p) = getLine e (line p).
Proof.
  intros Hwf Hp Hone Hon r.
  pose proof (duplicateUp_editor e p Hwf Hp Hone) as Hup. fold r in Hup.
  split; [|split; [|split; [|split]]].
  - unfold CursorLine.duplicateLineUpCallback. rewrite Hon. cbn [negb option_map].
    now rewrite Hup.
  - rewrite <- Hup. reflexivity.
  - rewrite (handler_up_on_cursor e p Hwf Hp Hone f). now rewrite Hup.
  - rewrite <- Hup. apply (up_down_same_lines e p Hwf Hp Hone).
  - destruct Hp as [Hl _]. unfold lineCount in Hl. unfold r.
    rewrite getLine_inserted by lia.
    destruct (Z.ltb_spec (line p) (Z.of_nat (Z.to_nat (line p)))); [lia|].
    destruct (Z.eqb_spec (line p) (Z.of_nat (Z.to_nat (line p)))); [|lia].
    reflexivity.
Qed.

Lemma duplicate_up_versions_agree_witness :
  wf_doc MoreExamples.cursor_on_last
  /\ valid_pos MoreExamples.cursor_on_last (Examples.at_ 1 2)
  /\ CursorLine.handleDuplicateLineUp false (Some MoreExamples.cursor_on_last)
     = (true, Some {| lines := [lit "ab"; lit "cde"; lit "cde"];
                      selections := [caret (Examples.at_ 1 2)] |})
  /\ snd (handleDuplicateLineUp false
            {| fields := initial; activeEditor := Some MoreExamples.cursor_on_last |})
     = {| fields := initial;
          activeEditor := Some {| lines := [lit "ab"; lit "cde"; lit "cde"];
                                  selections := [caret (Examples.at_ 1 2)] |} |}.
Proof.
  assert (Hwf : wf_doc MoreExamples.cursor_on_last) by wf_example.
  assert (Hp : valid_pos MoreExamples.cursor_on_last (Examples.at_ 1 2))
    by valid_example.
  split; [exact Hwf|split; [exact Hp|]].
  destruct (duplicate_up_versions_agree initial Settings.DEFAULT_SETTINGS
              MoreExamples.cursor_on_last (Examples.at_ 1 2) Hwf Hp eq_refl eq_refl)
    as (_ & H2 & H3 & _).
  split; [exact H2|exact H3].
Defined.

(** X11.  The setting is the gate of the first version's commands: once the
    toggle of duplicate-line-down has been turned off and the settings have
    been loaded again, the command's callback answers false and leaves the
    editor alone in both modes, duplicate-line-up behaves as before the
    toggle, and turning the toggle on again brings the command back. *)
Theorem setting_gates_command (stored : option Settings.JSObject) (checking : bool)
        (view : option Editor) :
  match stored with Some s => NoDup (map fst s) | None => True end ->
  let settings := Settings.loadSettings Settings.DEFAULT_SETTINGS stored in
  let off := Settings.loadSettings Settings.DEFAULT_SETTINGS
               (snd (Settings.onChange "enableDuplicateLineDown" false settings)) in
  let on := Settings.loadSettings Settings.DEFAULT_SETTINGS
              (snd (Settings.onChange "enableDuplicateLineDown" true off)) in
  CursorLine.duplicateLineDownCallback off checking view = (false, view)
  /\ CursorLine.duplicateLineUpCallback off checking view
     = CursorLine.duplicateLineUpCallback settings checking view
  /\ CursorLine.duplicateLineDownCallback on checking view
     = (true, if checking then view else option_map CursorLine.duplicateDown view).
Proof.
  intros Hs settings off on.
  assert (Hd : NoDup (map fst Settings.DEFAULT_SETTINGS)).
  { repeat constructor; simpl; intuition discriminate. }
  assert (Hget : forall (o : Settings.JSObject) k v k',
             NoDup (map fst o) ->
             Settings.get k'
               (Settings.loadSettings Settings.DEFAULT_SETTINGS
                  (snd (Settings.onChange k v o)))
             = if String.eqb k' k then Some v
               else match Settings.get k' o with
                    | Some x => Some x
                    | None => Settings.get k' Settings.DEFAULT_SETTINGS
                    end).
  { intros o k v k' Ho. unfold Settings.onChange, Settings.saveSettings. cbn [snd].
    rewrite SettingsFacts.get_loadSettings;
      [|assumption|now apply SettingsFacts.set_NoDup].
    rewrite SettingsFacts.get_set. destruct (String.eqb k' k); reflexivity. }
  assert (Hnd : NoDup (map fst settings)) by apply SettingsFacts.loadSettings_NoDup.
  assert (Hnd' : NoDup (map fst off)) by apply SettingsFacts.loadSettings_NoDup.
  split; [|split].
  - unfold CursorLine.duplicateLineDownCallback, Settings.enabled, off.
    rewrite Hget by assumption. reflexivity.
  - unfold CursorLine.duplicateLineUpCallback, Settings.enabled, off.
    rewrite Hget by assumption. cbn [String.eqb Ascii.eqb Bool.eqb andb].
    destruct (Settings.get "enableDuplicateLineUp" settings) as [b|] eqn:Hup;
      [reflexivity|].
    unfold settings in Hup. rewrite SettingsFacts.get_loadSettings in Hup by assumption.
    destruct stored as [s|]; [|discriminate].
    destruct (Settings.get "enableDuplicateLineUp" s); discriminate.
  - unfold CursorLine.duplicateLineDownCallback, Settings.enabled, on.
    rewrite Hget by assumption. cbn [String.eqb Ascii.eqb Bool.eqb andb].
    destruct checking; reflexivity.
Qed.

Lemma setting_gates_command_witness :
  CursorLine.duplicateLineDownCallback
    (Settings.loadSettings Settings.DEFAULT_SETTINGS
       (snd (Settings.onChange "enableDuplicateLineDown" false
               (Settings.loadSettings Settings.DEFAULT_SETTINGS None))))
    false (Some MoreExamples.cursor_on_first)
  = (false, Some MoreExamples.cursor_on_first).
Proof.
  exact (proj1 (setting_gates_command None false (Some MoreExamples.cursor_on_first) I)).
Defined.

End CursorLineExtras.

(** ** The word under the cursor *)

Module WordAtFacts.
Import JS Host Plugin JSFacts HostFacts.

Lemma last_occurrence_upto_spec (c : unit16) (s : jsstring) (limit : nat) :
  match last_occurrence_upto [c] s limit with
  | Some i => (i <= limit)%nat /\ nth_error s i = Some c
              /\ forall j, (i < j <= limit)%nat -> nth_error s j <> Some c
  | None => forall j, (j <= limit)%nat -> nth_error s j <> Some c
  end.
Proof.
  revert s. induction limit as [|l IH]; intros s.
  - assert (H : last_occurrence_upto [c] s 0 = if starts_with [c] s then Some O else None)
      by (destruct s; reflexivity).
    rewrite H, starts_with_unit. destruct s as [|x s'].
    + intros j _. now destruct j.
    + destruct (N.eqb_spec x c) as [->|Hx].
      * split; [lia|split; [reflexivity|intros j Hj; lia]].
      * intros j Hj. replace j with O by lia. cbn. congruence.
  - destruct s as [|x s'].
    + cbn. intros j _. now destruct j.
    + cbn [last_occurrence_upto]. specialize (IH s').
      destruct (last_occurrence_upto [c] s' l) as [i|].
      * destruct IH as (Hi & Hn & Hafter).
        split; [lia|split; [exact Hn|]].
        intros [|j] Hj; [lia|]. cbn. apply Hafter. lia.
      * rewrite starts_with_unit. destruct (N.eqb_spec x c) as [->|Hx].
        -- split; [lia|split; [reflexivity|]].
           intros [|j] Hj; [lia|]. cbn. apply IH. lia.
        -- intros [|j] Hj; [cbn; congruence|]. cbn. apply IH. lia.
Qed.

Lemma first_occurrence_spec (c : unit16) (s : jsstring) :
  match first_occurrence [c] s with
  | Some i => nth_error s i = Some c /\ forall j, (j < i)%nat -> nth_error s j <> Some c
  | None => forall j, nth_error s j <> Some c
  end.
Proof.
  induction s as [|x s' IH].
  - cbn. intros j. now destruct j.
  - cbn [first_occurrence]. rewrite starts_with_unit.
    destruct (N.eqb_spec x c) as [->|Hx].
    + split; [reflexivity|intros j Hj; lia].
    + destruct (first_occurrence [c] s') as [i|]; cbn [option_map].
      * destruct IH as [Hn Hbefore]. split; [exact Hn|].
        intros [|j] Hj; [cbn; congruence|]. cbn. apply Hbefore. lia.
      * intros [|j]; [cbn; congruence|]. cbn. apply IH.
Qed.

(** The column of the first space at or behind column [c], or the length of
    the line. *)
Lemma word_end (ln : jsstring) (c : nat) :
  (c <= List.length ln)%nat ->
  exists we : nat,
    (if indexOf ln [SP] (Z.of_nat c) =? -1 then length ln
     else indexOf ln [SP] (Z.of_nat c)) = Z.of_nat we
    /\ (c <= we <= List.length ln)%nat
    /\ (forall j, (c <= j < we)%nat -> nth_error ln j <> Some SP)
    /\ (we = List.length ln \/ nth_error ln we = Some SP).
Proof.
  intros Hc. unfold indexOf, clamp, length.
  replace (Z.to_nat (Z.min (Z.max (Z.of_nat c) 0) (Z.of_nat (List.length ln)))) with c
    by lia.
  pose proof (first_occurrence_spec SP (skipn c ln)) as Hspec.
  destruct (first_occurrence [SP] (skipn c ln)) as [i|].
  - destruct Hspec as [Hn Hbefore]. rewrite nth_error_skipn in Hn.
    exists (c + i)%nat.
    destruct (Z.eqb_spec (Z.of_nat (c + i)) (-1)) as [Hneg|_]; [lia|].
    split; [reflexivity|].
    assert (Hlt : (c + i < List.length ln)%nat)
      by (apply nth_error_Some; congruence).
    split; [lia|split; [|now right]].
    intros j Hj. replace j with (c + (j - c))%nat by lia.
    rewrite <- nth_error_skipn. apply Hbefore. lia.
  - exists (List.length ln). cbn [Z.eqb]. split; [reflexivity|].
    split; [lia|split; [|now left]].
    intros j Hj. replace j with (c + (j - c))%nat by lia.
    rewrite <- nth_error_skipn. apply Hspec.
Qed.

(** The column behind the last space in front of column [c], or 0. *)
Lemma word_start (ln : jsstring) (c : nat) :
  (c <= List.length ln)%nat ->
  (c = O -> nth_error ln O <> Some SP) ->
  exists ws : nat,
    lastIndexOf ln [SP] (Some (Z.of_nat c - 1)) + 1 = Z.of_nat ws
    /\ (ws <= c)%nat
    /\ (forall j, (ws <= j < c)%nat -> nth_error ln j <> Some SP)
    /\ (ws = O \/ nth_error ln (ws - 1) = Some SP).
Proof.
  intros Hc H0. unfold lastIndexOf, clamp, length.
  replace (Z.to_nat (Z.min (Z.max (Z.of_nat c - 1) 0) (Z.of_nat (List.length ln))))
    with (c - 1)%nat by lia.
  pose proof (last_occurrence_upto_spec SP ln (c - 1)) as Hspec.
  destruct (last_occurrence_upto [SP] ln (c - 1)) as [i|].
  - destruct Hspec as (Hi & Hn & Hafter).
    assert (Hpos : (0 < c)%nat).
    { destruct c; [|lia]. replace i with O in Hn by lia. now elim (H0 eq_refl). }
    exists (S i). split; [lia|split; [lia|split]].
    + intros j Hj. apply Hafter. lia.
    + right. now replace (S i - 1)%nat with i by lia.
  - exists O. split; [reflexivity|split; [lia|split; [|now left]]].
    intros j Hj. apply Hspec. lia.
Qed.

Lemma slice_inside (s : jsstring) (a b : nat) :
  (a <= b <= List.length s)%nat ->
  slice s (Z.of_nat a) (Z.of_nat b) = firstn (b - a) (skipn a s).
Proof.
  intros H. unfold slice, rel_index, length.
  destruct (Z.ltb_spec (Z.of_nat a) 0); [lia|].
  destruct (Z.ltb_spec (Z.of_nat b) 0); [lia|].
  f_equal; [lia|f_equal; lia].
Qed.

Lemma run_without (c : unit16) (s : jsstring) (a b : nat) :
  (forall j, (a <= j < b)%nat -> nth_error s j <> Some c) ->
  ~ In c (firstn (b - a) (skipn a s)).
Proof.
  intros Hrun Hin. apply In_nth_error in Hin as [k Hk].
  assert (Hlt : (k < b - a)%nat).
  { assert (k < List.length (firstn (b - a) (skipn a s)))%nat
      by (apply nth_error_Some; congruence).
    rewrite length_firstn in H. lia. }
  rewrite nth_error_firstn in Hk.
  destruct (Nat.ltb_spec k (b - a)); [|lia].
  rewrite nth_error_skipn in Hk. apply (Hrun (a + k)%nat); [lia|exact Hk].
Qed.

(** The word around a column: the longest run without a space that touches
    the column. *)
Lemma wordAt_run (ln : jsstring) (c : nat) :
  (c <= List.length ln)%nat ->
  (c = O -> nth_error ln O <> Some SP) ->
  exists pre word post,
    ln = pre ++ word ++ post
    /\ wordAt ln (Z.of_nat c) = (length pre, word)
    /\ ~ In SP word
    /\ (pre = [] \/ exists pre', pre = pre' ++ [SP])
    /\ (post = [] \/ exists post', post = SP :: post')
    /\ length pre <= Z.of_nat c <= length pre + length word.
Proof.
  intros Hc H0.
  destruct (word_start ln c Hc H0) as (ws & Hws & Hle & Hrun1 & Hmax1).
  destruct (word_end ln c Hc) as (we & Hwe & Hge & Hrun2 & Hmax2).
  exists (firstn ws ln), (firstn (we - ws) (skipn ws ln)), (skipn we ln).
  assert (Hpre : List.length (firstn ws ln) = ws) by (rewrite length_firstn; lia).
  split; [|split; [|split; [|split; [|split]]]].
  - rewrite <- (firstn_skipn ws ln) at 1. f_equal.
    rewrite <- (firstn_skipn (we - ws) (skipn ws ln)) at 1. f_equal.
    rewrite skipn_skipn. f_equal. lia.
  - unfold wordAt. rewrite Hws, Hwe. unfold length at 1. rewrite Hpre.
    f_equal. apply slice_inside. lia.
  - apply run_without. intros j Hj.
    destruct (Nat.lt_ge_cases j c); [apply Hrun1|apply Hrun2]; lia.
  - destruct Hmax1 as [->|Hsp]; [now left|].
    destruct ws as [|w]; [now left|right].
    replace (S w - 1)%nat with w in Hsp by lia.
    exists (firstn w ln). now apply firstn_succ_snoc.
  - destruct Hmax2 as [->|Hsp]; [left; apply skipn_all|right].
    rewrite <- (Nat.add_0_r we), <- nth_error_skipn in Hsp.
    destruct (skipn we ln) as [|x post']; [discriminate|].
    injection Hsp as ->. now exists post'.
  - unfold length. rewrite Hpre, length_firstn, length_skipn. lia.
Qed.

(** At column 0 of a line that starts with a space, the search for the
    space in front of the cursor finds this space: the word is empty and
    starts at column 1. *)
Lemma wordAt_leading_space (rest : jsstring) : wordAt (SP :: rest) 0 = (1, []).
Proof.
  unfold wordAt.
  assert (H1 : lastIndexOf (SP :: rest) [SP] (Some (0 - 1)) = 0).
  { unfold lastIndexOf, clamp, length.
    replace (Z.to_nat (Z.min (Z.max (0 - 1) 0) (Z.of_nat (List.length (SP :: rest)))))
      with O by lia.
    reflexivity. }
  assert (H2 : indexOf (SP :: rest) [SP] 0 = 0).
  { unfold indexOf, clamp, length.
    replace (Z.to_nat (Z.min (Z.max 0 0) (Z.of_nat (List.length (SP :: rest)))))
      with O by lia.
    reflexivity. }
  rewrite H1, H2. cbn [Z.add Z.eqb]. f_equal.
  unfold slice, rel_index, length. cbn [List.length].
  destruct (Z.ltb_spec 1 0); [lia|]. destruct (Z.ltb_spec 0 0); [lia|].
  replace (Z.to_nat (Z.min 0 (Z.of_nat (S (List.length rest)))
                     - Z.min 1 (Z.of_nat (S (List.length rest))))) with O by lia.
  reflexivity.
Qed.

Lemma caret_selects_nothing (e : Editor) (p : Pos) :
  valid_pos e p -> selections e = [caret p] -> getSelection e = [].
Proof.
  intros Hp Hone. unfold getSelection, primary. rewrite Hone. cbn [last].
  unfold sel_from, sel_to, caret. cbn [anchor head].
  destruct (pos_leb p p); unfold getRange; rewrite (clipPos_valid e p Hp), Z.eqb_refl;
    rewrite Z.max_id; unfold slice;
    now replace (Z.to_nat (rel_index (length (getLine e (line p))) (ch p)
                           - rel_index (length (getLine e (line p))) (ch p))) with O by lia.
Qed.

End WordAtFacts.

Module WordAtExtras.
Import JS Host Plugin JSFacts HostFacts WordFacts WordAtFacts Aux.

(** X12.  With a collapsed cursor, select-word selects the word under the
    cursor: the longest run without a space that touches the cursor's
    column (a space or the line's start in front of it, a space or the
    line's end behind it).  Both versions of the handler install this
    selection, the selected text is the word, and the version that records
    the word records it.  (Left out: column 0 of a line that starts with a
    space.) *)
Theorem select_word_under_cursor (f : Fields) (e : Editor) (p : Pos) :
  valid_pos e p -> selections e = [caret p] ->
  (ch p = 0 -> nth_error (getLine e (line p)) 0 <> Some SP) ->
  exists pre word post,
    getLine e (line p) = pre ++ word ++ post
    /\ ~ In SP word
    /\ (pre = [] \/ exists pre', pre = pre' ++ [SP])
    /\ (post = [] \/ exists post', post = SP :: post')
    /\ length pre <= ch p <= length pre + length word
    /\ let selected :=
         {| lines := lines e;
            selections :=
              [ {| anchor := {| line := line p; ch := length pre |};
                   head := {| line := line p; ch := length pre + length word |} |} ] |} in
       snd (handleSelectWordOrExpand false {| fields := f; activeEditor := Some e |})
       = {| fields := f; activeEditor := Some selected |}
       /\ (lastSelectedWord f = None ->
           snd (TryGuarded.handleSelectWordOrExpand false
                  {| fields := f; activeEditor := Some e |})
           = {| fields := {| selectLineCount := selectLineCount f;
                             lastSelectedLine := lastSelectedLine f;
                             lastSelectedWord := Some word |};
                activeEditor := Some selected |})
       /\ getSelection selected = word.
Proof.
  intros Hp Hone H0.
  pose proof Hp as [Hl Hc].
  assert (Hc' : (Z.to_nat (ch p) <= List.length (getLine e (line p)))%nat)
    by (unfold length in Hc; lia).
  assert (H0' : Z.to_nat (ch p) = O -> nth_error (getLine e (line p)) 0 <> Some SP)
    by (intros Hz; apply H0; lia).
  destruct (wordAt_run (getLine e (line p)) (Z.to_nat (ch p)) Hc' H0')
    as (pre & word & post & Hln & Hword & Hno & Hpre & Hpost & Hin).
  rewrite Z2Nat.id in Hword, Hin by lia.
  exists pre, word, post.
  split; [exact Hln|split; [exact Hno|split; [exact Hpre|split; [exact Hpost|]]]].
  split; [exact Hin|].
  assert (Hlen : length (getLine e (line p)) = length pre + length word + length post).
  { rewrite Hln. unfold length. rewrite !length_app. lia. }
  pose proof (length_nonneg pre). pose proof (length_nonneg word).
  pose proof (length_nonneg post).
  assert (Hsel : valid_selection e
                   {| anchor := {| line := line p; ch := length pre |};
                      head := {| line := line p; ch := length pre + length word |} |}).
  { split; split; cbn [anchor head line ch]; lia. }
  assert (Hcur : getCursor e = p) by (unfold getCursor, primary; now rewrite Hone).
  assert (Hnone : getSelection e = []) by exact (caret_selects_nothing e p Hp Hone).
  assert (Hset : setSelection {| line := line p; ch := length pre |}
                   {| line := line p; ch := length pre + length word |} e
                 = {| lines := lines e;
                      selections :=
                        [ {| anchor := {| line := line p; ch := length pre |};
                             head := {| line := line p;
                                        ch := length pre + length word |} |} ] |}).
  { unfold setSelection. apply setSelections_inside; [|discriminate].
    now constructor. }
  cbv zeta. split; [|split].
  - unfold handleSelectWordOrExpand. cbn [activeEditor fields snd].
    rewrite Hnone, Hcur. cbn [truthy]. rewrite Hword. cbn [snd]. now rewrite Hset.
  - intros Hlast. unfold TryGuarded.handleSelectWordOrExpand.
    cbn [activeEditor fields snd]. rewrite Hnone, Hcur, Hlast. cbn [truthy].
    rewrite Hword. cbn [snd]. now rewrite Hset.
  - unfold getSelection, primary. cbn [selections last].
    unfold sel_from, sel_to, pos_leb. cbn [anchor head line ch].
    rewrite Z.ltb_irrefl, Z.eqb_refl. cbn [orb andb].
    destruct (Z.leb_spec (length pre) (length pre + length word)); [|lia].
    destruct Hsel as [Ha Hh]. cbn [anchor head] in Ha, Hh.
    unfold getRange.
    change (clipPos {| lines := lines e; selections := ?s |} ?q) with (clipPos e q).
    rewrite (clipPos_valid e _ Ha), (clipPos_valid e _ Hh). cbn [line ch].
    rewrite Z.eqb_refl.
    change (getLine {| lines := lines e; selections := ?s |} ?n) with (getLine e n).
    rewrite Z.max_r by lia. rewrite Hln.
    unfold length. rewrite <- Nat2Z.inj_add. rewrite slice_inside.
    + replace (List.length pre + List.length word - List.length pre)%nat
        with (List.length word) by lia.
      rewrite skipn_app, skipn_all, Nat.sub_diag. cbn [skipn app].
      rewrite firstn_app, firstn_all, Nat.sub_diag. cbn [firstn]. apply app_nil_r.
    + rewrite !length_app. lia.
Qed.

Lemma select_word_under_cursor_witness :
  valid_pos Examples.three_cursor (Examples.at_ 1 1)
  /\ exists pre word post,
       lit "cab" = pre ++ word ++ post
       /\ snd (handleSelectWordOrExpand false
                 {| fields := initial; activeEditor := Some Examples.three_cursor |})
          = {| fields := initial;
               activeEditor :=
                 Some {| lines := lines Examples.three_cursor;
                         selections :=
                           [ {| anchor := {| line := 1; ch := length pre |};
                                head := {| line := 1;
                                           ch := length pre + length word |} |} ] |} |}.
Proof.
  assert (Hp : valid_pos Examples.three_cursor (Examples.at_ 1 1)) by valid_example.
  split; [exact Hp|].
  destruct (select_word_under_cursor initial Examples.three_cursor (Examples.at_ 1 1)
              Hp eq_refl)
    as (pre & word & post & Hln & _ & _ & _ & _ & Hsel & _).
  - cbn. discriminate.
  - exists pre, word, post. split; [exact Hln|exact Hsel].
Defined.

(** X13.  With the cursor at column 0 of a line that starts with a space,
    select-word selects nothing and moves the cursor to column 1: the
    search for the space in front of the cursor starts at column 0 and
    finds the leading space. *)
Theorem select_word_at_leading_space (f : Fields) (e : Editor) (l : Z)
        (rest : jsstring) :
  0 <= l < lineCount e -> getLine e l = SP :: rest ->
  selections e = [caret {| line := l; ch := 0 |}] ->
  wordAt (getLine e l) 0 = (1, [])
  /\ snd (handleSelectWordOrExpand false {| fields := f; activeEditor := Some e |})
     = {| fields := f;
          activeEditor := Some {| lines := lines e;
                                  selections := [caret {| line := l; ch := 1 |}] |} |}.
Proof.
  intros Hl Hln Hone.
  assert (Hlen : length (getLine e l) = 1 + length rest).
  { rewrite Hln. unfold length. cbn [List.length]. lia. }
  pose proof (length_nonneg rest).
  assert (Hp : valid_pos e {| line := l; ch := 0 |})
    by (split; cbn [line ch]; lia).
  assert (Hq : valid_pos e {| line := l; ch := 1 |})
    by (split; cbn [line ch]; lia).
  split; [rewrite Hln; apply wordAt_leading_space|].
  unfold handleSelectWordOrExpand. cbn [activeEditor fields snd].
  rewrite (caret_selects_nothing e _ Hp Hone).
  assert (Hcur : getCursor e = {| line := l; ch := 0 |})
    by (unfold getCursor, primary; now rewrite Hone).
  rewrite Hcur. cbn [truthy line ch]. rewrite Hln, wordAt_leading_space.
  cbn [snd]. f_equal. f_equal. unfold setSelection.
  change (1 + length []) with 1.
  apply (setSelections_inside e [caret {| line := l; ch := 1 |}]); [|discriminate].
  constructor; [now split|constructor].
Qed.

Lemma select_word_at_leading_space_witness :
  snd (handleSelectWordOrExpand false
         {| fields := initial;
            activeEditor := Some {| lines := [lit " ab"]; selections := [caret origin] |} |})
  = {| fields := initial;
       activeEditor := Some {| lines := [lit " ab"];
                               selections := [caret (Examples.at_ 0 1)] |} |}.
Proof.
  refine (proj2 (select_word_at_leading_space initial
                   {| lines := [lit " ab"]; selections := [caret origin] |}
                   0 (lit "ab") _ eq_refl eq_refl)).
  cbn. lia.
Defined.

(** X14.  The version that records the word: with a collapsed cursor and a
    recorded word, the handler looks for the word on the cursor's line from
    the cursor's column on.  When it is there, the cursor ends up right
    behind its first occurrence and nothing is selected (the cursor set
    last replaces the selection set just before); when it is not, nothing
    changes.  The recorded word stays. *)
Theorem select_word_recorded_moves_cursor (f : Fields) (e : Editor) (p : Pos)
        (w : jsstring) :
  valid_pos e p -> selections e = [caret p] ->
  lastSelectedWord f = Some w -> w <> [] ->
  exists e1,
    snd (TryGuarded.handleSelectWordOrExpand false
           {| fields := f; activeEditor := Some e |})
    = {| fields := f; activeEditor := Some e1 |}
    /\ somethingSelected e1 = false
    /\ match Spec.first_occurrence_from (getLine e (line p)) w (Z.to_nat (ch p)) with
       | Some i =>
           e1 = {| lines := lines e;
                   selections := [caret {| line := line p;
                                           ch := Z.of_nat i + length w |}] |}
           /\ ch p <= Z.of_nat i
           /\ slice (getLine e (line p)) (Z.of_nat i) (Z.of_nat i + length w) = w
       | None => e1 = e
       end.
Proof.
  intros Hp Hone Hlast Hw.
  pose proof Hp as [Hl Hc].
  assert (Hcur : getCursor e = p) by (unfold getCursor, primary; now rewrite Hone).
  assert (Hnone : getSelection e = []) by exact (caret_selects_nothing e p Hp Hone).
  assert (Hk : (Z.to_nat (ch p) <= List.length (getLine e (line p)))%nat)
    by (unfold length in Hc; lia).
  assert (Hquiet : somethingSelected e = false).
  { unfold somethingSelected. rewrite Hone. cbn. unfold pos_eqb.
    now rewrite !Z.eqb_refl. }
  assert (Hrun : snd (TryGuarded.handleSelectWordOrExpand false
                        {| fields := f; activeEditor := Some e |})
                 = {| fields := f;
                      activeEditor :=
                        Some (if negb (indexOf (getLine e (line p)) w (ch p) =? -1)
                              then setCursor
                                     {| line := line p;
                                        ch := indexOf (getLine e (line p)) w (ch p)
                                              + length w |}
                                     (setSelection
                                        {| line := line p;
                                           ch := indexOf (getLine e (line p)) w (ch p) |}
                                        {| line := line p;
                                           ch := indexOf (getLine e (line p)) w (ch p)
                                                 + length w |} e)
                              else e) |}).
  { unfold TryGuarded.handleSelectWordOrExpand. cbn [activeEditor fields snd].
    rewrite Hnone, Hcur, Hlast. cbn [truthy].
    destruct w as [|x w']; [now elim Hw|]. reflexivity. }
  rewrite Hrun, (indexOf_first_occurrence _ _ _ Hc).
  destruct (Spec.first_occurrence_from (getLine e (line p)) w (Z.to_nat (ch p)))
    as [i|] eqn:Hocc.
  - destruct (first_occurrence_from_inside _ _ _ _ Hk Hocc) as [Hge Hfit].
    destruct (Z.eqb_spec (Z.of_nat i) (-1)) as [Hneg|_]; [lia|]. cbn [negb].
    assert (Hq : valid_pos e {| line := line p; ch := Z.of_nat i + length w |}).
    { split; cbn [line ch]; [exact Hl|]. unfold length. lia. }
    eexists. split; [reflexivity|].
    assert (Hend : setCursor {| line := line p; ch := Z.of_nat i + length w |}
                     (setSelection {| line := line p; ch := Z.of_nat i |}
                        {| line := line p; ch := Z.of_nat i + length w |} e)
                   = {| lines := lines e;
                        selections := [caret {| line := line p;
                                                ch := Z.of_nat i + length w |}] |}).
    { unfold setCursor, setSelection at 1.
      rewrite setSelections_inside; [reflexivity| |discriminate].
      constructor; [|constructor]. split; exact Hq. }
    rewrite Hend. split; [|split; [reflexivity|split; [lia|]]].
    + unfold somethingSelected. cbn. unfold pos_eqb. now rewrite !Z.eqb_refl.
    + unfold length. rewrite <- Nat2Z.inj_add, slice_inside by lia.
      replace (i + List.length w - i)%nat with (List.length w) by lia.
      apply find_some in Hocc as [_ Hat]. unfold Spec.occurs_at in Hat.
      clear - Hat. revert Hat. generalize (skipn i (getLine e (line p))).
      induction w as [|x w IH]; intros s Hs; [reflexivity|].
      destruct s as [|y s]; [discriminate|]. cbn in Hs.
      apply andb_prop in Hs as [Hxy Hs]. apply N.eqb_eq in Hxy. subst y.
      cbn [List.length firstn]. f_equal. now apply IH.
  - cbn [Z.eqb negb]. exists e. now repeat split.
Qed.

Lemma select_word_recorded_moves_cursor_witness :
  valid_pos Examples.three_cursor (Examples.at_ 1 1)
  /\ exists e1,
       snd (TryGuarded.handleSelectWordOrExpand false
              {| fields := {| selectLineCount := 0; lastSelectedLine := -1;
                              lastSelectedWord := Some (lit "ab") |};
                 activeEditor := Some Examples.three_cursor |})
       = {| fields := {| selectLineCount := 0; lastSelectedLine := -1;
                         lastSelectedWord := Some (lit "ab") |};
            activeEditor := Some e1 |}
       /\ somethingSelected e1 = false.
Proof.
  assert (Hp : valid_pos Examples.three_cursor (Examples.at_ 1 1)) by valid_example.
  split; [exact Hp|].
  destruct (select_word_recorded_moves_cursor
              {| selectLineCount := 0; lastSelectedLine := -1;
                 lastSelectedWord := Some (lit "ab") |}
              Examples.three_cursor (Examples.at_ 1 1) (lit "ab") Hp eq_refl eq_refl)
    as (e1 & Hrun & Hquiet & _).
  - discriminate.
  - exists e1. split; [exact Hrun|exact Hquiet].
Defined.

End WordAtExtras.

(** ** Select all occurrences of a text without syntax characters *)

Module LiteralScanFacts.
Import JS Host Plugin JSFacts WordFacts ScanFacts.







End LiteralScanFacts.

Module LiteralScanExtras.
Import JS Host Plugin JSFacts SelectAllFacts ScanFacts LiteralScanFacts Aux.



End LiteralScanExtras.

(** ** Sorting the selected lines *)

Module SortFacts.
Import JS Host SortLines JSFacts HostFacts DuplicateFacts DuplicateUpFacts.

Section Sorting.

Context {A : Type}.
Variable compareFn : A -> A -> Z.

Local Abbreviation before := (fun x y : A => compareFn x y <= 0).

Lemma insert_perm (x : A) (l : list A) : Permutation (insert compareFn x l) (x :: l).
Proof.
  induction l as [|y l IH]; [reflexivity|]. cbn [insert].
  destruct (compareFn x y <=? 0); [reflexivity|].
  rewrite IH. apply perm_swap.
Qed.

Lemma sort_perm (l : list A) : Permutation (sort compareFn l) l.
Proof.
  induction l as [|x l IH]; [reflexivity|]. cbn [sort].
  rewrite insert_perm. now constructor.
Qed.

Lemma sort_of_sorted (l : list A) : Sorted before l -> sort compareFn l = l.
Proof.
  induction 1 as [|x l Hl IH Hhd]; [reflexivity|]. cbn [sort]. rewrite IH.
  destruct Hhd as [|y l' Hxy]; [reflexivity|]. cbn [insert].
  destruct (Z.leb_spec (compareFn x y) 0); [reflexivity|lia].
Qed.

(** Any two elements are ordered one way or the other. *)
Hypothesis total : forall a b, 0 < compareFn a b -> compareFn b a <= 0.

Lemma insert_sorted (x : A) (l : list A) :
  Sorted before l -> Sorted before (insert compareFn x l).
Proof.
  induction 1 as [|y l Hl IH Hhd]; [repeat constructor|]. cbn [insert].
  destruct (Z.leb_spec (compareFn x y) 0) as [Hxy|Hxy].
  - constructor; [now constructor|now constructor].
  - constructor; [exact IH|].
    destruct Hhd as [|z l' Hyz]; cbn [insert].
    + constructor. now apply total.
    + destruct (compareFn x z <=? 0); constructor; [now apply total|exact Hyz].
Qed.

Lemma sort_sorted (l : list A) : Sorted before (sort compareFn l).
Proof.
  induction l as [|x l IH]; [constructor|]. cbn [sort]. now apply insert_sorted.
Qed.

End Sorting.

(** One selection's lines are replaced by the sorted lines. *)
Lemma sortEntry_lines (compareFn : jsstring -> jsstring -> Z) (e : Editor)
      (sel : Selection) :
  wf_doc e ->
  0 <= line (anchor sel) < lineCount e -> 0 <= line (head sel) < lineCount e ->
  let a := Z.min (line (anchor sel)) (line (head sel)) in
  let b := Z.max (line (anchor sel)) (line (head sel)) in
  lines (sortEntry compareFn e sel)
  = firstn (Z.to_nat a) (lines e) ++ sort compareFn (lines_between e a b)
      ++ skipn (Z.to_nat b + 1) (lines e).
Proof.
  intros Hwf Ha Hh a b.
  assert (Hab : 0 <= a /\ a <= b /\ b < lineCount e) by (unfold a, b; lia).
  unfold sortEntry. fold a b. unfold replaceRange.
  rewrite (clipPos_valid e _ (start_of_line_valid e a ltac:(lia))).
  rewrite (clipPos_valid e _ (end_of_line_valid e b ltac:(lia))).
  cbn [line ch lines]. rewrite skipn_whole. cbn [Z.to_nat firstn app].
  rewrite app_nil_r. f_equal. f_equal.
  pose proof (sort_perm compareFn (lines_between e a b)) as Hperm.
  apply split_join.
  - intros Hnil. rewrite Hnil in Hperm. apply Permutation_nil in Hperm.
    now apply (lines_between_not_nil e a b).
  - apply (Permutation_Forall (Permutation_sym Hperm)). now apply lines_between_wf.
Qed.

(** What a sorting step keeps: the document stays one, has as many lines as
    before, and has the same lines as before in some order. *)
Lemma sortEntry_keeps (compareFn : jsstring -> jsstring -> Z) (e : Editor)
      (sel : Selection) :
  wf_doc e ->
  0 <= line (anchor sel) < lineCount e -> 0 <= line (head sel) < lineCount e ->
  wf_doc (sortEntry compareFn e sel)
  /\ lineCount (sortEntry compareFn e sel) = lineCount e
  /\ Permutation (lines (sortEntry compareFn e sel)) (lines e).
Proof.
  intros Hwf Ha Hh.
  pose proof (sortEntry_lines compareFn e sel Hwf Ha Hh) as Hlines. cbv zeta in Hlines.
  set (a := Z.min (line (anchor sel)) (line (head sel))) in *.
  set (b := Z.max (line (anchor sel)) (line (head sel))) in *.
  assert (Hab : 0 <= a /\ a <= b /\ b < lineCount e) by (unfold a, b; lia).
  destruct (lines_in_three e a b) as [_ Hrest]; [lia|lia|lia|].
  assert (Hperm : Permutation (lines (sortEntry compareFn e sel)) (lines e)).
  { rewrite Hlines. rewrite <- (firstn_skipn (Z.to_nat a) (lines e)) at 3.
    rewrite Hrest. apply Permutation_app_head, Permutation_app_tail, sort_perm. }
  split; [|split].
  - destruct Hwf as [Hne Hall]. split.
    + intros Hnil. rewrite Hnil in Hperm. apply Permutation_nil in Hperm.
      now apply Hne.
    + now apply (Permutation_Forall (Permutation_sym Hperm)).
  - unfold lineCount. now rewrite (Permutation_length Hperm).
  - exact Hperm.
Qed.

Lemma sortAll_keeps (compareFn : jsstring -> jsstring -> Z) (sels : list Selection) :
  forall e : Editor,
    wf_doc e ->
    Forall (fun s => 0 <= line (anchor s) < lineCount e
                     /\ 0 <= line (head s) < lineCount e) sels ->
    wf_doc (fold_left (sortEntry compareFn) sels e)
    /\ lineCount (fold_left (sortEntry compareFn) sels e) = lineCount e
    /\ Permutation (lines (fold_left (sortEntry compareFn) sels e)) (lines e).
Proof.
  induction sels as [|s sels IH]; intros e Hwf Hall.
  - cbn [fold_left]. split; [exact Hwf|split; reflexivity].
  - inversion Hall as [|? ? [Ha Hh] Hrest]; subst. cbn [fold_left].
    destruct (sortEntry_keeps compareFn e s Hwf Ha Hh) as (Hwf1 & Hcount1 & Hperm1).
    destruct (IH (sortEntry compareFn e s) Hwf1) as (Hwf2 & Hcount2 & Hperm2).
    + rewrite Hcount1. exact Hrest.
    + split; [exact Hwf2|split; [lia|]]. now rewrite Hperm2.
Qed.

Lemma byCodeUnits_total (a b : jsstring) : 0 < byCodeUnits a b -> byCodeUnits b a <= 0.
Proof.
  revert b. induction a as [|x a IH]; intros [|y b]; cbn [byCodeUnits]; try lia.
  destruct (N.ltb_spec x y), (N.ltb_spec y x); try lia. apply IH.
Qed.

End SortFacts.

Module SortExtras.
Import JS Host SortLines JSFacts HostFacts DuplicateFacts DuplicateUpFacts SortFacts Aux.

(** X16.  With one selection over the lines a..b and a comparator that
    orders any two lines one way or the other, sort-selected-lines replaces
    the lines a..b by the same lines in ascending order and
    sort-selected-lines-reverse by the same lines in descending order; the
    lines in front of a and behind b stay as they are. *)
Theorem sort_selected_lines_effect (localeCompare : jsstring -> jsstring -> Z)
        (e : Editor) (sel : Selection) :
  (forall x y, 0 < localeCompare x y -> localeCompare y x <= 0) ->
  wf_doc e -> selections e = [sel] ->
  0 <= line (anchor sel) < lineCount e -> 0 <= line (head sel) < lineCount e ->
  let a := Z.min (line (anchor sel)) (line (head sel)) in
  let b := Z.max (line (anchor sel)) (line (head sel)) in
  exists up down,
    lines (sortSelectedLines localeCompare e)
    = firstn (Z.to_nat a) (lines e) ++ up ++ skipn (Z.to_nat b + 1) (lines e)
    /\ lines (sortSelectedLinesReverse localeCompare e)
       = firstn (Z.to_nat a) (lines e) ++ down ++ skipn (Z.to_nat b + 1) (lines e)
    /\ Permutation up (lines_between e a b)
    /\ Permutation down (lines_between e a b)
    /\ Sorted (fun x y => localeCompare x y <= 0) up
    /\ Sorted (fun x y => localeCompare y x <= 0) down.
Proof.
  intros Htotal Hwf Hone Ha Hh a b.
  exists (sort (fun x y => localeCompare x y) (lines_between e a b)),
         (sort (fun x y => localeCompare y x) (lines_between e a b)).
  unfold sortSelectedLines, sortSelectedLinesReverse, listSelections.
  rewrite Hone. cbn [fold_left].
  split; [now apply sortEntry_lines|split; [now apply sortEntry_lines|]].
  split; [apply sort_perm|split; [apply sort_perm|]].
  split; apply sort_sorted; intros x y; apply Htotal.
Qed.

Lemma sort_selected_lines_effect_witness :
  wf_doc fruit
  /\ exists up down,
       lines (sortSelectedLines byCodeUnits fruit) = [lit "pear"] ++ up ++ [lit "kiwi"]
       /\ lines (sortSelectedLinesReverse byCodeUnits fruit)
          = [lit "pear"] ++ down ++ [lit "kiwi"]
       /\ Permutation up [lit "fig"; lit "apple"]
       /\ Sorted (fun x y => byCodeUnits x y <= 0) up.
Proof.
  assert (Hwf : wf_doc fruit) by wf_example.
  split; [exact Hwf|].
  destruct (sort_selected_lines_effect byCodeUnits fruit
              {| anchor := {| line := 1; ch := 1 |}; head := {| line := 2; ch := 3 |} |}
              byCodeUnits_total Hwf eq_refl)
    as (up & down & Hup & Hdown & Hperm & _ & Hsorted & _).
  - cbn. lia.
  - cbn. lia.
  - exists up, down. split; [exact Hup|split; [exact Hdown|split; assumption]].
Defined.

(** X17.  Sort-selected-lines leaves every line of the document where it
    is when the lines of every selection are in ascending order already; so
    does the reverse command when they are in descending order. *)
Theorem sort_selected_lines_in_order (localeCompare : jsstring -> jsstring -> Z)
        (e : Editor) :
  wf_doc e ->
  Forall (fun s => 0 <= line (anchor s) < lineCount e
                   /\ 0 <= line (head s) < lineCount e) (selections e) ->
  (Forall (fun s => Sorted (fun x y => localeCompare x y <= 0)
                      (lines_between e (Z.min (line (anchor s)) (line (head s)))
                                       (Z.max (line (anchor s)) (line (head s)))))
          (selections e) ->
   lines (sortSelectedLines localeCompare e) = lines e
   /\ getValue (sortSelectedLines localeCompare e) = getValue e)
  /\ (Forall (fun s => Sorted (fun x y => localeCompare y x <= 0)
                         (lines_between e (Z.min (line (anchor s)) (line (head s)))
                                          (Z.max (line (anchor s)) (line (head s)))))
             (selections e) ->
      lines (sortSelectedLinesReverse localeCompare e) = lines e
      /\ getValue (sortSelectedLinesReverse localeCompare e) = getValue e).
Proof.
  intros Hwf Hvalid.
  assert (Hstep : forall compareFn sels (e' : Editor),
             lines e' = lines e ->
             Forall (fun s => 0 <= line (anchor s) < lineCount e
                              /\ 0 <= line (head s) < lineCount e) sels ->
             Forall (fun s => Sorted (fun x y => compareFn x y <= 0)
                                (lines_between e (Z.min (line (anchor s)) (line (head s)))
                                   (Z.max (line (anchor s)) (line (head s))))) sels ->
             lines (fold_left (sortEntry compareFn) sels e') = lines e).
  { intros compareFn sels. induction sels as [|s sels IH]; intros e' He' Hv Hs;
      [exact He'|].
    inversion Hv as [|? ? [Ha Hh] Hv']; inversion Hs as [|? ? Hsorted Hs']; subst.
    cbn [fold_left]. apply IH; [|assumption|assumption].
    assert (Hwf' : wf_doc e') by (unfold wf_doc; now rewrite He').
    assert (Hcount : lineCount e' = lineCount e) by (unfold lineCount; now rewrite He').
    assert (Hbetween : forall a b, lines_between e' a b = lines_between e a b).
    { intros a b. unfold lines_between, getLine, lineCount. now rewrite He'. }
    rewrite (sortEntry_lines compareFn e' s Hwf') by (rewrite Hcount; assumption).
    rewrite Hbetween, (sort_of_sorted compareFn _ Hsorted), He'.
    destruct (lines_in_three e (Z.min (line (anchor s)) (line (head s)))
                (Z.max (line (anchor s)) (line (head s)))) as [_ Hrest]; [lia..|].
    now rewrite <- Hrest, firstn_skipn. }
  split; intros Hsorted.
  - assert (Hlines : lines (sortSelectedLines localeCompare e) = lines e)
      by (unfold sortSelectedLines; now apply Hstep).
    split; [exact Hlines|unfold getValue; now rewrite Hlines].
  - assert (Hlines : lines (sortSelectedLinesReverse localeCompare e) = lines e)
      by (unfold sortSelectedLinesReverse; now apply Hstep).
    split; [exact Hlines|unfold getValue; now rewrite Hlines].
Qed.

Lemma sort_selected_lines_in_order_witness :
  lines (sortSelectedLines byCodeUnits
           {| lines := [lit "pear"; lit "fig"; lit "apple"; lit "kiwi"];
              selections := [ {| anchor := {| line := 3; ch := 0 |};
                                 head := {| line := 2; ch := 0 |} |} ] |})
  = [lit "pear"; lit "fig"; lit "apple"; lit "kiwi"].
Proof.
  refine (proj1 (proj1 (sort_selected_lines_in_order byCodeUnits
                          {| lines := [lit "pear"; lit "fig"; lit "apple"; lit "kiwi"];
                             selections := [ {| anchor := {| line := 3; ch := 0 |};
                                                head := {| line := 2; ch := 0 |} |} ] |}
                          _ _) _)).
  - wf_example.
  - constructor; [cbn; lia|constructor].
  - constructor; [|constructor].
    change (Sorted (fun x y => byCodeUnits x y <= 0) [lit "apple"; lit "kiwi"]).
    repeat constructor. vm_compute. discriminate.
Defined.

(** X18.  Whatever the selections are (each on lines of the document), and
    whatever the comparator answers, both sort commands leave a document
    with as many lines as before that has the same lines as before, in
    some order; no line breaks are added or lost. *)
Theorem sort_selected_lines_keeps_lines (localeCompare : jsstring -> jsstring -> Z)
        (e : Editor) :
  wf_doc e ->
  Forall (fun s => 0 <= line (anchor s) < lineCount e
                   /\ 0 <= line (head s) < lineCount e) (selections e) ->
  (wf_doc (sortSelectedLines localeCompare e)
   /\ lineCount (sortSelectedLines localeCompare e) = lineCount e
   /\ Permutation (lines (sortSelectedLines localeCompare e)) (lines e))
  /\ (wf_doc (sortSelectedLinesReverse localeCompare e)
      /\ lineCount (sortSelectedLinesReverse localeCompare e) = lineCount e
      /\ Permutation (lines (sortSelectedLinesReverse localeCompare e)) (lines e)).
Proof.
  intros Hwf Hvalid. split; now apply sortAll_keeps.
Qed.

Lemma sort_selected_lines_keeps_lines_witness :
  wf_doc fruit
  /\ lines (sortSelectedLines byCodeUnits fruit)
     = [lit "pear"; lit "apple"; lit "fig"; lit "kiwi"]
  /\ Permutation (lines (sortSelectedLines byCodeUnits fruit)) (lines fruit).
Proof.
  assert (Hwf : wf_doc fruit) by wf_example.
  split; [exact Hwf|split; [reflexivity|]].
  refine (proj2 (proj2 (proj1 (sort_selected_lines_keeps_lines byCodeUnits fruit Hwf _)))).
  constructor; [cbn; lia|constructor].
Defined.

End SortExtras.

(** ** The case commands *)

Module TextFacts.
Import JS CaseMapping Plugin TextCommands JSFacts ToggleFacts.

Lemma split_without (c : unit16) (s : jsstring) : ~ In c s -> split c s = [s].
Proof.
  induction s as [|x s IH]; intros Hs; [reflexivity|]. cbn [split].
  destruct (N.eqb_spec x c) as [->|_]; [elim Hs; now left|].
  rewrite IH; [reflexivity|]. intros Hin. apply Hs. now right.
Qed.

Lemma split_app_sep (c : unit16) (s t : jsstring) :
  ~ In c s -> split c (s ++ c :: t) = s :: split c t.
Proof.
  induction s as [|x s IH]; intros Hs.
  - cbn [app split]. now rewrite N.eqb_refl.
  - cbn [app split].
    destruct (N.eqb_spec x c) as [->|_]; [elim Hs; now left|].
    rewrite IH; [reflexivity|]. intros Hin. apply Hs. now right.
Qed.

Lemma split_join_sep (c : unit16) (ls : list jsstring) :
  ls <> [] -> Forall (fun l => ~ In c l) ls -> split c (join [c] ls) = ls.
Proof.
  induction ls as [|l ls IH]; intros Hne Hall; [contradiction|].
  inversion Hall as [|? ? Hl Hls]; subst.
  destruct ls as [|l' ls].
  - cbn [join]. now apply split_without.
  - change (join [c] (l :: l' :: ls)) with (l ++ c :: join [c] (l' :: ls)).
    rewrite split_app_sep by assumption. f_equal. apply IH; [discriminate|assumption].
Qed.

Lemma join_split (c : unit16) (s : jsstring) : join [c] (split c s) = s.
Proof.
  induction s as [|x s IH]; [reflexivity|]. cbn [split].
  pose proof (split_not_nil c s) as Hne.
  destruct (N.eqb_spec x c) as [->|_].
  - destruct (split c s) as [|p rest]; [contradiction|].
    change (join [c] ([] :: p :: rest)) with (c :: join [c] (p :: rest)).
    now rewrite IH.
  - destruct (split c s) as [|p rest]; [contradiction|].
    destruct rest as [|q rest].
    + cbn [join] in *. now rewrite IH.
    + change (join [c] ((x :: p) :: q :: rest))
        with (x :: (p ++ c :: join [c] (q :: rest))).
      change (join [c] (p :: q :: rest)) with (p ++ c :: join [c] (q :: rest)) in IH.
      now rewrite IH.
Qed.

Lemma split_pieces (c : unit16) (s : jsstring) :
  Forall (fun p => ~ In c p) (split c s).
Proof.
  induction s as [|x s IH]; [repeat constructor; intros []|]. cbn [split].
  destruct (N.eqb_spec x c) as [->|Hx].
  - constructor; [intros []|exact IH].
  - destruct (split c s) as [|p rest];
      [repeat constructor; intros [Hin|[]]; congruence|].
    inversion IH as [|? ? Hp Hrest]; subst.
    constructor; [|exact Hrest]. intros [Hin|Hin]; [congruence|now apply Hp].
Qed.

Lemma split_Forall (P : unit16 -> Prop) (c : unit16) (s : jsstring) :
  Forall P s -> Forall (Forall P) (split c s).
Proof.
  induction 1 as [|x s Hx Hs IH]; [repeat constructor|]. cbn [split].
  destruct (x =? c)%N; [constructor; [constructor|exact IH]|].
  destruct (split c s) as [|p rest]; [repeat constructor; exact Hx|].
  inversion IH as [|? ? Hp Hrest]; subst.
  constructor; [now constructor|exact Hrest].
Qed.

(** Case conversion makes no space and removes none. *)
Lemma upper_space (c : unit16) : In SP (toUpperCase1 c) -> c = SP.
Proof.
  unfold toUpperCase1, in_range, SP.
  repeat match goal with
         | |- context [(?a <=? ?b)%N] => destruct (N.leb_spec a b)
         | |- context [(?a =? ?b)%N] => destruct (N.eqb_spec a b)
         end; cbn [andb In]; intros Hin;
    repeat match goal with Hor : _ \/ _ |- _ => destruct Hor end;
    try contradiction; try lia.
Qed.

Lemma lower_space (c : unit16) : In SP (toLowerCase1 c) -> c = SP.
Proof.
  unfold toLowerCase1, in_range, SP.
  repeat match goal with
         | |- context [(?a <=? ?b)%N] => destruct (N.leb_spec a b)
         | |- context [(?a =? ?b)%N] => destruct (N.eqb_spec a b)
         end; cbn [andb In]; intros Hin;
    repeat match goal with Hor : _ \/ _ |- _ => destruct Hor end;
    try contradiction; try lia.
Qed.

Lemma titleWord_cons (c : unit16) (rest : jsstring) :
  titleWord (c :: rest) = toUpperCase1 c ++ toLowerCase rest.
Proof.
  unfold titleWord, charAt, slice, rel_index, length. cbn [List.length].
  destruct (Z.leb_spec 0 0); [|lia].
  destruct (Z.ltb_spec 0 (Z.of_nat (S (List.length rest)))); [|lia].
  destruct (Z.ltb_spec 1 0); [lia|].
  destruct (Z.ltb_spec (Z.of_nat (S (List.length rest))) 0); [lia|].
  cbn [andb Z.to_nat skipn firstn]. unfold toUpperCase at 1. cbn [flat_map].
  rewrite app_nil_r. f_equal. f_equal.
  replace (Z.to_nat (Z.min 1 (Z.of_nat (S (List.length rest))))) with 1%nat by lia.
  cbn [skipn].
  replace (Z.to_nat (Z.min (Z.of_nat (S (List.length rest)))
                       (Z.of_nat (S (List.length rest)))
                     - Z.min 1 (Z.of_nat (S (List.length rest)))))
    with (List.length rest) by lia.
  apply firstn_all.
Qed.

Lemma titleWord_nil : titleWord [] = [].
Proof. reflexivity. Qed.

Lemma titleWord_space (w : jsstring) : ~ In SP w -> ~ In SP (titleWord w).
Proof.
  destruct w as [|c rest]; [intros _ []|]. rewrite titleWord_cons.
  intros Hw Hin. apply in_app_or in Hin as [Hin|Hin].
  - apply upper_space in Hin. apply Hw. now left.
  - unfold toLowerCase in Hin. apply in_flat_map in Hin as (x & Hx & Hin).
    apply lower_space in Hin. subst x. apply Hw. now right.
Qed.

Lemma str_eqb_refl (a : jsstring) : str_eqb a a = true.
Proof. induction a as [|x a IH]; [reflexivity|]. cbn. now rewrite N.eqb_refl. Qed.

Lemma latin1_plain_case (c : unit16) :
  (c < 256)%N /\ c <> 0xDF%N /\ c <> 0xB5%N -> plain_case c = true.
Proof.
  intros (Hc & H1 & H2).
  assert (Hall : forallb (fun c => Aux.one_way c || plain_case c)
                         (map N.of_nat (seq 0 256)) = true)
    by (vm_compute; reflexivity).
  rewrite forallb_forall in Hall.
  assert (Hin : In c (map N.of_nat (seq 0 256))).
  { rewrite in_map_iff. exists (N.to_nat c). split; [lia|]. apply in_seq. lia. }
  apply Hall in Hin. unfold Aux.one_way in Hin.
  destruct (N.eqb_spec c 0xDF); [contradiction|].
  destruct (N.eqb_spec c 0xB5); [contradiction|]. exact Hin.
Qed.

Lemma plain_case_units (c : unit16) :
  plain_case c = true ->
  exists u l,
    toUpperCase1 c = [u] /\ toLowerCase1 c = [l]
    /\ toUpperCase1 u = [u] /\ toLowerCase1 l = [l]
    /\ toLowerCase1 u = [l] /\ toUpperCase1 l = [u].
Proof.
  unfold plain_case. intros H.
  destruct (toUpperCase1 c) as [|u [|? ?]]; try discriminate.
  destruct (toLowerCase1 c) as [|l [|? ?]]; try discriminate.
  repeat (apply andb_prop in H as [H ?]).
  exists u, l. repeat split; try reflexivity; now apply str_eqb_eq.
Qed.

Section Plain.

Local Abbreviation plain := (Forall (fun c : unit16 => plain_case c = true)).

Lemma lower_upper (s : jsstring) : plain s -> toLowerCase (toUpperCase s) = toLowerCase s.
Proof.
  induction 1 as [|c s Hc Hs IH]; [reflexivity|].
  destruct (plain_case_units c Hc) as (u & l & Hu & Hl & _ & _ & Hul & _).
  unfold toLowerCase, toUpperCase in *. cbn [flat_map]. rewrite Hu, Hl.
  cbn [app flat_map]. rewrite Hul, IH. reflexivity.
Qed.

Lemma upper_lower (s : jsstring) : plain s -> toUpperCase (toLowerCase s) = toUpperCase s.
Proof.
  induction 1 as [|c s Hc Hs IH]; [reflexivity|].
  destruct (plain_case_units c Hc) as (u & l & Hu & Hl & _ & _ & _ & Hlu).
  unfold toLowerCase, toUpperCase in *. cbn [flat_map]. rewrite Hu, Hl.
  cbn [app flat_map]. rewrite Hlu, IH. reflexivity.
Qed.

Lemma upper_upper (s : jsstring) : plain s -> toUpperCase (toUpperCase s) = toUpperCase s.
Proof.
  induction 1 as [|c s Hc Hs IH]; [reflexivity|].
  destruct (plain_case_units c Hc) as (u & l & Hu & Hl & Huu & _).
  unfold toUpperCase in *. cbn [flat_map]. rewrite Hu.
  cbn [app flat_map]. rewrite Huu, IH. reflexivity.
Qed.

Lemma lower_lower (s : jsstring) : plain s -> toLowerCase (toLowerCase s) = toLowerCase s.
Proof.
  induction 1 as [|c s Hc Hs IH]; [reflexivity|].
  destruct (plain_case_units c Hc) as (u & l & Hu & Hl & _ & Hll & _).
  unfold toLowerCase in *. cbn [flat_map]. rewrite Hl.
  cbn [app flat_map]. rewrite Hll, IH. reflexivity.
Qed.

Lemma toggled_upper (s : jsstring) : plain s -> toggled (toUpperCase s) = toLowerCase s.
Proof.
  induction 1 as [|c s Hc Hs IH]; [reflexivity|].
  destruct (plain_case_units c Hc) as (u & l & Hu & Hl & Huu & _ & Hul & _).
  unfold toUpperCase, toLowerCase in *. cbn [flat_map]. rewrite Hu, Hl.
  cbn [app]. change (u :: flat_map toUpperCase1 s) with ([u] ++ flat_map toUpperCase1 s).
  rewrite toggled_app, IH. f_equal.
  rewrite toggled_unit. unfold toggleUnit. now rewrite Huu, str_eqb_refl, Hul.
Qed.

Lemma toggled_lower (s : jsstring) : plain s -> toggled (toLowerCase s) = toUpperCase s.
Proof.
  induction 1 as [|c s Hc Hs IH]; [reflexivity|].
  destruct (plain_case_units c Hc) as (u & l & Hu & Hl & _ & Hll & _ & Hlu).
  unfold toUpperCase, toLowerCase in *. cbn [flat_map]. rewrite Hu, Hl.
  cbn [app]. change (l :: flat_map toLowerCase1 s) with ([l] ++ flat_map toLowerCase1 s).
  rewrite toggled_app, IH. f_equal.
  rewrite toggled_unit. unfold toggleUnit. rewrite Hlu, Hll.
  destruct (str_eqb [l] [u]) eqn:Heq;
    [apply str_eqb_eq in Heq; injection Heq as ->|]; reflexivity.
Qed.

Lemma lower_titleWord (w : jsstring) :
  plain w -> toLowerCase (titleWord w) = toLowerCase w.
Proof.
  intros Hw. destruct w as [|c rest]; [reflexivity|]. rewrite titleWord_cons.
  inversion Hw as [|? ? Hc Hrest]; subst.
  destruct (plain_case_units c Hc) as (u & l & Hu & Hl & _ & _ & Hul & _).
  rewrite Hu. unfold toLowerCase at 1 3. cbn [app flat_map]. rewrite Hul, Hl.
  f_equal. now apply lower_lower.
Qed.

Lemma titleWord_again (w : jsstring) : plain w -> titleWord (titleWord w) = titleWord w.
Proof.
  intros Hw. destruct w as [|c rest]; [reflexivity|]. rewrite titleWord_cons.
  inversion Hw as [|? ? Hc Hrest]; subst.
  destruct (plain_case_units c Hc) as (u & l & Hu & Hl & Huu & _).
  rewrite Hu. cbn [app]. rewrite titleWord_cons, Huu. cbn [app]. f_equal.
  now apply lower_lower.
Qed.

End Plain.

Lemma lower_join (ws : list jsstring) :
  toLowerCase (join [SP] ws) = join [SP] (map toLowerCase ws).
Proof.
  induction ws as [|w ws IH]; [reflexivity|].
  destruct ws as [|w' ws]; [reflexivity|].
  change (join [SP] (w :: w' :: ws)) with (w ++ [SP] ++ join [SP] (w' :: ws)).
  change (join [SP] (map toLowerCase (w :: w' :: ws)))
    with (toLowerCase w ++ [SP] ++ join [SP] (map toLowerCase (w' :: ws))).
  unfold toLowerCase at 1. rewrite !flat_map_app. fold (toLowerCase w).
  fold (toLowerCase (join [SP] (w' :: ws))). now rewrite IH.
Qed.

End TextFacts.

Module TextExtras.
Import JS CaseMapping Plugin TextCommands JSFacts ToggleFacts TextFacts.

Lemma titlecase_split (s : jsstring) :
  split SP (join [SP] (map titleWord (split SP s))) = map titleWord (split SP s).
Proof.
  apply split_join_sep.
  - pose proof (split_not_nil SP s). now destruct (split SP s).
  - apply Forall_map. eapply Forall_impl; [|apply split_pieces].
    intros w. apply titleWord_space.
Qed.

Lemma map_on_all {A} (f g : A -> A) (P : A -> Prop) (l : list A) :
  (forall x, P x -> f x = g x) -> Forall P l -> map f l = map g l.
Proof.
  intros Hfg. induction 1 as [|x l Hx Hl IH]; [reflexivity|].
  cbn [map]. now rewrite Hfg, IH.
Qed.

(** X19.  On text of Basic Latin and Latin-1, title case works word by word
    and only a space ends a word: the text that replaces the selection has
    a space exactly where the selection has one, and splitting it on spaces
    gives the words of the selection, each with its first code unit in
    upper case and its other code units in lower case (a line break or a
    tab starts no word). *)
Theorem titlecase_keeps_words (selectedText : jsstring) :
  Forall (fun c => (c < 256)%N) selectedText ->
  exists t,
    transformedText "titlecase" selectedText = Some t
    /\ split SP t = map titleWord (split SP selectedText)
    /\ List.length (split SP t) = List.length (split SP selectedText)
    /\ join [SP] (split SP selectedText) = selectedText
    /\ forall c rest, In (c :: rest) (split SP selectedText) ->
                      (c < 256)%N /\ Forall (fun x => (x < 256)%N) rest
                      /\ titleWord (c :: rest) = toUpperCase1 c ++ toLowerCase rest.
Proof.
  intros Hlatin.
  exists (join [SP] (map titleWord (split SP selectedText))).
  split; [reflexivity|]. rewrite titlecase_split.
  split; [reflexivity|split; [apply length_map|]].
  split; [apply join_split|].
  intros c rest Hin.
  pose proof (split_Forall _ SP selectedText Hlatin) as Hwords.
  rewrite Forall_forall in Hwords. specialize (Hwords _ Hin).
  inversion Hwords; subst.
  split; [assumption|split; [assumption|apply titleWord_cons]].
Qed.

Lemma titlecase_keeps_words_witness :
  transformedText "titlecase" (lit "hello" ++ [NL] ++ lit "wORLD  foo")
  = Some (lit "Hello" ++ [NL] ++ lit "world  Foo")
  /\ exists t,
       transformedText "titlecase" (lit "hello" ++ [NL] ++ lit "wORLD  foo") = Some t
       /\ split SP t
          = map titleWord (split SP (lit "hello" ++ [NL] ++ lit "wORLD  foo")).
Proof.
  split; [reflexivity|].
  destruct (titlecase_keeps_words (lit "hello" ++ [NL] ++ lit "wORLD  foo"))
    as (t & Ht & Hsplit & _).
  - repeat constructor.
  - exists t. split; [exact Ht|exact Hsplit].
Defined.

(** X20.  On text of Basic Latin and Latin-1 without SHARP S and MICRO
    SIGN, title case changes the case of letters and nothing else (the
    result in lower case is the selection in lower case), and title case of
    the result is the result. *)
Theorem titlecase_changes_case_only (selectedText : jsstring) :
  Forall (fun c => (c < 256)%N /\ c <> 0xDF%N /\ c <> 0xB5%N) selectedText ->
  exists t,
    transformedText "titlecase" selectedText = Some t
    /\ transformedText "lowercase" t = transformedText "lowercase" selectedText
    /\ transformedText "titlecase" t = Some t.
Proof.
  intros Hlatin.
  assert (Hplain : Forall (fun c => plain_case c = true) selectedText)
    by (eapply Forall_impl; [|exact Hlatin]; apply latin1_plain_case).
  pose proof (split_Forall _ SP selectedText Hplain) as Hwords.
  exists (join [SP] (map titleWord (split SP selectedText))).
  split; [reflexivity|split].
  - cbn [transformedText String.eqb Ascii.eqb Bool.eqb andb]. f_equal.
    rewrite lower_join, map_map.
    rewrite (map_on_all _ toLowerCase _ _ lower_titleWord Hwords).
    now rewrite <- lower_join, join_split.
  - cbn [transformedText String.eqb Ascii.eqb Bool.eqb andb]. f_equal.
    rewrite titlecase_split, map_map. f_equal.
    apply (map_on_all _ _ _ _ titleWord_again Hwords).
Qed.

Lemma titlecase_changes_case_only_witness :
  transformedText "titlecase" (lit "hello wORLD  x") = Some (lit "Hello World  X")
  /\ exists t,
       transformedText "titlecase" (lit "hello wORLD  x") = Some t
       /\ transformedText "titlecase" t = Some t.
Proof.
  split; [reflexivity|].
  destruct (titlecase_changes_case_only (lit "hello wORLD  x")) as (t & Ht & _ & Hagain).
  - repeat constructor; try (cbn; lia); discriminate.
  - exists t. split; [exact Ht|exact Hagain].
Defined.

(** X21.  On text of Basic Latin and Latin-1 without SHARP S and MICRO
    SIGN the case commands compose as expected: upper case and lower case
    are each their own result when run again, either one undoes the other's
    effect, and toggle-case turns the upper-case text into the lower-case
    text and back. *)
Theorem case_commands_compose (selectedText : jsstring) :
  Forall (fun c => (c < 256)%N /\ c <> 0xDF%N /\ c <> 0xB5%N) selectedText ->
  exists up low,
    transformedText "uppercase" selectedText = Some up
    /\ transformedText "lowercase" selectedText = Some low
    /\ transformedText "uppercase" up = Some up
    /\ transformedText "lowercase" low = Some low
    /\ transformedText "uppercase" low = Some up
    /\ transformedText "lowercase" up = Some low
    /\ toggled up = low
    /\ toggled low = up.
Proof.
  intros Hlatin.
  assert (Hplain : Forall (fun c => plain_case c = true) selectedText)
    by (eapply Forall_impl; [|exact Hlatin]; apply latin1_plain_case).
  exists (toUpperCase selectedText), (toLowerCase selectedText).
  cbn [transformedText String.eqb Ascii.eqb Bool.eqb andb].
  rewrite upper_upper, lower_lower, upper_lower, lower_upper by assumption.
  rewrite toggled_upper, toggled_lower by assumption.
  now repeat split.
Qed.

Lemma case_commands_compose_witness :
  transformedText "uppercase" (lit "Hello, World 42!") = Some (lit "HELLO, WORLD 42!")
  /\ toggled (lit "HELLO, WORLD 42!") = lit "hello, world 42!"
  /\ exists up low,
       transformedText "uppercase" (lit "Hello, World 42!") = Some up
       /\ transformedText "lowercase" (lit "Hello, World 42!") = Some low
       /\ toggled up = low.
Proof.
  split; [reflexivity|split; [reflexivity|]].
  destruct (case_commands_compose (lit "Hello, World 42!"))
    as (up & low & Hup & Hlow & _ & _ & _ & _ & Htoggle & _).
  - repeat constructor; try (cbn; lia); discriminate.
  - exists up, low. split; [exact Hup|split; [exact Hlow|exact Htoggle]].
Defined.

End TextExtras.

(** ** Duplicate line down with two cursors *)

Module TwoCursorFacts.
Import JS Host Plugin JSFacts HostFacts DuplicateFacts InsertLineFacts InsertLineExtras
       CursorLineFacts.

(** The edit for a selection that lies on line [l]: the line once more
    behind itself. *)
Lemma entry_on_line (e : Editor) (sel : Selection) (l : Z) :
  wf_doc e -> 0 <= l < lineCount e ->
  line (anchor sel) = l -> line (head sel) = l ->
  fst (duplicateDownEntry e sel)
  = {| lines := firstn (Z.to_nat l + 1) (lines e) ++ [getLine e l]
                  ++ skipn (Z.to_nat l + 1) (lines e);
       selections := selections e |}.
Proof.
  intros Hwf Hl Ha Hh. rewrite one_line_entry by congruence. rewrite Hh.
  pose proof (insert_lines_after e l [getLine e l] Hwf Hl ltac:(discriminate)
                (one_line_wf e l Hwf)) as Hlines.
  cbn [join] in Hlines. rewrite <- Hlines. reflexivity.
Qed.

Lemma wf_line_inserted (L : list jsstring) (x : jsstring) (n : nat)
      (sels sels' : list Selection) :
  wf_doc {| lines := L; selections := sels |} -> ~ In NL x ->
  wf_doc {| lines := firstn n L ++ [x] ++ skipn n L; selections := sels' |}.
Proof.
  intros [Hne Hall] Hx. cbn [lines] in *. split; cbn [lines].
  - intro H. apply app_eq_nil in H as [_ H]. discriminate.
  - destruct (Forall_parts _ L n Hall) as [Hf Hs].
    apply Forall_app. split; [exact Hf|].
    apply Forall_app. split; [now repeat constructor|exact Hs].
Qed.

Lemma lineCount_inserted (L : list jsstring) (x : jsstring) (n : nat)
      (sels sels' : list Selection) :
  (n <= List.length L)%nat ->
  lineCount {| lines := firstn n L ++ [x] ++ skipn n L; selections := sels' |}
  = lineCount {| lines := L; selections := sels |} + 1.
Proof.
  intros Hn. unfold lineCount. cbn [lines].
  rewrite !length_app, length_firstn, length_skipn. cbn [List.length]. lia.
Qed.

(** The document the handler leaves for two selections: the edit of the
    second is made in the document the edit of the first has left. *)
Lemma handler_two_selections (f : Fields) (e : Editor) (s1 s2 : Selection) :
  selections e = [s1; s2] ->
  exists r,
    snd (handleDuplicateLineDown false {| fields := f; activeEditor := Some e |})
    = {| fields := f; activeEditor := Some r |}
    /\ lines r = lines (fst (duplicateDownEntry (fst (duplicateDownEntry e s1)) s2)).
Proof.
  intros Htwo. unfold handleDuplicateLineDown, listSelections.
  cbn [activeEditor fields]. rewrite Htwo. cbn [duplicateDownAll].
  destruct (duplicateDownEntry e s1) as [e1 n1]. cbn [fst].
  destruct (duplicateDownEntry e1 s2) as [e2 n2].
  cbn [snd fst app]. eexists. split; [reflexivity|].
  now rewrite setSelections_lines.
Qed.

End TwoCursorFacts.

Module TwoCursorExtras.
Import JS Host Plugin JSFacts HostFacts DuplicateFacts InsertLineFacts InsertLineExtras
       CursorLineFacts TwoCursorFacts Aux.

(** X22.  Duplicate-line-down with two cursors, on lines i < j, in the
    order of the document.  The edits are made one after the other with the
    line numbers the cursors had before the first edit.  The first edit
    moves line j down by one, so the second edit copies the line above the
    second cursor's line: the document gets two lines longer, line i is
    followed by its copy, the line behind line j is a copy of the former
    line j-1, and the former line j, now line j+2, has not been
    duplicated. *)
Theorem duplicate_down_two_cursors (f : Fields) (L : list jsstring) (p q : Pos) :
  let e := {| lines := L;
              selections := [ {| anchor := p; head := p |};
                              {| anchor := q; head := q |} ] |} in
  wf_doc e -> valid_pos e p -> valid_pos e q -> line p < line q ->
  exists r,
    snd (handleDuplicateLineDown false {| fields := f; activeEditor := Some e |})
    = {| fields := f; activeEditor := Some r |}
    /\ lineCount r = lineCount e + 2
    /\ (forall k, 0 <= k <= line p -> getLine r k = getLine e k)
    /\ getLine r (line p + 1) = getLine e (line p)
    /\ (forall k, line p + 1 < k <= line q -> getLine r k = getLine e (k - 1))
    /\ getLine r (line q + 1) = getLine e (line q - 1)
    /\ (forall k, line q + 1 < k -> getLine r k = getLine e (k - 2)).
Proof.
  intros e Hwf [Hp _] [Hq _] Hlt.
  change (lineCount e) with (Z.of_nat (List.length L)) in *.
  destruct (handler_two_selections f e {| anchor := p; head := p |}
              {| anchor := q; head := q |} eq_refl)
    as (r & Hrun & Hlines).
  exists r. split; [exact Hrun|].
  rewrite (entry_on_line e {| anchor := p; head := p |} (line p) Hwf Hp eq_refl eq_refl)
    in Hlines.
  cbn [lines selections] in Hlines.
  rewrite (entry_on_line _ {| anchor := q; head := q |} (line q)) in Hlines;
    [|apply (wf_line_inserted L _ _ (selections e));
      [exact Hwf|apply (wf_line e), Hwf]
     |rewrite (lineCount_inserted L _ _ (selections e)) by lia;
      change (lineCount {| lines := L; selections := selections e |})
        with (Z.of_nat (List.length L)); lia
     |reflexivity|reflexivity].
  pose (L1 := firstn (Z.to_nat (line p) + 1) L ++ [getLine e (line p)]
                ++ skipn (Z.to_nat (line p) + 1) L).
  assert (Hafter : lines r
                   = firstn (Z.to_nat (line q) + 1) L1
                       ++ [getLine {| lines := L1; selections := selections e |}
                             (line q)]
                       ++ skipn (Z.to_nat (line q) + 1) L1) by exact Hlines.
  clear Hlines.
  assert (Hlen1 : List.length L1 = S (List.length L)).
  { unfold L1. rewrite !length_app, length_firstn, length_skipn. cbn [List.length]. lia. }
  assert (Hr : forall k, 0 <= k ->
             getLine r k
             = if k <? line q + 1
               then getLine {| lines := L1; selections := [] |} k
               else if k =? line q + 1
                    then getLine {| lines := L1; selections := selections e |} (line q)
                    else getLine {| lines := L1; selections := [] |} (k - 1)).
  { intros k Hk.
    replace r with {| lines := lines r; selections := selections r |}
      by (now destruct r).
    rewrite Hafter, (getLine_inserted L1) by lia.
    replace (Z.of_nat (Z.to_nat (line q) + 1)) with (line q + 1) by lia.
    reflexivity. }
  assert (H1 : forall sels k, 0 <= k ->
             getLine {| lines := L1; selections := sels |} k
             = if k <? line p + 1 then getLine e k
               else if k =? line p + 1 then getLine e (line p)
                    else getLine e (k - 1)).
  { intros sels k Hk. unfold L1. rewrite (getLine_inserted L) by lia.
    replace (Z.of_nat (Z.to_nat (line p) + 1)) with (line p + 1) by lia.
    reflexivity. }
  split; [|split; [|split; [|split; [|split]]]].
  - unfold lineCount. rewrite Hafter, !length_app, length_firstn, length_skipn.
    rewrite !Hlen1. cbn [List.length]. lia.
  - intros k Hk. rewrite Hr by lia.
    destruct (Z.ltb_spec k (line q + 1)); [|lia].
    rewrite H1 by lia.
    destruct (Z.ltb_spec k (line p + 1)); [reflexivity|lia].
  - rewrite Hr by lia.
    destruct (Z.ltb_spec (line p + 1) (line q + 1)); [|lia].
    rewrite H1 by lia.
    destruct (Z.ltb_spec (line p + 1) (line p + 1)); [lia|].
    now rewrite Z.eqb_refl.
  - intros k Hk. rewrite Hr by lia.
    destruct (Z.ltb_spec k (line q + 1)); [|lia].
    rewrite H1 by lia.
    destruct (Z.ltb_spec k (line p + 1)); [lia|].
    destruct (Z.eqb_spec k (line p + 1)); [lia|reflexivity].
  - rewrite Hr by lia.
    destruct (Z.ltb_spec (line q + 1) (line q + 1)); [lia|].
    rewrite Z.eqb_refl, H1 by lia.
    destruct (Z.ltb_spec (line q) (line p + 1)); [lia|].
    destruct (Z.eqb_spec (line q) (line p + 1)) as [Heq|_]; [|reflexivity].
    f_equal. lia.
  - intros k Hk. rewrite Hr by lia.
    destruct (Z.ltb_spec k (line q + 1)); [lia|].
    destruct (Z.eqb_spec k (line q + 1)); [lia|].
    rewrite H1 by lia.
    destruct (Z.ltb_spec (k - 1) (line p + 1)); [lia|].
    destruct (Z.eqb_spec (k - 1) (line p + 1)); [lia|].
    f_equal. lia.
Qed.

Lemma duplicate_down_two_cursors_witness :
  exists r,
    snd (handleDuplicateLineDown false
           {| fields := initial;
              activeEditor :=
                Some {| lines := [lit "a"; lit "b"; lit "c"];
                        selections := [ Examples.range 0 0 0 0;
                                        Examples.range 2 0 2 0 ] |} |})
    = {| fields := initial; activeEditor := Some r |}
    /\ lines r = [lit "a"; lit "a"; lit "b"; lit "b"; lit "c"]
    /\ getLine r 3 = lit "b"
    /\ getLine r 4 = lit "c".
Proof.
  destruct (duplicate_down_two_cursors initial [lit "a"; lit "b"; lit "c"]
              (Examples.at_ 0 0) (Examples.at_ 2 0))
    as (r & Hrun & _ & _ & _ & _ & Hq & Hrest).
  - wf_example.
  - valid_example.
  - valid_example.
  - cbn. lia.
  - exists r. split; [exact Hrun|].
    split; [injection Hrun as <-; reflexivity|].
    split; [exact Hq|]. apply (Hrest 4). cbn. lia.
Defined.

End TwoCursorExtras.
